(** * SockMaster: masked texture compositing, pattern stamping and border stroke

    A shallow embedding of [main.py] (functions [apply_texture],
    [create_pattern] and [border]) together with the Pillow primitives those
    functions call, and the properties of the specification proved over it.

    Conventions of the embedding.
    - A Python [int] is a [Z].  The parameter [alpha] is a Python number: an
      [int] or a [float], the latter an IEEE binary64 value of the standard
      library ([spec_float]); the product [p * alpha] is the binary64
      product, rounded as the hardware rounds it.  The factor of
      [ImageEnhance.Brightness] is a float too, which [Image.blend] casts to
      binary32 and computes with.  The angle of a rotation only feeds a
      kernel of Pillow that is a parameter here and is kept as a rational
      [Q].
    - An image is its size and its pixel function.  Channel values are [Z];
      the 8-bit stores of the C kernels are written out ([UINT8], [CLIP8]).
    - Pillow and Python raise [ValueError], [OverflowError] and [OSError]:
      fallible primitives return a [result].  Loops carry fuel; running out
      of it is the third outcome [OutOfFuel].  Memory is not bounded.
    - The process state (files written by [save], the text printed, the global
      generator of module [random]) is threaded explicitly as a [world].
    - Resampling kernels that work in floating point (bicubic resize and
      rotation, the 3x3 smoothing kernel) are parameters of the development:
      every theorem holds whatever pixels they produce. *)

From Stdlib Require Import ZArith QArith Qround Qpower Lia Lqa List SpecFloat.
From stdpp Require Import gmap strings list pretty.

Local Open Scope Z_scope.

(** ** Pixels and images *)

Record rgba : Type := Rgba { red : Z; green : Z; blue : Z; alpha_of : Z }.

Definition transparent : rgba := Rgba 0 0 0 0.

(** An image of Pillow: [xsize] columns, [ysize] rows, and the pixel stored at
    column [x], row [y].  Only positions inside the image are meaningful. *)
Record Image (P : Type) : Type :=
  mkImage { xsize : N; ysize : N; getpixel : Z -> Z -> P }.

Arguments mkImage {P} _ _ _.
Arguments xsize {P} _.
Arguments ysize {P} _.
Arguments getpixel {P} _ _ _.

Definition width {P} (im : Image P) : Z := Z.of_N (xsize im).
Definition height {P} (im : Image P) : Z := Z.of_N (ysize im).
Definition size {P} (im : Image P) : Z * Z := (width im, height im).

Definition inside {P} (im : Image P) (x y : Z) : bool :=
  (0 <=? x) && (x <? width im) && (0 <=? y) && (y <? height im).

(** The image modes that occur: "L", "RGB" and "RGBA". *)
Inductive AnyImage : Type :=
  | ImL (im : Image Z)
  | ImRGB (im : Image (Z * Z * Z))
  | ImRGBA (im : Image rgba).

(** ** Outcomes and the state monad of the process *)

(** [ValueError] is what Pillow and [random] raise on a bad argument,
    [OverflowError] what [round] and the conversion to a C [long] raise,
    [OSError] what Pillow raises on a file it cannot decode.
    [UnboundReference] is the outcome of using a reference that names no
    object; Python code cannot produce it, the store of objects below needs
    the case. *)
Inductive exn : Type := ValueError | OverflowError | OSError | UnboundReference.

Inductive result (A : Type) : Type :=
  | Ok (a : A)
  | Raise (e : exn)
  | OutOfFuel.

Arguments Ok {A} _.
Arguments Raise {A} _.
Arguments OutOfFuel {A}.

Definition rbind {A B} (r : result A) (k : A -> result B) : result B :=
  match r with
  | Ok a => k a
  | Raise e => Raise e
  | OutOfFuel => OutOfFuel
  end.

(** The generator behind [random.uniform] and [random.randint]: the raw
    outcomes still to come, one sequence per kind of draw. *)
Record RandomSource : Type :=
  mkRandom { floats : nat -> Q; ints : nat -> Z }.

Record world : Type :=
  mkWorld { files : gmap string (Image rgba);
            stdout : list string;
            rng : RandomSource }.

(** State transformers with outcomes, over any state. *)
Definition ST (S A : Type) : Type := S -> result (A * S).

Definition M (A : Type) : Type := ST world A.

Definition ret {S A} (a : A) : ST S A := fun w => Ok (a, w).

Definition bind {S A B} (m : ST S A) (k : A -> ST S B) : ST S B :=
  fun w => match m w with
           | Ok (a, w') => k a w'
           | Raise e => Raise e
           | OutOfFuel => OutOfFuel
           end.

Definition lift {S A} (r : result A) : ST S A :=
  fun w => match r with
           | Ok a => Ok (a, w)
           | Raise e => Raise e
           | OutOfFuel => OutOfFuel
           end.

Notation "'do' x <- m ; k" := (bind m (fun x => k))
  (at level 10, x name, m at level 100, k at level 200).
Notation "'run' m ; k" := (bind m (fun _ => k))
  (at level 10, m at level 100, k at level 200).

(** [print(...)] *)
Definition print (s : string) : M unit :=
  fun w => Ok (tt, mkWorld (files w) (stdout w ++ [s]) (rng w)).

(** [im.save(path)]: the buffer is stored under the path.  Encoding and the
    failures of the operating system are outside the model. *)
Definition save (im : Image rgba) (path : string) : M unit :=
  fun w => Ok (tt, mkWorld (<[path := im]> (files w)) (stdout w) (rng w)).

(** ** Module [random] *)

Definition tl_seq {A} (s : nat -> A) : nat -> A := fun n => s (S n).

(** The fractional part; [random.random()] yields a float of [0, 1), here
    the fractional part of the next raw outcome. *)
Definition frac (q : Q) : Q := (q - inject_Z (Qfloor q))%Q.

(** [random.uniform(a, b)] is [a + (b - a) * random()]. *)
Definition uniform (a b : Q) : M Q :=
  fun w =>
    let g := rng w in
    Ok ((a + (b - a) * frac (floats g 0%nat))%Q,
        mkWorld (files w) (stdout w) (mkRandom (tl_seq (floats g)) (ints g))).

(** [random.randint(a, b)]: an integer of [a..b]; [ValueError] on an empty
    range. *)
Definition randint (a b : Z) : M Z :=
  fun w =>
    let g := rng w in
    if b <? a then Raise ValueError
    else Ok (a + ints g 0%nat mod (b - a + 1),
             mkWorld (files w) (stdout w)
               (mkRandom (floats g) (tl_seq (ints g)))).

(** ** Integer kernels of Pillow *)

Definition UINT8 (v : Z) : Z := v mod 256.
Definition UINT32 (v : Z) : Z := v mod 4294967296.

(** [CLIP8(v)]: [(v) <= 0 ? 0 : (v) < 256 ? (v) : 255]. *)
Definition CLIP8 (v : Z) : Z :=
  if v <=? 0 then 0 else if v <? 256 then v else 255.

(** [DIV255(a, tmp)]: [tmp = a + 128, ((tmp >> 8) + tmp) >> 8]. *)
Definition DIV255 (a : Z) : Z :=
  let tmp := UINT32 (a + 128) in
  Z.shiftr (UINT32 (Z.shiftr tmp 8 + tmp)) 8.

(** [BLEND(mask, in1, in2, tmp)]: [DIV255(in1 * (255 - mask) + in2 * mask)]. *)
Definition BLEND (mask in1 in2 : Z) : Z :=
  UINT8 (DIV255 (in1 * (255 - mask) + in2 * mask)).

(** [SHIFTFORDIV255(a)]: [((a >> 8) + a) >> 8]. *)
Definition SHIFTFORDIV255 (a : Z) : Z :=
  Z.shiftr (UINT32 (Z.shiftr a 8 + a)) 8.

Definition PRECISION_BITS : Z := 7.

(** Python's [round] on a float: to the nearest integer, ties to even. *)
Definition py_round (q : Q) : Z :=
  let f := Qfloor q in
  match Qcompare (frac q) (1 # 2) with
  | Lt => f
  | Gt => f + 1
  | Eq => if Z.even f then f else f + 1
  end.

(** Truncation of a C float-to-integer conversion. *)
Definition Qtrunc (q : Q) : Z :=
  if Qle_bool 0 q then Qfloor q else Qceiling q.

(** ** Python numbers

    A [float] is a binary64 value: precision 53, exponents up to 1024. *)

Inductive number : Type :=
  | Int (n : Z)
  | Float (x : spec_float).

(** [float(n)] *)
Definition float_of_int (n : Z) : spec_float :=
  binary_normalize 53 1024 n 0 false.

(** The product of two floats. *)
Definition float_mul : spec_float -> spec_float -> spec_float := SFmul 53 1024.

(** The literal [n/d] written in decimal, e.g. [0.6]: the float nearest to
    the quotient. *)
Definition float_lit (n d : Z) : spec_float :=
  SFdiv 53 1024 (float_of_int n) (float_of_int d).

(** The rational a finite float stands for. *)
Definition float_value (x : spec_float) : Q :=
  match x with
  | S754_finite s m e =>
      ((if s then -1 else 1) * inject_Z (Zpos m) * 2 ^ e)%Q
  | _ => 0%Q
  end.

Definition number_value (v : number) : Q :=
  match v with
  | Int n => inject_Z n
  | Float x => float_value x
  end.

(** [p * a] for an [int] [p]: an [int] when [a] is one, otherwise the
    product of [float(p)] and [a]. *)
Definition int_times (p : Z) (a : number) : number :=
  match a with
  | Int n => Int (p * n)
  | Float x => Float (float_mul (float_of_int p) x)
  end.

(** [round(v)]: an [int] is left as it is, a float goes to the nearest
    integer, ties to even; [ValueError] on a NaN, [OverflowError] on an
    infinity. *)
Definition round_number (v : number) : result Z :=
  match v with
  | Int n => Ok n
  | Float S754_nan => Raise ValueError
  | Float (S754_infinity _) => Raise OverflowError
  | Float x => Ok (py_round (float_value x))
  end.

(** The value [round(v)] has when it raises nothing. *)
Definition rounded (v : number) : Z :=
  match v with
  | Int n => n
  | Float x => py_round (float_value x)
  end.

(** [PyLong_AsLong]: [OverflowError] outside a 64-bit C [long]. *)
Definition as_long (n : Z) : result Z :=
  if (n <? - 2 ^ 63) || (2 ^ 63 <=? n) then Raise OverflowError else Ok n.

(** A number between 0 and 1: the [int] 0 or 1, or a finite float of
    [0.0 .. 1.0]. *)
Definition in_unit (alpha : number) : Prop :=
  match alpha with
  | Int a => 0 <= a <= 1
  | Float (S754_zero _) => True
  | Float (S754_finite s m e) =>
      (0 <= float_value (S754_finite s m e))%Q
      /\ (float_value (S754_finite s m e) <= 1)%Q
  | Float _ => False
  end.


(** A list comprehension whose body may raise. *)
Fixpoint each {A B} (f : A -> result B) (l : list A) : result (list B) :=
  match l with
  | [] => Ok []
  | a :: l' =>
      rbind (f a) (fun b => rbind (each f l') (fun bs => Ok (b :: bs)))
  end.

(** ** Pillow primitives on image values *)

Definition size_eqb {P1 P2} (a : Image P1) (b : Image P2) : bool :=
  (xsize a =? xsize b)%N && (ysize a =? ysize b)%N.

(** [Image.new(mode, size, color)]: [ValueError] on a negative dimension. *)
Definition Image_new {P} (sz : Z * Z) (color : P) : result (Image P) :=
  if (fst sz <? 0) || (snd sz <? 0) then Raise ValueError
  else Ok (mkImage (Z.to_N (fst sz)) (Z.to_N (snd sz)) (fun _ _ => color)).

(** [im.copy()] *)
Definition copy {P} (im : Image P) : Image P :=
  mkImage (xsize im) (ysize im) (getpixel im).

(** Pointwise image map: the shape of [point], of mode conversion and of
    [Image.blend] against an image of the same size. *)
Definition map_image {P1 P2} (f : P1 -> P2) (im : Image P1) : Image P2 :=
  mkImage (xsize im) (ysize im) (fun x y => f (getpixel im x y)).

(** ["L"] from RGB: [(r*19595 + g*38470 + b*7471 + 0x8000) >> 16]. *)
Definition L24 (r g b : Z) : Z :=
  Z.shiftr (r * 19595 + g * 38470 + b * 7471 + 32768) 16.

(** [im.convert("RGBA")] *)
Definition convert_RGBA (im : AnyImage) : Image rgba :=
  match im with
  | ImL i => map_image (fun l => Rgba l l l 255) i
  | ImRGB i => map_image (fun '(r, g, b) => Rgba r g b 255) i
  | ImRGBA i => copy i
  end.

(** [im.convert("L")] *)
Definition convert_L (im : AnyImage) : Image Z :=
  match im with
  | ImL i => copy i
  | ImRGB i => map_image (fun '(r, g, b) => L24 r g b) i
  | ImRGBA i => map_image (fun p => L24 (red p) (green p) (blue p)) i
  end.

(** *** Images read from a file

    [Image.open] reads the header of a file and decodes the pixels when they
    are first needed ([load], which [convert], [getchannel], [paste], ...
    call).  A file whose data is damaged opens all the same, and [load] then
    raises [OSError].  An image made in memory is loaded. *)
Inductive picture : Type :=
  | Loaded (im : AnyImage)
  | Damaged (header : AnyImage).

(** A loaded image is used wherever a picture is expected. *)
Coercion Loaded : AnyImage >-> picture.

(** The mode and the size are known without the pixels: they are those of
    the header. *)
Definition header (p : picture) : AnyImage :=
  match p with
  | Loaded im => im
  | Damaged h => h
  end.

Definition any_size (im : AnyImage) : Z * Z :=
  match im with
  | ImL i => size i
  | ImRGB i => size i
  | ImRGBA i => size i
  end.

Definition is_RGBA (im : AnyImage) : bool :=
  match im with
  | ImRGBA _ => true
  | _ => false
  end.

(** [im.load()] *)
Definition Image_load (p : picture) : result AnyImage :=
  match p with
  | Loaded im => Ok im
  | Damaged _ => Raise OSError
  end.

(** [im.convert("RGBA")] and [im.convert("L")] on a picture. *)
Definition Image_convert_RGBA (p : picture) : result (Image rgba) :=
  rbind (Image_load p) (fun im => Ok (convert_RGBA im)).

Definition Image_convert_L (p : picture) : result (Image Z) :=
  rbind (Image_load p) (fun im => Ok (convert_L im)).

(** The pixels of a picture of mode "RGBA", as [getchannel] and [paste] read
    them; [ValueError] when the picture has no band 3. *)
Definition Image_load_RGBA (p : picture) : result (Image rgba) :=
  rbind (Image_load p) (fun im =>
  match im with
  | ImRGBA i => Ok i
  | _ => Raise ValueError
  end).

(** [im.split()[3]], [im.getchannel(3)] *)
Definition getchannel3 (im : Image rgba) : Image Z :=
  map_image alpha_of im.

(** [im.point(f)] on an "L" image.  Pillow builds the table
    [[f(i) for i in range(256)]], rounds it ([[round(i) for i in flatLut]])
    and hands it to the C kernel, which converts every entry to a C [long]
    and stores it through [CLIP8]; each pixel then takes the entry of its
    value. *)
Definition lut_table (f : Z -> number) : result (list Z) :=
  let flatLut := map f (map Z.of_nat (seq 0 256)) in
  rbind (each round_number flatLut) (fun flatLut =>
  rbind (each as_long flatLut) (fun longs =>
  Ok (map CLIP8 longs))).

(** The entry of the table for the pixel value [i]. *)
Definition lut (f : Z -> number) (i : Z) : Z := CLIP8 (rounded (f i)).

Definition point (f : Z -> number) (im : Image Z) : result (Image Z) :=
  rbind (lut_table f) (fun _ => Ok (map_image (lut f) im)).

(** [im.putalpha(alpha)] with an "L" image: band 3 is replaced;
    [ValueError] when the sizes differ. *)
Definition putalpha (im : Image rgba) (a : Image Z) : result (Image rgba) :=
  if size_eqb im a then
    Ok (mkImage (xsize im) (ysize im)
          (fun x y => let p := getpixel im x y in
                      Rgba (red p) (green p) (blue p) (getpixel a x y)))
  else Raise ValueError.

(** The part of the destination covered by a source of size [sw] x [sh]
    pasted at [(dx, dy)]; what falls outside the destination is clipped. *)
Definition covered {P} (dst : Image P) (dx dy : Z) (sw sh : Z) (x y : Z)
  : bool :=
  inside dst x y
  && (dx <=? x) && (x <? dx + sw) && (dy <=? y) && (y <? dy + sh).

(** [dst.paste(src, (dx, dy))]: plain copy. *)
Definition paste {P} (dst src : Image P) (box : Z * Z) : Image P :=
  let '(dx, dy) := box in
  mkImage (xsize dst) (ysize dst)
    (fun x y => if covered dst dx dy (width src) (height src) x y
                then getpixel src (x - dx) (y - dy)
                else getpixel dst x y).

(** [paste_mask_L] of Paste.c: an "L" matte weighs the four bands of a
    pixel alike. *)
Definition blend_L (m : Z) (out inp : rgba) : rgba :=
  Rgba (BLEND m (red out) (red inp)) (BLEND m (green out) (green inp))
       (BLEND m (blue out) (blue inp)) (BLEND m (alpha_of out) (alpha_of inp)).

(** [dst.paste(src, (dx, dy), mask)] with an "L" mask; [ValueError] when the
    mask and the source differ in size. *)
Definition paste_mask_L (dst src : Image rgba) (box : Z * Z) (mask : Image Z)
  : result (Image rgba) :=
  let '(dx, dy) := box in
  if size_eqb src mask then
    Ok (mkImage (xsize dst) (ysize dst)
          (fun x y => if covered dst dx dy (width src) (height src) x y
                      then blend_L (getpixel mask (x - dx) (y - dy))
                                   (getpixel dst x y)
                                   (getpixel src (x - dx) (y - dy))
                      else getpixel dst x y))
  else Raise ValueError.

(** [paste_mask_RGBA] of Paste.c: the matte is band 3 of an "RGBA" mask and
    weighs all four bands. *)
Definition blend_RGBA (m : rgba) (out inp : rgba) : rgba :=
  let a := alpha_of m in
  Rgba (BLEND a (red out) (red inp)) (BLEND a (green out) (green inp))
       (BLEND a (blue out) (blue inp)) (BLEND a (alpha_of out) (alpha_of inp)).

(** [dst.paste(src, (dx, dy), mask)] with an "RGBA" mask. *)
Definition paste_mask_RGBA (dst src : Image rgba) (box : Z * Z)
    (mask : Image rgba) : result (Image rgba) :=
  let '(dx, dy) := box in
  if size_eqb src mask then
    Ok (mkImage (xsize dst) (ysize dst)
          (fun x y => if covered dst dx dy (width src) (height src) x y
                      then blend_RGBA (getpixel mask (x - dx) (y - dy))
                                      (getpixel dst x y)
                                      (getpixel src (x - dx) (y - dy))
                      else getpixel dst x y))
  else Raise ValueError.

(** [Image.composite(image1, image2, mask)]:
    [image = image2.copy(); image.paste(image1, None, mask); return image]. *)
Definition composite (image1 image2 : Image rgba) (mask : Image Z)
  : result (Image rgba) :=
  paste_mask_L (copy image2) image1 (0, 0) mask.

(** One pixel of AlphaComposite.c: [dst] is the backdrop, [src] lies over it. *)
Definition alpha_composite_px (dst src : rgba) : rgba :=
  if alpha_of src =? 0 then dst
  else
    let blend := UINT32 (alpha_of dst * (255 - alpha_of src)) in
    let outa255 := UINT32 (alpha_of src * 255 + blend) in
    let coef1 :=
      UINT32 (alpha_of src * 255 * 255 * Z.shiftl 1 PRECISION_BITS) / outa255 in
    let coef2 := UINT32 (255 * Z.shiftl 1 PRECISION_BITS - coef1) in
    let channel (s d : Z) :=
      let tmp := UINT32 (s * coef1 + d * coef2) in
      UINT8 (Z.shiftr
               (SHIFTFORDIV255 (UINT32 (tmp + Z.shiftl 128 PRECISION_BITS)))
               PRECISION_BITS) in
    Rgba (channel (red src) (red dst))
         (channel (green src) (green dst))
         (channel (blue src) (blue dst))
         (UINT8 (SHIFTFORDIV255 (UINT32 (outa255 + 128)))).

(** [Image.alpha_composite(im1, im2)]: [im2] over [im1]; [ValueError] when
    the images do not match. *)
Definition alpha_composite (im1 im2 : Image rgba) : result (Image rgba) :=
  if size_eqb im1 im2 then
    Ok (mkImage (xsize im1) (ysize im1)
          (fun x y => alpha_composite_px (getpixel im1 x y) (getpixel im2 x y)))
  else Raise ValueError.

(** *** [Image.blend] (Blend.c)

    The factor, a Python float, reaches the C kernel as a C [float]; the
    kernel computes in binary32 (precision 24, exponents up to 128). *)

Definition single_of_int (n : Z) : spec_float :=
  binary_normalize 24 128 n 0 false.

(** The cast [(float)alpha] of a double. *)
Definition single_of_double (x : spec_float) : spec_float :=
  match x with
  | S754_finite s m e =>
      binary_normalize 24 128 (if s then Zneg m else Zpos m) e s
  | _ => x
  end.

(** The cast [(UINT8)temp] of a float. *)
Definition byte_of_single (temp : spec_float) : Z :=
  UINT8 (Qtrunc (float_value temp)).

(** One byte of [Image.blend(im1, im2, alpha)]:
    [(UINT8)((int)in1 + alpha * ((int)in2 - (int)in1))], the value clipped to
    [0..255] first when [alpha] extrapolates. *)
Definition blend_band (alpha : spec_float) (in1 in2 : Z) : Z :=
  let temp :=
    SFadd 24 128 (single_of_int in1)
      (SFmul 24 128 alpha (single_of_int (in2 - in1))) in
  if SFleb (single_of_int 0) alpha && SFleb alpha (single_of_int 1)
  then byte_of_single temp
  else if SFleb temp (single_of_int 0) then 0
  else if SFleb (single_of_int 255) temp then 255
  else byte_of_single temp.

Definition blend_px (alpha : spec_float) (p1 p2 : rgba) : rgba :=
  Rgba (blend_band alpha (red p1) (red p2))
       (blend_band alpha (green p1) (green p2))
       (blend_band alpha (blue p1) (blue p2))
       (blend_band alpha (alpha_of p1) (alpha_of p2)).

(** [Image.blend(im1, im2, factor)]; [ValueError] when the images do not
    match; a copy of an argument when the factor is 0.0 or 1.0. *)
Definition blend (im1 im2 : Image rgba) (factor : spec_float)
  : result (Image rgba) :=
  if size_eqb im1 im2 then
    let alpha := single_of_double factor in
    if SFeqb alpha (single_of_int 0) then Ok (copy im1)
    else if SFeqb alpha (single_of_int 1) then Ok (copy im2)
    else
      Ok (mkImage (xsize im1) (ysize im1)
            (fun x y => blend_px alpha (getpixel im1 x y) (getpixel im2 x y)))
  else Raise ValueError.

(** [ImageEnhance.Brightness(image)]: the degenerate image is black and
    carries the alpha band of [image]. *)
Definition Brightness (image : Image rgba) : result (Image rgba * Image rgba) :=
  rbind (Image_new (size image) (Rgba 0 0 0 0)) (fun black =>
  rbind (putalpha black (getchannel3 image)) (fun degenerate =>
  Ok (image, degenerate))).

(** [enhancer.enhance(factor)] is
    [Image.blend(self.degenerate, self.image, factor)]. *)
Definition enhance (enhancer : Image rgba * Image rgba) (factor : spec_float)
  : result (Image rgba) :=
  blend (snd enhancer) (fst enhancer) factor.

(** [MaxFilter(size)]: the image is expanded by [size // 2] replicated edge
    pixels on every side, then every pixel takes the largest value of the
    [size] x [size] window around it.  [ValueError] on a negative margin (in
    [expand]), on an even size and on a size whose window does not fit a C
    [int] (in [rankfilter]:
    [size > INT_MAX / size || size > INT_MAX / (size * sizeof(FLOAT32))]). *)
Definition INT_MAX : Z := 2147483647.

Definition clamp (lo hi v : Z) : Z := Z.max lo (Z.min hi v).

Definition window (margin : Z) : list Z :=
  map (fun i => Z.of_nat i - margin) (seq 0 (Z.to_nat (2 * margin + 1))).

Definition rank_max (margin : Z) (im : Image Z) (x y : Z) : Z :=
  fold_right Z.max 0
    (flat_map (fun j =>
       map (fun i => getpixel im (clamp 0 (width im - 1) (x + i))
                                 (clamp 0 (height im - 1) (y + j)))
           (window margin))
       (window margin)).

Definition filter_MaxFilter (sz : Z) (im : Image Z) : result (Image Z) :=
  if sz / 2 <? 0 then Raise ValueError
  else if Z.even sz then Raise ValueError
  else if (sz >? INT_MAX / sz) || (sz >? INT_MAX / (sz * 4))
  then Raise ValueError
  else Ok (mkImage (xsize im) (ysize im) (rank_max (sz / 2) im)).

(** ** Well-formed channel values *)

Definition byte (v : Z) : Prop := 0 <= v <= 255.

Definition byte_px (p : rgba) : Prop :=
  byte (red p) /\ byte (green p) /\ byte (blue p) /\ byte (alpha_of p).

Definition all_below (n : nat) (P : Z -> bool) : bool :=
  forallb P (map Z.of_nat (seq 0 n)).

(** ** Reference collaborators and sample data

    A concrete choice for each resampling collaborator (nearest-neighbour
    scaling, rotation that keeps the pixels, a smoothing kernel that keeps
    the pixels), on which the transformations can be run. *)

Definition nearest {P} (im : Image P) (sz : Z * Z) (x y : Z) : P :=
  getpixel im (x * width im / fst sz) (y * height im / snd sz).

Definition rotate_keep (angle : Q) (im : Image rgba) : Image rgba := im.

Definition smooth_keep (im : Image Z) (x y : Z) : Z := getpixel im x y.

(** A [w] x [h] image of one colour. *)
Definition solid {P} (w h : N) (c : P) : Image P := mkImage w h (fun _ _ => c).

Definition white : rgba := Rgba 255 255 255 255.

(** A generator whose raw outcomes are all zero, and an empty process. *)
Definition zero_source : RandomSource := mkRandom (fun _ => 0%Q) (fun _ => 0).

Definition empty_world : world := mkWorld ∅ [] zero_source.

(** ** The three transformations of [main.py] *)

Section Transformations.

Set Default Proof Using "Type".

(** Bicubic resampling of [im.resize(size)], per mode: the pixel of the
    resized image at a position. *)
Variable resample_RGBA : Image rgba -> Z * Z -> Z -> Z -> rgba.
Variable resample_L : Image Z -> Z * Z -> Z -> Z -> Z.

(** [im.rotate(angle, resample=Image.BICUBIC, expand=True)]: size and
    pixels of the rotated image. *)
Variable rotate_expand : Q -> Image rgba -> Image rgba.

(** The 3x3 kernel of [ImageFilter.SMOOTH]: the filtered pixel at a
    position. *)
Variable smooth_kernel : Image Z -> Z -> Z -> Z.

(** [im.resize(size)]: a copy of the image when the size does not change;
    otherwise [ValueError] ("height and width must be > 0") when a side of
    the requested size is below 1, and else an image of the requested size,
    resampled. *)
Definition resize_RGBA (im : Image rgba) (sz : Z * Z) : result (Image rgba) :=
  if (width im =? fst sz) && (height im =? snd sz) then Ok (copy im)
  else if (fst sz <? 1) || (snd sz <? 1) then Raise ValueError
  else Ok (mkImage (Z.to_N (fst sz)) (Z.to_N (snd sz)) (resample_RGBA im sz)).

Definition resize_L (im : Image Z) (sz : Z * Z) : result (Image Z) :=
  if (width im =? fst sz) && (height im =? snd sz) then Ok (copy im)
  else if (fst sz <? 1) || (snd sz <? 1) then Raise ValueError
  else Ok (mkImage (Z.to_N (fst sz)) (Z.to_N (snd sz)) (resample_L im sz)).

(** [im.filter(ImageFilter.SMOOTH)]: a filter keeps the size. *)
Definition filter_SMOOTH (im : Image Z) : Image Z :=
  mkImage (xsize im) (ysize im) (smooth_kernel im).

(** [lambda p: p * alpha] *)
Definition scale_alpha (alpha : number) (p : Z) : number := int_times p alpha.

(** The numbers [alpha] that [point] accepts for [lambda p: p * alpha]: the
    256 products round to integers that fit a C [long] (no NaN, no infinity,
    no overflow). *)
Definition point_accepts (alpha : number) : Prop :=
  exists table, lut_table (scale_alpha alpha) = Ok table.

(** *** [apply_texture] *)

(** Lines 17-27: the three layers in the mode and size of the base, the
    texture darkened and its alpha scaled. *)
Definition texture_layers (base_image texture_image mask_image : picture)
    (alpha : number) : result (Image rgba * Image rgba * Image Z) :=
  rbind (Image_convert_RGBA base_image) (fun base =>
  rbind (Image_convert_RGBA texture_image) (fun texture =>
  rbind (resize_RGBA texture (size base)) (fun texture =>
  rbind (Image_convert_L mask_image) (fun mask =>
  rbind (resize_L mask (size base)) (fun mask =>
  rbind (Brightness texture) (fun enhancer =>
  rbind (enhance enhancer (float_lit 7 10)) (fun texture =>
  rbind (point (scale_alpha alpha) (getchannel3 texture)) (fun texture_alpha =>
  rbind (putalpha texture texture_alpha) (fun texture =>
  Ok (base, texture, mask)))))))))).

Definition apply_texture (base_image texture_image mask_image : picture)
    (output_path : string) (alpha : number) : M (Image rgba) :=
  do layers <- lift (texture_layers base_image texture_image mask_image alpha);
  let '(base, texture, mask) := layers in
  do blank <- lift (Image_new (size base) transparent);
  do textured_layer <- lift (composite texture blank mask);
  do textured <- lift (alpha_composite base textured_layer);
  run save textured output_path;
  run print ("Texture applied to the sock and saved to " +:+ output_path);
  ret textured.

(** The factor 0.7 of line 23 as [Image.blend] computes with it. *)
Definition darken : spec_float := single_of_double (float_lit 7 10).

(** The texture handed to compositing, pixel by pixel: what lines 22-27 make
    of a pixel of the resized texture. *)
Definition prepared_px (alpha : number) (p : rgba) : rgba :=
  Rgba (blend_band darken 0 (red p))
       (blend_band darken 0 (green p))
       (blend_band darken 0 (blue p))
       (lut (scale_alpha alpha)
            (blend_band darken (alpha_of p) (alpha_of p))).

(** *** [create_pattern] *)

(** [pass] *)
Definition pass : M unit := ret tt.

(** [if c: body] *)
Definition when (c : bool) (body : M unit) : M unit :=
  if c then body else ret tt.

(** Lines 50-52: the base, the tile in the requested size, the mask in
    the size of the base. *)
Definition pattern_layers (base_image pattern_image mask_image : picture)
    (pattern_size : Z * Z) : result (Image rgba * Image rgba * Image Z) :=
  rbind (Image_convert_RGBA base_image) (fun base =>
  rbind (Image_convert_RGBA pattern_image) (fun pattern =>
  rbind (resize_RGBA pattern pattern_size) (fun pattern =>
  rbind (Image_convert_L mask_image) (fun mask =>
  rbind (resize_L mask (size base)) (fun mask =>
  Ok (base, pattern, mask)))))).

(** Lines 63-82, one cell of the grid: a tile with scaled alpha, rotated
    by a random angle, pasted centred on [(x, y)]. *)
Definition stamp (pattern : Image rgba) (alpha : number) (base_size : Z * Z)
    (x y : Z) (pattern_layer : Image rgba) : M (Image rgba) :=
  do random_angle <- uniform 0 360;
  let pattern_with_alpha := copy pattern in
  do pattern_alpha <-
    lift (point (scale_alpha alpha) (getchannel3 pattern_with_alpha));
  do pattern_with_alpha <- lift (putalpha pattern_with_alpha pattern_alpha);
  let rotated_pattern := rotate_expand random_angle pattern_with_alpha in
  let '(rotated_width, rotated_height) := size rotated_pattern in
  let paste_x := x - rotated_width / 2 in
  let paste_y := y - rotated_height / 2 in
  run when ((paste_x <? 0) || (paste_y <? 0)
            || (paste_x + rotated_width >? fst base_size)
            || (paste_y + rotated_height >? snd base_size))
           pass;
  lift (paste_mask_RGBA pattern_layer rotated_pattern (paste_x, paste_y)
          rotated_pattern).

(** The state of the grid walk: the pattern layer, and a log of the cursor
    positions at which a tile was stamped.  The log is never read by the
    computation. *)
Definition walk_state : Type := Image rgba * list (Z * Z).

(** Lines 62-85: the inner loop, from cursor [y] in column [x]. *)
Fixpoint walk_rows (fuel : nat) (pattern : Image rgba) (alpha : number)
    (base_size : Z * Z) (pattern_size_y base_spacing_y variation_y : Z)
    (x y : Z) (st : walk_state) : M walk_state :=
  if y <? snd base_size then
    match fuel with
    | O => fun _ => OutOfFuel
    | S fuel' =>
        do pattern_layer <- stamp pattern alpha base_size x y (fst st);
        do jitter <- randint (- variation_y) variation_y;
        let delta_y := base_spacing_y + jitter in
        walk_rows fuel' pattern alpha base_size
          pattern_size_y base_spacing_y variation_y
          x (y + (pattern_size_y + delta_y))
          (pattern_layer, snd st ++ [(x, y)])
    end
  else ret st.

(** Lines 60-88: the outer loop, from cursor [x]. *)
Fixpoint walk_columns (fuel fuel_rows : nat) (pattern : Image rgba)
    (alpha : number)
    (base_size pattern_size base_spacing spacing_variation : Z * Z)
    (x : Z) (st : walk_state) : M walk_state :=
  if x <? fst base_size then
    match fuel with
    | O => fun _ => OutOfFuel
    | S fuel' =>
        do st' <- walk_rows fuel_rows pattern alpha base_size
                    (snd pattern_size) (snd base_spacing)
                    (snd spacing_variation) x 0 st;
        do jitter <- randint (- fst spacing_variation) (fst spacing_variation);
        let delta_x := fst base_spacing + jitter in
        walk_columns fuel' fuel_rows pattern alpha base_size pattern_size
          base_spacing spacing_variation
          (x + (fst pattern_size + delta_x)) st'
    end
  else ret st.

(** Lines 54-88: the empty pattern layer and the walk over the whole grid,
    on the base and the tile that lines 50-51 prepared. *)
Definition grid_walk (fuel : nat) (base pattern : Image rgba)
    (pattern_size base_spacing spacing_variation : Z * Z) (alpha : number)
    : M walk_state :=
  do pattern_layer <- lift (Image_new (size base) transparent);
  walk_columns fuel fuel pattern alpha (size base) pattern_size base_spacing
    spacing_variation 0 (pattern_layer, []).

Definition create_pattern (fuel : nat)
    (base_image pattern_image mask_image : picture) (output_path : string)
    (pattern_size base_spacing spacing_variation : Z * Z) (alpha : number)
    : M (Image rgba) :=
  do layers <-
    lift (pattern_layers base_image pattern_image mask_image pattern_size);
  let '(base, pattern, mask) := layers in
  do walked <- grid_walk fuel base pattern pattern_size base_spacing
                 spacing_variation alpha;
  let pattern_layer := fst walked in
  do blank <- lift (Image_new (size base) transparent);
  do patterned_layer <- lift (composite pattern_layer blank mask);
  do combined <- lift (alpha_composite base patterned_layer);
  run save combined output_path;
  run print ("Pattern applied to the sock and saved to " +:+ output_path);
  ret combined.

(** *** [border] *)

Definition show_size (sz : Z * Z) : string :=
  "(" +:+ pretty (fst sz) +:+ ", " +:+ pretty (snd sz) +:+ ")".

(** [lambda x: 255 if x > 0 else 0] *)
Definition binarize (x : Z) : number := if x >? 0 then Int 255 else Int 0.

Definition border (img : picture) (stroke_radius : Z) (color : rgba)
    : M (Image rgba) :=
  do img <- lift (if is_RGBA (header img) then Ok img
                  else rbind (Image_convert_RGBA img)
                         (fun i => Ok (Loaded (ImRGBA i))));
  let img_size := any_size (header img) in
  let new_size :=
    (fst img_size + 2 * stroke_radius, snd img_size + 2 * stroke_radius) in
  run print ("Original size: " +:+ show_size img_size
             +:+ ", New size with border: " +:+ show_size new_size);
  do stroke_image <- lift (Image_new new_size color);
  do img <- lift (Image_load_RGBA img);
  do img_alpha <- lift (point binarize (getchannel3 img));
  do stroke_alpha <- lift (Image_new new_size 0);
  let stroke_alpha :=
    paste stroke_alpha img_alpha (stroke_radius, stroke_radius) in
  let filter_size := 2 * stroke_radius + 1 in
  do stroke_alpha <- lift (filter_MaxFilter filter_size stroke_alpha);
  let stroke_alpha := filter_SMOOTH stroke_alpha in
  do stroke_image <- lift (putalpha stroke_image stroke_alpha);
  do stroke_image <-
    lift (paste_mask_RGBA stroke_image img (stroke_radius, stroke_radius) img);
  ret stroke_image.

(** *** [create_pattern] without the boundary test

    Lines 40-94 of [main.py] with lines 77-80 deleted; everything else is
    unchanged. *)

Definition stamp_unchecked (pattern : Image rgba) (alpha : number)
    (base_size : Z * Z) (x y : Z) (pattern_layer : Image rgba)
    : M (Image rgba) :=
  do random_angle <- uniform 0 360;
  let pattern_with_alpha := copy pattern in
  do pattern_alpha <-
    lift (point (scale_alpha alpha) (getchannel3 pattern_with_alpha));
  do pattern_with_alpha <- lift (putalpha pattern_with_alpha pattern_alpha);
  let rotated_pattern := rotate_expand random_angle pattern_with_alpha in
  let '(rotated_width, rotated_height) := size rotated_pattern in
  let paste_x := x - rotated_width / 2 in
  let paste_y := y - rotated_height / 2 in
  lift (paste_mask_RGBA pattern_layer rotated_pattern (paste_x, paste_y)
          rotated_pattern).

Fixpoint walk_rows_unchecked (fuel : nat) (pattern : Image rgba)
    (alpha : number)
    (base_size : Z * Z) (pattern_size_y base_spacing_y variation_y : Z)
    (x y : Z) (st : walk_state) : M walk_state :=
  if y <? snd base_size then
    match fuel with
    | O => fun _ => OutOfFuel
    | S fuel' =>
        do pattern_layer <-
          stamp_unchecked pattern alpha base_size x y (fst st);
        do jitter <- randint (- variation_y) variation_y;
        let delta_y := base_spacing_y + jitter in
        walk_rows_unchecked fuel' pattern alpha base_size
          pattern_size_y base_spacing_y variation_y
          x (y + (pattern_size_y + delta_y))
          (pattern_layer, snd st ++ [(x, y)])
    end
  else ret st.

Fixpoint walk_columns_unchecked (fuel fuel_rows : nat) (pattern : Image rgba)
    (alpha : number)
    (base_size pattern_size base_spacing spacing_variation : Z * Z)
    (x : Z) (st : walk_state) : M walk_state :=
  if x <? fst base_size then
    match fuel with
    | O => fun _ => OutOfFuel
    | S fuel' =>
        do st' <- walk_rows_unchecked fuel_rows pattern alpha base_size
                    (snd pattern_size) (snd base_spacing)
                    (snd spacing_variation) x 0 st;
        do jitter <- randint (- fst spacing_variation) (fst spacing_variation);
        let delta_x := fst base_spacing + jitter in
        walk_columns_unchecked fuel' fuel_rows pattern alpha base_size
          pattern_size base_spacing spacing_variation
          (x + (fst pattern_size + delta_x)) st'
    end
  else ret st.

Definition grid_walk_unchecked (fuel : nat) (base pattern : Image rgba)
    (pattern_size base_spacing spacing_variation : Z * Z) (alpha : number)
    : M walk_state :=
  do pattern_layer <- lift (Image_new (size base) transparent);
  walk_columns_unchecked fuel fuel pattern alpha (size base) pattern_size
    base_spacing spacing_variation 0 (pattern_layer, []).

Definition create_pattern_unchecked (fuel : nat)
    (base_image pattern_image mask_image : picture) (output_path : string)
    (pattern_size base_spacing spacing_variation : Z * Z) (alpha : number)
    : M (Image rgba) :=
  do layers <-
    lift (pattern_layers base_image pattern_image mask_image pattern_size);
  let '(base, pattern, mask) := layers in
  do walked <- grid_walk_unchecked fuel base pattern pattern_size
                 base_spacing spacing_variation alpha;
  let pattern_layer := fst walked in
  do blank <- lift (Image_new (size base) transparent);
  do patterned_layer <- lift (composite pattern_layer blank mask);
  do combined <- lift (alpha_composite base patterned_layer);
  run save combined output_path;
  run print ("Pattern applied to the sock and saved to " +:+ output_path);
  ret combined.

(** *** Outcomes of the grid walk *)

(** What a finished walk keeps: the size of the layer, the files and the
    output. *)
Definition walk_keeps (st : walk_state) (w : world)
    (r : result (walk_state * world)) : Prop :=
  match r with
  | Ok (st', w') =>
      xsize (fst st') = xsize (fst st) /\ ysize (fst st') = ysize (fst st)
      /\ files w' = files w /\ stdout w' = stdout w
  | _ => True
  end.

(** How a walk may end when it has fuel enough: with a result, or with an
    exception in the circumstances [raises]; never out of fuel. *)
Definition walk_halts {A} (raises : Prop) (r : result A) : Prop :=
  match r with
  | Ok _ => True
  | Raise _ => raises
  | OutOfFuel => False
  end.

(** Geometry for which every step of the walk advances its cursor, whatever
    the jitter drawn. *)
Definition stride_positive (pattern_size base_spacing spacing_variation : Z * Z)
  : Prop :=
  0 < fst pattern_size + fst base_spacing - fst spacing_variation
  /\ 0 < snd pattern_size + snd base_spacing - snd spacing_variation.

(** Jitter ranges on which [randint] is defined. *)
Definition jitter_nonempty (spacing_variation : Z * Z) : Prop :=
  0 <= fst spacing_variation /\ 0 <= snd spacing_variation.

(** Fuel that covers a walk over a base of the given size. *)
Definition fuel_covers (fuel : nat) (base_size : Z * Z) : Prop :=
  fst base_size < Z.of_nat fuel /\ snd base_size < Z.of_nat fuel.

(** The positions a cursor takes when it starts at [c] and advances by a
    fixed [stride] while it is below [limit], at most [n] of them. *)
Fixpoint cursor_positions (n : nat) (c stride limit : Z) : list Z :=
  if c <? limit then
    match n with
    | O => []
    | S n' => c :: cursor_positions n' (c + stride) stride limit
    end
  else [].

(** The grid of a walk without jitter, column after column. *)
Definition grid_points (fuel : nat) (stride base_size : Z * Z) : list (Z * Z) :=
  flat_map
    (fun x =>
       map (pair x) (cursor_positions fuel 0 (snd stride) (snd base_size)))
    (cursor_positions fuel 0 (fst stride) (fst base_size)).

(** Fuel that covers every base no larger than the given one. *)
Definition fuel_for (base_size : Z * Z) : nat :=
  S (Z.to_nat (Z.max (fst base_size) (snd base_size))).

(** *** [apply_texture] on image objects

    Python images are objects: [convert], [resize], [split], [point],
    [enhance], [Image.new], [Image.composite] and [Image.alpha_composite]
    return a new object, while [putalpha] and [paste] write into the object
    they are called on.  Here the objects of the process are kept in a store
    and a variable holds a reference.  The objects of the store are images
    in memory. *)




























(** *** Sample data *)

Definition red_half : rgba := Rgba 100 0 0 128.

(** The floats 0.5, 0.6 and 0.9. *)
Definition half : number := Float (float_lit 1 2).
Definition alpha_texture : number := Float (float_lit 6 10).
Definition alpha_pattern : number := Float (float_lit 9 10).


(** *** [main]

    The input files of the process.  Under a path there is a file that
    [Image.open] rejects with an exception whose text is recorded, a picture
    that decodes, or a file with a sound header whose data is damaged.
    [main] reads under "images/" and writes elsewhere, so the files it reads
    are kept apart from the ones [save] writes. *)

Inductive file : Type :=
  | Unreadable (why : string)
  | Picture (im : AnyImage)
  | Truncated (header : AnyImage).

(** [os.path.isfile(path)] *)
Definition isfile (disk : gmap string file) (path : string) : bool :=
  match disk !! path with
  | Some _ => true
  | None => false
  end.

(** A header that announces a width or a height of 0 is not identified as an
    image by any decoder of Pillow. *)
Definition nonempty (im : AnyImage) : bool :=
  (0 <? fst (any_size im)) && (0 <? snd (any_size im)).

Definition unidentified (path : string) : string :=
  "cannot identify image file '" +:+ path +:+ "'".

(** [Image.open(path)]: the picture, its pixels not yet decoded, or the
    text of the exception. *)
Definition Image_open (disk : gmap string file) (path : string)
  : string + picture :=
  match disk !! path with
  | Some (Unreadable why) => inl why
  | Some (Picture im) =>
      if nonempty im then inr (Loaded im) else inl (unidentified path)
  | Some (Truncated h) =>
      if nonempty h then inr (Damaged h) else inl (unidentified path)
  | None => inl ("[Errno 2] No such file or directory: '" +:+ path +:+ "'")
  end.

(** Lines 160-163: the first path of the list that is not a file. *)
Fixpoint first_missing (disk : gmap string file) (paths : list string)
  : option string :=
  match paths with
  | [] => None
  | path :: rest =>
      if isfile disk path then first_missing disk rest else Some path
  end.

Definition sock_path : string := "images/sock.png".
Definition texture_path : string := "images/texture.jpg".
Definition dog_path : string := "images/dog.png".
Definition mask_path : string := "images/sock_mask.png".
Definition textured_sock_path : string := "sock_with_texture.png".
Definition patterned_sock_path : string := "sock_with_pattern.png".
Definition final_sock_path : string := "sock_final.png".

Definition input_paths : list string :=
  [sock_path; texture_path; dog_path; mask_path].

(** Lines 190-211: the pipeline on the four opened images. *)
Definition pipeline (fuel : nat) (sock texture dog mask : picture) : M unit :=
  do textured_sock <-
    apply_texture sock texture mask textured_sock_path (Float (float_lit 6 10));
  do bordered_sock <- border dog 10 (Rgba 255 255 255 255);
  run save bordered_sock "bordered.png";
  do patterned_sock <-
    create_pattern fuel (ImRGBA textured_sock) (ImRGBA bordered_sock) mask
      patterned_sock_path (300, 300) (80, 80) (50, 50)
      (Float (float_lit 9 10));
  run save patterned_sock final_sock_path;
  run print ("Final image saved to " +:+ final_sock_path);
  print "Image processing complete. Check the output files.".

(** Lines 147-211. *)
Definition main (fuel : nat) (disk : gmap string file) : M unit :=
  match first_missing disk input_paths with
  | Some path =>
      print ("Error: " +:+ path +:+ " not found in the current directory.")
  | None =>
      match Image_open disk sock_path with
      | inl e => print ("Error opening " +:+ sock_path +:+ ": " +:+ e)
      | inr sock =>
      match Image_open disk texture_path with
      | inl e => print ("Error opening " +:+ texture_path +:+ ": " +:+ e)
      | inr texture =>
      match Image_open disk dog_path with
      | inl e => print ("Error opening " +:+ dog_path +:+ ": " +:+ e)
      | inr dog =>
      match Image_open disk mask_path with
      | inl e => print ("Error opening " +:+ mask_path +:+ ": " +:+ e)
      | inr mask => pipeline fuel sock texture dog mask
      end end end end
  end.

(** *** Auxiliary notions for the properties of [border] *)

(** The image [border] works on: [img] itself when its mode is "RGBA", its
    conversion otherwise (lines 110-111). *)
Definition as_RGBA (img : AnyImage) : Image rgba :=
  match img with
  | ImRGBA i => i
  | _ => convert_RGBA img
  end.

(** Lines 121-133: the binarized alpha of [img] pasted at [(r, r)] on an
    empty mask of the new size, before and after [MaxFilter]. *)
Definition silhouette (img : Image rgba) (r : Z) : Image Z :=
  paste (mkImage (Z.to_N (width img + 2 * r)) (Z.to_N (height img + 2 * r))
           (fun _ _ => 0))
        (map_image (lut binarize) (getchannel3 img)) (r, r).

Definition dilated (img : Image rgba) (r : Z) : Image Z :=
  mkImage (Z.to_N (width img + 2 * r)) (Z.to_N (height img + 2 * r))
    (rank_max ((2 * r + 1) / 2) (silhouette img r)).

(** Some pixel of [img] that is not fully transparent lies within [r]
    columns and [r] rows of the position [(x, y)] of the stroked image. *)
Definition near_footprint (img : Image rgba) (r x y : Z) : Prop :=
  exists i j,
    0 <= i < width img /\ 0 <= j < height img
    /\ alpha_of (getpixel img i j) > 0
    /\ x - r <= r + i <= x + r /\ y - r <= r + j <= y + r.

(** Lines 118-139: the canvas of the new size, in the border colour, with
    the smoothed dilated mask as alpha. *)
Definition stroke_canvas (img : Image rgba) (r : Z) (color : rgba)
  : Image rgba :=
  mkImage (Z.to_N (width img + 2 * r)) (Z.to_N (height img + 2 * r))
    (fun x y =>
       Rgba (red color) (green color) (blue color)
            (smooth_kernel (dilated img r) x y)).

(** Line 142: the image pasted on the canvas at [(r, r)] through its own
    alpha. *)
Definition stroked (img : Image rgba) (r : Z) (color : rgba) : Image rgba :=
  mkImage (Z.to_N (width img + 2 * r)) (Z.to_N (height img + 2 * r))
    (fun x y =>
       if covered (stroke_canvas img r color) r r (width img) (height img) x y
       then blend_RGBA (getpixel img (x - r) (y - r))
              (getpixel (stroke_canvas img r color) x y)
              (getpixel img (x - r) (y - r))
       else getpixel (stroke_canvas img r color) x y).

(** The line [border] prints. *)
Definition border_message (img : Image rgba) (r : Z) : string :=
  "Original size: " +:+ show_size (size img)
  +:+ ", New size with border: "
  +:+ show_size (width img + 2 * r, height img + 2 * r).

(** The radii whose filter window [2r + 1] the rank filter accepts. *)
Definition MAX_RADIUS : Z := 11584.

(** *** Auxiliary notions for the properties of compositing *)

(** What the two compositing functions return, pixel by pixel: the base
    under a layer that is transparent or the top layer weighed by the mask. *)
Definition over_base (base top : Image rgba) (mask : Image Z)
    (out : Image rgba) : Prop :=
  xsize out = xsize base /\ ysize out = ysize base
  /\ forall x y,
       exists lay,
         getpixel out x y = alpha_composite_px (getpixel base x y) lay
         /\ (lay = transparent
             \/ lay = blend_L (getpixel mask x y) transparent (getpixel top x y)).

(** The lines [main] prints on a full run, for a dog picture [dog]. *)
Definition main_output (dog : AnyImage) : list string :=
  ["Texture applied to the sock and saved to sock_with_texture.png";
   border_message (as_RGBA dog) 10;
   "Pattern applied to the sock and saved to sock_with_pattern.png";
   "Final image saved to sock_final.png";
   "Image processing complete. Check the output files."].

(** The files a full run of [main] leaves. *)
Definition main_files (textured bordered patterned : Image rgba)
    (before : gmap string (Image rgba)) : gmap string (Image rgba) :=
  <[final_sock_path := patterned]>
    (<[patterned_sock_path := patterned]>
       (<["bordered.png" := bordered]>
          (<[textured_sock_path := textured]> before))).

(** Fuel for [main] on a disk: enough to walk the sock picture. *)
Definition main_fuel (disk : gmap string file) : nat :=
  match Image_open disk sock_path with
  | inr sock => fuel_for (any_size (header sock))
  | inl _ => O
  end.

(** The four inputs open. *)
Definition all_open (disk : gmap string file) : Prop :=
  forall path, In path input_paths ->
  exists p, Image_open disk path = inr p.

(** One of the inputs opens without its data being decodable. *)
Definition some_damaged (disk : gmap string file) : Prop :=
  exists path h, In path input_paths /\ Image_open disk path = inr (Damaged h).

(** A disk with the four inputs of [main]: a 2 x 2 white sock, a 3 x 3
    texture, a 1 x 1 translucent dog and a mask that is 0 everywhere. *)
Definition sample_disk : gmap string file :=
  <[sock_path := Picture (ImRGBA (solid 2 2 white))]>
    (<[texture_path := Picture (ImRGB (solid 3 3 (10, 20, 30)))]>
       (<[dog_path := Picture (ImRGBA (solid 1 1 red_half))]>
          (<[mask_path := Picture (ImL (solid 2 2 0))]> ∅))).


(** The same disk with a texture file whose header is sound and whose data
    is cut short. *)
Definition damaged_disk : gmap string file :=
  <[texture_path := Truncated (ImRGB (solid 3 3 (10, 20, 30)))]> sample_disk.

(** A 3 x 3 texture of alpha 45, and the float 0.7. *)
Definition faint_texture : AnyImage := ImRGBA (solid 3 3 (Rgba 10 20 30 45)).
Definition seven_tenths : number := Float (float_lit 7 10).
(** ** Binary64 products

    Rounding a number below [2^9] to binary64: the digits that are shifted
    out, the exponent of the result and the distance to the exact value. *)

Lemma digits2_pos_size m : digits2_pos m = Pos.size m.
Proof. induction m; simpl; congruence. Qed.

Lemma Zdigits2_log2 m : Zdigits2 (Zpos m) = Z.log2 (Zpos m) + 1.
Proof.
  unfold Zdigits2. rewrite digits2_pos_size.
  destruct m; simpl; lia.
Qed.

Lemma Zdigits2_bounds m :
  2 ^ (Zdigits2 (Zpos m) - 1) <= Zpos m < 2 ^ Zdigits2 (Zpos m).
Proof.
  rewrite Zdigits2_log2.
  pose proof (Z.log2_spec (Zpos m) ltac:(lia)) as H.
  replace (Z.log2 (Z.pos m) + 1 - 1) with (Z.log2 (Z.pos m)) by lia.
  replace (Z.log2 (Z.pos m) + 1) with (Z.succ (Z.log2 (Z.pos m))) by lia.
  exact H.
Qed.

Lemma shr_1_m mrs : 0 <= shr_m mrs -> shr_m (shr_1 mrs) = shr_m mrs / 2.
Proof.
  destruct mrs as [m r s]. simpl. intros Hm.
  destruct m as [|[p|p|]|p]; try lia; simpl shr_m.
  - reflexivity.
  - rewrite Pos2Z.inj_xI. replace (2 * Z.pos p + 1) with (1 + Z.pos p * 2) by lia.
    rewrite Z.div_add by lia. reflexivity.
  - rewrite Pos2Z.inj_xO. replace (2 * Z.pos p) with (Z.pos p * 2) by lia.
    rewrite Z.div_mul by lia. reflexivity.
  - reflexivity.
Qed.

Lemma pow2_xI p : 2 ^ Zpos p~1 = 2 * (2 ^ Zpos p * 2 ^ Zpos p).
Proof.
  replace (Zpos p~1) with (1 + (Z.pos p + Z.pos p)) by lia.
  rewrite (Z.pow_add_r 2 1 (Z.pos p + Z.pos p)) by lia.
  rewrite (Z.pow_add_r 2 (Z.pos p) (Z.pos p)) by lia.
  reflexivity.
Qed.

Lemma pow2_xO p : 2 ^ Zpos p~0 = 2 ^ Zpos p * 2 ^ Zpos p.
Proof.
  replace (Zpos p~0) with (Z.pos p + Z.pos p) by lia.
  apply Z.pow_add_r; lia.
Qed.

Lemma iter_shr_m p : forall mrs,
  0 <= shr_m mrs ->
  shr_m (SpecFloat.iter_pos shr_1 p mrs) = shr_m mrs / 2 ^ Zpos p.
Proof.
  induction p as [p IH|p IH|]; intros mrs Hm; cbn [SpecFloat.iter_pos].
  - assert (H1 : 0 <= shr_m (shr_1 mrs))
      by (rewrite shr_1_m by assumption; apply Z.div_pos; lia).
    assert (H2 : 0 <= shr_m (SpecFloat.iter_pos shr_1 p (shr_1 mrs)))
      by (rewrite IH by assumption; apply Z.div_pos; lia).
    rewrite IH, IH, shr_1_m by assumption.
    assert (0 < 2 ^ Zpos p) by (apply Z.pow_pos_nonneg; lia).
    rewrite !Z.div_div by lia. by rewrite pow2_xI.
  - assert (H2 : 0 <= shr_m (SpecFloat.iter_pos shr_1 p mrs))
      by (rewrite IH by assumption; apply Z.div_pos; lia).
    rewrite IH, IH by assumption.
    assert (0 < 2 ^ Zpos p) by (apply Z.pow_pos_nonneg; lia).
    rewrite !Z.div_div by lia. by rewrite pow2_xO.
  - rewrite shr_1_m by assumption. reflexivity.
Qed.

(** [shr_fexp] truncates the mantissa to the exponent [fexp] asks for. *)
Lemma shr_fexp_spec m e l :
  0 <= m ->
  let e' := Z.max e (fexp 53 1024 (Zdigits2 m + e)) in
  exists mrs,
    shr_fexp 53 1024 m e l = (mrs, e')
    /\ shr_m mrs = m / 2 ^ (e' - e)
    /\ (e' = e -> mrs = shr_record_of_loc m l).
Proof.
  intros Hm e'. unfold shr_fexp, shr.
  assert (Hrec : shr_m (shr_record_of_loc m l) = m)
    by (destruct l as [|[]]; reflexivity).
  destruct (fexp 53 1024 (Zdigits2 m + e) - e) as [|p|p] eqn:E.
  - exists (shr_record_of_loc m l).
    assert (e' = e) by (unfold e'; lia).
    split; [congruence|]. split; [|auto].
    rewrite Hrec. replace (e' - e) with 0 by lia. by rewrite Z.div_1_r.
  - eexists. split; [|split].
    + f_equal. unfold e'. lia.
    + rewrite iter_shr_m by (rewrite Hrec; lia). rewrite Hrec.
      f_equal. f_equal. unfold e'. lia.
    + unfold e'. lia.
  - exists (shr_record_of_loc m l).
    assert (e' = e) by (unfold e'; lia).
    split; [congruence|]. split; [|auto].
    rewrite Hrec. replace (e' - e) with 0 by lia. by rewrite Z.div_1_r.
Qed.

Lemma round_nearest_even_range m l :
  m <= round_nearest_even m l <= m + 1.
Proof.
  unfold round_nearest_even. destruct l as [|[]]; try lia.
  destruct (Z.even m); lia.
Qed.

Lemma Zdigits2_nonneg m : 0 <= m -> 0 <= Zdigits2 m.
Proof. destruct m; simpl; lia. Qed.

Lemma Zdigits2_le_pow2 m k : 0 <= k -> 0 <= m <= 2 ^ k -> Zdigits2 m <= k + 1.
Proof.
  intros Hk [H0 Hm]. destruct m as [|p|p]; [simpl; lia| |lia].
  rewrite Zdigits2_log2.
  pose proof (Z.log2_le_mono _ _ Hm) as H.
  rewrite Z.log2_pow2 in H by lia. lia.
Qed.

(** The integer-level outcome of rounding [m * 2^e] to binary64 when the
    number is below [2^9]: either nothing is shifted out and the result is
    exact, or the result is within [2^(e''+1)] at an exponent [e'' <= -43]. *)
Lemma binary_round_aux_small m e :
  Zdigits2 (Zpos m) + e <= 9 ->
  exists m2 e2,
    binary_round_aux 53 1024 false (Zpos m) e loc_Exact
    = match m2 with
      | Zpos p => S754_finite false p e2
      | _ => S754_zero false
      end
    /\ 0 <= m2 /\ e <= e2
    /\ (m2 = Zpos m /\ e2 = e
        \/ e2 <= -43
           /\ Z.abs (m2 * 2 ^ (e2 - e) - Zpos m) <= 2 ^ (e2 - e + 1)).
Proof.
  intros Hd. unfold binary_round_aux.
  set (d := Zdigits2 (Zpos m)) in *.
  pose proof (Zdigits2_bounds m) as Hm. fold d in Hm.
  assert (Hd1 : 1 <= d) by (unfold d; simpl; lia).
  destruct (shr_fexp_spec (Zpos m) e loc_Exact ltac:(lia))
    as (mrs1 & -> & Hm1 & Hsame1).
  fold d in Hm1, Hsame1 |- *.
  set (e1 := Z.max e (fexp 53 1024 (d + e))) in *.
  set (m1 := round_nearest_even (shr_m mrs1) (loc_of_shr_record mrs1)).
  assert (Hm1nn : 0 <= shr_m mrs1) by (rewrite Hm1; apply Z.div_pos; lia).
  pose proof (round_nearest_even_range (shr_m mrs1) (loc_of_shr_record mrs1))
    as Hr. fold m1 in Hr.
  destruct (shr_fexp_spec m1 e1 loc_Exact ltac:(lia))
    as (mrs2 & -> & Hm2 & Hsame2).
  set (e2 := Z.max e1 (fexp 53 1024 (Zdigits2 m1 + e1))) in *.
  assert (Hm2nn : 0 <= shr_m mrs2) by (rewrite Hm2; apply Z.div_pos; lia).
  assert (Hfexp : fexp 53 1024 (d + e) <= -44) by (unfold fexp, emin; lia).
  destruct (Z.eq_dec e1 e) as [Heq|Hne].
  - (* nothing is shifted out *)
    assert (Hrec : mrs1 = shr_record_of_loc (Zpos m) loc_Exact) by auto.
    assert (Hm1' : m1 = Zpos m) by (unfold m1; rewrite Hrec; reflexivity).
    assert (He2 : e2 = e).
    { unfold e2. rewrite Hm1', Heq. fold d. unfold e1 in Heq. lia. }
    assert (Hrec2 : mrs2 = shr_record_of_loc m1 loc_Exact)
      by (apply Hsame2; lia).
    exists (Zpos m), e. rewrite Hrec2, Hm1', He2. simpl shr_m.
    assert (Hle : (e <=? 1024 - 53) = true) by (apply Z.leb_le; lia).
    rewrite Hle. split; [reflexivity|]. split; [lia|]. split; [lia|].
    left. split; reflexivity.
  - assert (He1 : e1 = fexp 53 1024 (d + e)) by (unfold e1 in *; lia).
    assert (He1lo : -1074 <= e1) by (rewrite He1; unfold fexp, emin; lia).
    assert (Hk1 : 0 < e1 - e) by (unfold e1 in *; lia).
    assert (Hpow1 : 0 < 2 ^ (e1 - e)) by (apply Z.pow_pos_nonneg; lia).
    (* the mantissa after the first shift *)
    assert (Hdiv1 : shr_m mrs1 * 2 ^ (e1 - e) <= Zpos m
                    < (shr_m mrs1 + 1) * 2 ^ (e1 - e)).
    { rewrite Hm1.
      pose proof (Z.mul_div_le (Zpos m) (2 ^ (e1 - e)) Hpow1).
      pose proof (Z.mul_succ_div_gt (Zpos m) (2 ^ (e1 - e)) Hpow1). lia. }
    (* digits of the rounded mantissa *)
    assert (Hdig : Zdigits2 m1 + e1 <= 10).
    { destruct (Z_lt_le_dec d (e1 - e)) as [Hsmall|Hbig].
      - assert (shr_m mrs1 = 0).
        { rewrite Hm1. apply Z.div_small. split; [lia|].
          apply Z.lt_le_trans with (2 ^ d); [lia|].
          apply Z.pow_le_mono_r; lia. }
        assert (Zdigits2 m1 <= 0 + 1) by (apply Zdigits2_le_pow2; simpl; lia).
        lia.
      - assert (shr_m mrs1 < 2 ^ (d - (e1 - e))).
        { rewrite Hm1. apply Z.div_lt_upper_bound; [lia|].
          rewrite <- (Z.pow_add_r 2 (e1 - e) (d - (e1 - e))) by lia.
          replace (e1 - e + (d - (e1 - e))) with d by lia. lia. }
        assert (Zdigits2 m1 <= d - (e1 - e) + 1)
          by (apply Zdigits2_le_pow2; lia).
        lia. }
    assert (He2hi : e2 <= -43) by (unfold e2, fexp, emin; lia).
    assert (He12 : e1 <= e2) by (unfold e2; lia).
    assert (Hpow2 : 0 < 2 ^ (e2 - e1)) by (apply Z.pow_pos_nonneg; lia).
    assert (Hdiv2 : shr_m mrs2 * 2 ^ (e2 - e1) <= m1
                    < (shr_m mrs2 + 1) * 2 ^ (e2 - e1)).
    { rewrite Hm2.
      pose proof (Z.mul_div_le m1 (2 ^ (e2 - e1)) Hpow2).
      pose proof (Z.mul_succ_div_gt m1 (2 ^ (e2 - e1)) Hpow2). lia. }
    exists (shr_m mrs2), e2.
    split.
    { destruct (shr_m mrs2) as [|p|p]; try reflexivity; [|lia].
      assert (Hle : (e2 <=? 1024 - 53) = true) by (apply Z.leb_le; lia).
      by rewrite Hle. }
    split; [assumption|]. split; [lia|]. right. split; [assumption|].
    assert (Hsplit : 2 ^ (e2 - e) = 2 ^ (e2 - e1) * 2 ^ (e1 - e)).
    { rewrite <- (Z.pow_add_r 2 (e2 - e1) (e1 - e)) by lia. f_equal. lia. }
    assert (Hsucc : 2 ^ (e2 - e + 1) = 2 * 2 ^ (e2 - e))
      by (rewrite (Z.pow_add_r 2 (e2 - e) 1) by lia; lia).
    assert (Hone : 1 <= 2 ^ (e2 - e1)) by lia.
    rewrite Hsucc, Hsplit.
    set (P1 := 2 ^ (e1 - e)) in *. set (P2 := 2 ^ (e2 - e1)) in *.
    nia.
Qed.

Lemma two_pow_pos e : (0 < 2 ^ e)%Q.
Proof. apply Qpower_0_lt. reflexivity. Qed.

Lemma two_pow_add a b : (2 ^ (a + b) == 2 ^ a * 2 ^ b)%Q.
Proof. apply Qpower_plus. discriminate. Qed.

Lemma two_pow_le a b : a <= b -> (2 ^ a <= 2 ^ b)%Q.
Proof. intros H. apply Qpower_le_compat_l; [exact H|]. discriminate. Qed.

Lemma two_pow_Z k : 0 <= k -> (2 ^ k == inject_Z (2 ^ k))%Q.
Proof. intros H. symmetry. apply (Zpower_Qpower 2 k H). Qed.

(** The magnitude of a rounded number, as a rational. *)
Lemma binary_round_aux_close m e :
  Zdigits2 (Zpos m) + e <= 9 ->
  let r := binary_round_aux 53 1024 false (Zpos m) e loc_Exact in
  (r = S754_zero false \/ exists m2 e2, r = S754_finite false m2 e2)
  /\ (float_value r - inject_Z (Zpos m) * 2 ^ e <= 2 ^ (-42))%Q
  /\ (inject_Z (Zpos m) * 2 ^ e - float_value r <= 2 ^ (-42))%Q.
Proof.
  intros Hd r.
  destruct (binary_round_aux_small m e Hd) as (m2 & e2 & Hr & Hm2 & He & Hcase).
  fold r in Hr.
  assert (Hval : (float_value r == inject_Z m2 * 2 ^ e2)%Q).
  { rewrite Hr. destruct m2 as [|p|p]; [| |lia]; cbn [float_value].
    - change (inject_Z 0) with 0%Q. lra.
    - lra. }
  split.
  { rewrite Hr. destruct m2 as [|p|p]; [by left | right; eauto | lia]. }
  pose proof (two_pow_pos e) as Hpe. pose proof (two_pow_pos (-42)) as H42.
  rewrite Hval.
  destruct Hcase as [[-> ->]|[He2 Habs]]; [split; lra|].
  assert (Hsplit : (2 ^ e2 == inject_Z (2 ^ (e2 - e)) * 2 ^ e)%Q).
  { rewrite <- two_pow_Z by lia. rewrite <- two_pow_add.
    replace (e2 - e + e) with e2 by lia. reflexivity. }
  assert (Hbound : (inject_Z (2 ^ (e2 - e + 1)) * 2 ^ e <= 2 ^ (-42))%Q).
  { rewrite <- two_pow_Z by lia. rewrite <- two_pow_add.
    apply two_pow_le. lia. }
  set (A := m2 * 2 ^ (e2 - e)) in *.
  assert (HA : (inject_Z m2 * 2 ^ e2 == inject_Z A * 2 ^ e)%Q).
  { rewrite Hsplit. unfold A. rewrite inject_Z_mult. ring. }
  rewrite HA.
  assert (Hup : (inject_Z A - inject_Z (Zpos m)
                 <= inject_Z (2 ^ (e2 - e + 1)))%Q).
  { unfold Qminus. rewrite <- inject_Z_opp, <- inject_Z_plus, <- Zle_Qle. lia. }
  assert (Hlo : (inject_Z (Zpos m) - inject_Z A
                 <= inject_Z (2 ^ (e2 - e + 1)))%Q).
  { unfold Qminus. rewrite <- inject_Z_opp, <- inject_Z_plus, <- Zle_Qle. lia. }
  set (t := (2 ^ e)%Q) in *. set (B := inject_Z (2 ^ (e2 - e + 1))) in *.
  set (a := inject_Z A) in *. set (b := inject_Z (Zpos m)) in *.
  split; nra.
Qed.
(** ** Arithmetic of the kernels *)

Lemma all_below_spec n P v :
  all_below n P = true -> 0 <= v < Z.of_nat n -> P v = true.
Proof.
  unfold all_below. rewrite forallb_forall. intros H Hv.
  apply H. apply in_map_iff. exists (Z.to_nat v). split; [lia|].
  apply in_seq. lia.
Qed.

Lemma DIV255_exact v : byte v -> UINT8 (DIV255 (v * 255)) = v.
Proof.
  intros Hv.
  assert (H : all_below 256 (fun v => UINT8 (DIV255 (v * 255)) =? v) = true)
    by (vm_compute; reflexivity).
  apply Z.eqb_eq. apply (all_below_spec _ _ _ H). unfold byte in Hv. lia.
Qed.

Lemma BLEND_0 out inp : byte out -> BLEND 0 out inp = out.
Proof.
  intros H. unfold BLEND.
  replace (out * (255 - 0) + inp * 0) with (out * 255) by lia.
  by apply DIV255_exact.
Qed.

Lemma BLEND_0_0 inp : BLEND 0 0 inp = 0.
Proof.
  unfold BLEND. replace (0 * (255 - 0) + inp * 0) with 0 by lia. reflexivity.
Qed.

Lemma BLEND_255 out inp : byte inp -> BLEND 255 out inp = inp.
Proof.
  intros H. unfold BLEND.
  replace (out * (255 - 255) + inp * 255) with (inp * 255) by lia.
  by apply DIV255_exact.
Qed.

Example BLEND_half : BLEND 128 255 100 = 177 /\ BLEND 128 255 0 = 127.
Proof. split; reflexivity. Qed.

Example py_round_ties :
  py_round (5 # 2) = 2 /\ py_round (7 # 2) = 4 /\ py_round (255 # 2) = 128
  /\ py_round (153 # 1) = 153.
Proof. repeat split; reflexivity. Qed.

Example alpha_composite_px_opaque :
  alpha_composite_px (Rgba 10 20 30 255) (Rgba 200 100 50 255)
  = Rgba 200 100 50 255.
Proof. reflexivity. Qed.

(** A single lit pixel in the middle of a 3 x 3 image, dilated by
    [MaxFilter(3)], lights the corners too. *)
Example filter_MaxFilter_dilates :
  let dot := mkImage 3 3 (fun x y => if (x =? 1) && (y =? 1) then 255 else 0) in
  exists out,
    filter_MaxFilter 3 dot = Ok out
    /\ getpixel out 0 0 = 255 /\ getpixel out 2 2 = 255
    /\ filter_MaxFilter 2 dot = Raise ValueError.
Proof. eexists. repeat split; reflexivity. Qed.

Lemma blend_L_0_transparent inp : blend_L 0 transparent inp = transparent.
Proof.
  unfold blend_L, transparent. simpl.
  by rewrite !BLEND_0_0.
Qed.

Lemma blend_RGBA_opaque m out inp :
  alpha_of m = 255 -> byte_px inp -> blend_RGBA m out inp = inp.
Proof.
  intros Hm (Hr & Hg & Hb & Ha). unfold blend_RGBA. rewrite Hm.
  rewrite !BLEND_255 by assumption. by destruct inp.
Qed.

Lemma alpha_composite_px_transparent dst src :
  alpha_of src = 0 -> alpha_composite_px dst src = dst.
Proof. intros H. unfold alpha_composite_px. by rewrite H. Qed.

(** ** Rounding of the scaled alpha *)

Lemma inject_Z_succ z : (inject_Z (z + 1) == inject_Z z + 1)%Q.
Proof. rewrite inject_Z_plus. reflexivity. Qed.

Lemma frac_bounds q : (0 <= frac q)%Q /\ (frac q < 1)%Q.
Proof.
  unfold frac. pose proof (Qfloor_le q) as Hl. pose proof (Qlt_floor q) as Hu.
  rewrite inject_Z_succ in Hu. split; lra.
Qed.

Lemma py_round_near q :
  (inject_Z (py_round q) - q <= 1 # 2)%Q /\ (q - inject_Z (py_round q) <= 1 # 2)%Q.
Proof.
  unfold py_round. pose proof (frac_bounds q) as [H0 H1].
  destruct (Qcompare (frac q) (1 # 2)) eqn:E.
  - apply Qeq_alt in E.
    destruct (Z.even (Qfloor q)); [|rewrite inject_Z_succ];
      unfold frac in *; lra.
  - apply Qlt_alt in E. unfold frac in *. lra.
  - apply Qgt_alt in E. rewrite inject_Z_succ. unfold frac in *. lra.
Qed.

Lemma py_round_integer q n : (q == inject_Z n)%Q -> py_round q = n.
Proof.
  intros H. unfold py_round.
  assert (Hf : Qfloor q = n) by (rewrite (Qfloor_comp _ _ H); apply Qfloor_Z).
  assert (Hz : (frac q == 0)%Q) by (unfold frac; rewrite Hf; lra).
  rewrite Hf.
  destruct (Qcompare (frac q) (1 # 2)) eqn:E.
  - apply Qeq_alt in E. lra.
  - reflexivity.
  - apply Qgt_alt in E. lra.
Qed.

Lemma py_round_bounds q lo hi :
  (inject_Z lo <= q)%Q -> (q <= inject_Z hi)%Q -> lo <= py_round q <= hi.
Proof.
  intros Hlo Hhi. unfold py_round.
  pose proof (frac_bounds q) as [H0 H1].
  pose proof (Qfloor_le q) as Hfl. pose proof (Qlt_floor q) as Hfu.
  rewrite inject_Z_succ in Hfu.
  assert (Hl : lo <= Qfloor q).
  { apply Z.lt_succ_r. rewrite <- Z.add_1_r. rewrite Zlt_Qlt, inject_Z_succ. lra. }
  assert (Hu : Qfloor q <= hi) by (rewrite Zle_Qle; lra).
  assert (Hstrict : (1 # 2 <= frac q)%Q -> Qfloor q < hi).
  { intros Hhalf. unfold frac in Hhalf.
    destruct (Z_lt_le_dec (Qfloor q) hi) as [|Hge]; [assumption|].
    assert (Hq : Qfloor q = hi) by lia. rewrite Hq in *. lra. }
  destruct (Qcompare (frac q) (1 # 2)) eqn:E.
  - destruct (Z.even (Qfloor q)); [lia|].
    apply Qeq_alt in E. assert (Qfloor q < hi) by (apply Hstrict; lra). lia.
  - lia.
  - apply Qgt_alt in E. assert (Qfloor q < hi) by (apply Hstrict; lra). lia.
Qed.

Lemma CLIP8_byte v : byte v -> CLIP8 v = v.
Proof.
  unfold byte, CLIP8. intros H.
  destruct (v <=? 0) eqn:E0; [lia|]. destruct (v <? 256) eqn:E1; lia.
Qed.

Lemma py_round_unique q n :
  (q - inject_Z n < 1 # 2)%Q -> (inject_Z n - q < 1 # 2)%Q -> py_round q = n.
Proof.
  intros H1 H2. pose proof (py_round_near q) as [N1 N2].
  assert (Hlt : (inject_Z (py_round q) < inject_Z (n + 1))%Q)
    by (rewrite inject_Z_succ; lra).
  assert (Hgt : (inject_Z (n - 1) < inject_Z (py_round q))%Q).
  { replace (n - 1) with (n + - (1)) by lia.
    rewrite inject_Z_plus, inject_Z_opp. change (inject_Z 1) with 1%Q. lra. }
  rewrite <- Zlt_Qlt in Hlt, Hgt. lia.
Qed.

Lemma py_round_nonneg q : (0 <= q)%Q -> 0 <= py_round q.
Proof.
  intros H. pose proof (py_round_near q) as [N1 N2].
  assert (Hgt : (inject_Z (-1) < inject_Z (py_round q))%Q).
  { change (inject_Z (-1)) with (-1)%Q. lra. }
  rewrite <- Zlt_Qlt in Hgt. lia.
Qed.

Lemma py_round_below q n :
  (q < inject_Z n + (1 # 2))%Q -> py_round q <= n.
Proof.
  intros H. pose proof (py_round_near q) as [N1 N2].
  assert (Hlt : (inject_Z (py_round q) < inject_Z (n + 1))%Q)
    by (rewrite inject_Z_succ; lra).
  rewrite <- Zlt_Qlt in Hlt. lia.
Qed.

(** ** The product [p * alpha] *)

Lemma float_of_int_byte p :
  1 <= p <= 255 ->
  exists m e,
    float_of_int p = S754_finite false m e
    /\ e <= 0 /\ Zpos m = p * 2 ^ (- e) /\ Zdigits2 (Zpos m) + e <= 8.
Proof.
  intros Hp.
  assert (H : all_below 256
                (fun p =>
                   (p =? 0)
                   || match float_of_int p with
                      | S754_finite false m e =>
                          (e <=? 0) && (Zpos m =? p * 2 ^ (- e))
                          && (Zdigits2 (Zpos m) + e <=? 8)
                      | _ => false
                      end) = true)
    by (vm_compute; reflexivity).
  pose proof (all_below_spec _ _ p H ltac:(lia)) as Hc. cbv beta in Hc.
  destruct (p =? 0) eqn:E; [lia|]. cbn [orb] in Hc.
  destruct (float_of_int p) as [| | |[|] m e]; try discriminate.
  cbv beta iota in Hc.
  rewrite !andb_true_iff, !Z.leb_le, Z.eqb_eq in Hc.
  destruct Hc as [[H1 H2] H3]. exists m, e. repeat split; assumption.
Qed.

Lemma Zdigits2_mul a b :
  Zdigits2 (Zpos (a * b)) <= Zdigits2 (Zpos a) + Zdigits2 (Zpos b).
Proof.
  rewrite !Zdigits2_log2, Pos2Z.inj_mul.
  pose proof (Z.log2_mul_above (Zpos a) (Zpos b) ltac:(lia) ltac:(lia)). lia.
Qed.

(** A float of at most 1 has its leading digit below the binary point. *)
Lemma unit_digits m e :
  (inject_Z (Zpos m) * 2 ^ e <= 1)%Q -> Zdigits2 (Zpos m) + e <= 1.
Proof.
  intros H. destruct (Z_le_gt_dec (Zdigits2 (Zpos m) + e) 1) as [|Hbig];
    [assumption|exfalso].
  pose proof (Zdigits2_bounds m) as [Hlo _].
  set (d := Zdigits2 (Zpos m)) in *.
  assert (Hd : 1 <= d) by (unfold d; simpl; lia).
  pose proof (two_pow_pos e) as Hpe.
  assert (H1 : (2 ^ (d - 1) <= inject_Z (Zpos m))%Q).
  { rewrite two_pow_Z by lia. rewrite <- Zle_Qle. exact Hlo. }
  assert (H2 : (2 ^ 1 <= 2 ^ (d - 1 + e))%Q) by (apply two_pow_le; lia).
  rewrite two_pow_add in H2. change (2 ^ 1)%Q with 2%Q in H2.
  set (t := (2 ^ e)%Q) in *. set (u := (2 ^ (d - 1))%Q) in *.
  set (q := inject_Z (Zpos m)) in *. nra.
Qed.

Lemma float_of_int_exact m e p :
  e <= 0 -> Zpos m = p * 2 ^ (- e) ->
  (inject_Z (Zpos m) * 2 ^ e == inject_Z p)%Q.
Proof.
  intros He Hm. rewrite Hm, inject_Z_mult, <- two_pow_Z by lia.
  rewrite <- Qmult_assoc, <- two_pow_add.
  replace (- e + e) with 0 by lia. change (2 ^ 0)%Q with 1%Q. ring.
Qed.

(** The number [p * alpha], for a pixel value [p] and [alpha] between 0 and
    1: [round] accepts it, it is not negative, and it is within [2^-42] of
    the exact product. *)
Lemma scale_alpha_close alpha p :
  in_unit alpha -> byte p ->
  let v := scale_alpha alpha p in
  round_number v = Ok (rounded v)
  /\ (0 <= number_value v)%Q
  /\ (number_value v - inject_Z p * number_value alpha <= 2 ^ (-42))%Q
  /\ (inject_Z p * number_value alpha - number_value v <= 2 ^ (-42))%Q.
Proof.
  intros Hu [Hp0 Hp1] v. unfold scale_alpha, int_times in v.
  pose proof (two_pow_pos (-42)) as H42.
  destruct alpha as [a|x].
  - simpl in Hu. subst v. cbn [round_number rounded number_value].
    rewrite inject_Z_mult.
    assert (Ha : (0 <= inject_Z a)%Q)
      by (change 0%Q with (inject_Z 0); rewrite <- Zle_Qle; lia).
    assert (Hq : (0 <= inject_Z p)%Q)
      by (change 0%Q with (inject_Z 0); rewrite <- Zle_Qle; lia).
    repeat split; try reflexivity; nra.
  - assert (Hzero : forall s,
               float_mul (float_of_int p) (S754_zero s) = S754_zero s).
    { intros s. destruct (Z.eq_dec p 0) as [->|Hne]; [reflexivity|].
      destruct (float_of_int_byte p ltac:(lia)) as (mx & ex & -> & _).
      reflexivity. }
    destruct x as [s|s| |s m e]; try (simpl in Hu; contradiction).
    + subst v. rewrite Hzero. cbn [round_number rounded number_value float_value].
      repeat split; try reflexivity; lra.
    + cbn [in_unit] in Hu. destruct Hu as [Hlo Hhi].
      pose proof (two_pow_pos e) as Hpe.
      assert (Hm : (0 < inject_Z (Zpos m))%Q)
        by (change 0%Q with (inject_Z 0); rewrite <- Zlt_Qlt; lia).
      destruct s.
      { exfalso. cbn [float_value] in Hlo.
        set (t := (2 ^ e)%Q) in *. set (q := inject_Z (Zpos m)) in *. nra. }
      cbn [float_value] in Hlo, Hhi.
      assert (Hdig : Zdigits2 (Zpos m) + e <= 1).
      { apply unit_digits. set (t := (2 ^ e)%Q) in *.
        set (q := inject_Z (Zpos m)) in *. lra. }
      destruct (Z.eq_dec p 0) as [->|Hne].
      { subst v. change (float_mul (float_of_int 0) (S754_finite false m e))
          with (S754_zero false).
        cbn [round_number rounded number_value float_value].
        change (inject_Z 0) with 0%Q.
        repeat split; try reflexivity; lra. }
      destruct (float_of_int_byte p ltac:(lia))
        as (mx & ex & Hf & Hex & Hmx & Hdx).
      assert (Hv : v = Float (binary_round_aux 53 1024 false
                                (Zpos (mx * m)) (ex + e) loc_Exact))
        by (subst v; rewrite Hf; reflexivity).
      pose proof (Zdigits2_mul mx m) as Hmul.
      destruct (binary_round_aux_close (mx * m) (ex + e) ltac:(lia))
        as (Hfin & Hc1 & Hc2).
      set (r := binary_round_aux 53 1024 false (Zpos (mx * m)) (ex + e)
                  loc_Exact) in *.
      assert (Hexact : (inject_Z (Zpos (mx * m)) * 2 ^ (ex + e)
                        == inject_Z p * (1 * inject_Z (Zpos m) * 2 ^ e))%Q).
      { rewrite Pos2Z.inj_mul, inject_Z_mult, two_pow_add.
        rewrite <- (float_of_int_exact mx ex p Hex Hmx). ring. }
      rewrite Hv. cbn [number_value float_value].
      rewrite <- Hexact.
      split; [|split; [|split; assumption]].
      * destruct Hfin as [->|(m2 & e2 & ->)]; reflexivity.
      * destruct Hfin as [->|(m2 & e2 & ->)]; cbn [float_value]; [lra|].
        pose proof (two_pow_pos e2).
        assert ((0 < inject_Z (Zpos m2))%Q)
          by (change 0%Q with (inject_Z 0); rewrite <- Zlt_Qlt; lia).
        set (t := (2 ^ e2)%Q) in *. set (q := inject_Z (Zpos m2)) in *. nra.
Qed.

Lemma two_pow_42 : (2 ^ (-42) < 1 # 4)%Q.
Proof. vm_compute. reflexivity. Qed.

Lemma rounded_value v z :
  round_number v = Ok z -> z = py_round (number_value v).
Proof.
  destruct v as [n|[| | |]]; simpl; intros H; try discriminate;
    injection H as <-; try reflexivity.
  symmetry. by apply py_round_integer.
Qed.

(** The entry of the table for a pixel value [a]: the product [a * alpha]
    to the nearest integer. *)
Lemma lut_scale_alpha alpha a :
  in_unit alpha -> byte a ->
  let a' := lut (scale_alpha alpha) a in
  a' = rounded (scale_alpha alpha a)
  /\ byte a'
  /\ (inject_Z a' - inject_Z a * number_value alpha
      <= (1 # 2) + 2 ^ (-42))%Q
  /\ (inject_Z a * number_value alpha - inject_Z a'
      <= (1 # 2) + 2 ^ (-42))%Q
  /\ forall n, (inject_Z a * number_value alpha == inject_Z n)%Q -> a' = n.
Proof.
  intros Hu Ha a'.
  destruct (scale_alpha_close alpha a Hu Ha) as (Hr & H0 & Hc1 & Hc2).
  pose proof (rounded_value _ _ Hr) as Hround.
  set (v := scale_alpha alpha a) in *. set (q := number_value v) in *.
  pose proof two_pow_42 as H42. pose proof (two_pow_pos (-42)) as H42'.
  pose proof (py_round_near q) as [N1 N2].
  assert (Hunit : (0 <= number_value alpha)%Q /\ (number_value alpha <= 1)%Q).
  { destruct alpha as [n|[| | |s m e]]; simpl in Hu |- *; try contradiction.
    - change 0%Q with (inject_Z 0). change 1%Q with (inject_Z 1).
      rewrite <- !Zle_Qle. lia.
    - split; lra.
    - exact Hu. }
  destruct Hunit as [Hu0 Hu1]. destruct Ha as [Ha0 Ha1].
  assert (Haq : (0 <= inject_Z a)%Q /\ (inject_Z a <= 255)%Q).
  { change 0%Q with (inject_Z 0). change 255%Q with (inject_Z 255).
    rewrite <- !Zle_Qle. lia. }
  destruct Haq as [Haq0 Haq1].
  assert (Hbyte : byte (rounded v)).
  { rewrite Hround. split; [by apply py_round_nonneg|].
    apply py_round_below. change (inject_Z 255) with 255%Q.
    set (al := number_value alpha) in *. set (ia := inject_Z a) in *. nra. }
  assert (Ha' : a' = rounded v) by (unfold a', lut; by apply CLIP8_byte).
  split; [exact Ha'|]. split; [by rewrite Ha'|].
  rewrite Ha', Hround. split; [lra|]. split; [lra|].
  intros n Hn. apply py_round_unique; lra.
Qed.

Lemma each_Ok {A B} (f : A -> result B) (P : B -> Prop) (l : list A) :
  (forall a, In a l -> exists b, f a = Ok b /\ P b) ->
  exists bs, each f l = Ok bs /\ Forall P bs.
Proof.
  induction l as [|a l IH]; intros H; simpl.
  - exists []. split; [reflexivity|constructor].
  - destruct (H a) as (b & Hb & HP); [by left|].
    destruct IH as (bs & Hbs & HPs); [intros a' Ha'; apply H; by right|].
    exists (b :: bs). rewrite Hb, Hbs. split; [reflexivity|by constructor].
Qed.

(** For [alpha] between 0 and 1 the table of [point] is built. *)
Lemma lut_table_scale alpha :
  in_unit alpha -> exists t, lut_table (scale_alpha alpha) = Ok t.
Proof.
  intros Hu. unfold lut_table.
  destruct (each_Ok round_number byte
              (map (scale_alpha alpha) (map Z.of_nat (seq 0 256))))
    as (rs & -> & Hrs).
  { intros v Hv. apply in_map_iff in Hv. destruct Hv as (p & <- & Hp).
    apply in_map_iff in Hp. destruct Hp as (k & <- & Hk). apply in_seq in Hk.
    assert (Hb : byte (Z.of_nat k)) by (unfold byte; lia).
    destruct (scale_alpha_close alpha _ Hu Hb) as (Hr & _).
    destruct (lut_scale_alpha alpha _ Hu Hb) as (Hl & Hbyte & _).
    eexists. split; [exact Hr|]. by rewrite <- Hl. }
  cbn [rbind].
  destruct (each_Ok as_long (fun _ => True) rs) as (ls & -> & _).
  { intros v Hv. rewrite List.Forall_forall in Hrs. specialize (Hrs v Hv).
    exists v. split; [|exact I]. unfold as_long, byte in *.
    destruct (v <? - 2 ^ 63) eqn:E1; [lia|].
    destruct (2 ^ 63 <=? v) eqn:E2; [lia|]. reflexivity. }
  eexists. reflexivity.
Qed.

Lemma in_unit_accepted alpha : in_unit alpha -> point_accepts alpha.
Proof. exact (lut_table_scale alpha). Qed.

Lemma point_scale alpha im :
  in_unit alpha ->
  point (scale_alpha alpha) im = Ok (map_image (lut (scale_alpha alpha)) im).
Proof.
  intros Hu. unfold point. destruct (lut_table_scale alpha Hu) as (t & ->).
  reflexivity.
Qed.

Lemma point_binarize im :
  point binarize im = Ok (map_image (lut binarize) im).
Proof.
  unfold point.
  assert (H : exists t, lut_table binarize = Ok t)
    by (eexists; vm_compute; reflexivity).
  destruct H as (t & ->). reflexivity.
Qed.

(** Whatever [point] returns is the image of the table entries. *)
Lemma point_inv f im out :
  point f im = Ok out -> out = map_image (lut f) im.
Proof.
  unfold point. destruct (lut_table f); simpl; intros H;
    [by injection H as <- | discriminate | discriminate].
Qed.



(** Brightness 0.7 against black, in binary32: a colour byte [v] becomes
    [7 * v / 10], an alpha byte is kept. *)
Lemma blend_band_darkens v : byte v -> blend_band darken 0 v = 7 * v / 10.
Proof.
  intros Hv.
  assert (H : all_below 256
                (fun v => blend_band darken 0 v =? 7 * v / 10) = true)
    by (vm_compute; reflexivity).
  apply Z.eqb_eq. apply (all_below_spec _ _ _ H). unfold byte in Hv. lia.
Qed.

Lemma blend_band_same a : byte a -> blend_band darken a a = a.
Proof.
  intros Ha.
  assert (H : all_below 256 (fun a => blend_band darken a a =? a) = true)
    by (vm_compute; reflexivity).
  apply Z.eqb_eq. apply (all_below_spec _ _ _ H). unfold byte in Ha. lia.
Qed.

(** 0.7 is neither of the factors for which [Image.blend] copies. *)
Lemma darken_blends :
  SFeqb darken (single_of_int 0) = false
  /\ SFeqb darken (single_of_int 1) = false.
Proof. split; vm_compute; reflexivity. Qed.
(** ** Sizes *)

Lemma size_eqb_true {P1 P2} (a : Image P1) (b : Image P2) :
  size_eqb a b = true <-> xsize a = xsize b /\ ysize a = ysize b.
Proof.
  unfold size_eqb. rewrite andb_true_iff, !N.eqb_eq. reflexivity.
Qed.

Lemma size_eqb_same {P1 P2} (a : Image P1) (b : Image P2) :
  xsize a = xsize b -> ysize a = ysize b -> size_eqb a b = true.
Proof. intros. by apply size_eqb_true. Qed.

Lemma size_eqb_refl {P} (a : Image P) : size_eqb a a = true.
Proof. by apply size_eqb_same. Qed.

Lemma width_nonneg {P} (im : Image P) : 0 <= width im.
Proof. unfold width. lia. Qed.

Lemma height_nonneg {P} (im : Image P) : 0 <= height im.
Proof. unfold height. lia. Qed.

Lemma size_of_sizes {P1 P2} (a : Image P1) (b : Image P2) :
  xsize a = xsize b -> ysize a = ysize b -> size a = size b.
Proof. intros Hx Hy. unfold size, width, height. by rewrite Hx, Hy. Qed.

Lemma sizes_of_size {P1 P2} (a : Image P1) (b : Image P2) :
  width a = width b -> height a = height b ->
  xsize a = xsize b /\ ysize a = ysize b.
Proof. unfold width, height. lia. Qed.

Lemma Image_new_ok {P} (sz : Z * Z) (c : P) :
  0 <= fst sz -> 0 <= snd sz ->
  Image_new sz c = Ok (mkImage (Z.to_N (fst sz)) (Z.to_N (snd sz)) (fun _ _ => c)).
Proof.
  intros H1 H2. unfold Image_new.
  destruct (fst sz <? 0) eqn:E1; [lia|].
  destruct (snd sz <? 0) eqn:E2; [lia|]. reflexivity.
Qed.

Lemma Image_new_size {P Q} (im : Image P) (c : Q) :
  Image_new (size im) c = Ok (mkImage (xsize im) (ysize im) (fun _ _ => c)).
Proof.
  rewrite Image_new_ok; simpl; try apply width_nonneg; try apply height_nonneg.
  unfold width, height. by rewrite !N2Z.id.
Qed.

Lemma any_size_convert im : any_size im = size (convert_RGBA im).
Proof. by destruct im. Qed.

(** ** Outcomes of the monad *)

Lemma bind_Ok {S A B} (m : ST S A) (k : A -> ST S B) w a w' :
  m w = Ok (a, w') -> bind m k w = k a w'.
Proof. intros H. unfold bind. by rewrite H. Qed.

Lemma lift_Ok {S A} (r : result A) a (w : S) :
  r = Ok a -> lift r w = Ok (a, w).
Proof. intros ->. reflexivity. Qed.

Lemma bind_ext {S A B} (m : ST S A) (k1 k2 : A -> ST S B) w :
  (forall a w', k1 a w' = k2 a w') -> bind m k1 w = bind m k2 w.
Proof. intros H. unfold bind. destruct (m w) as [[a w']| |]; auto. Qed.

(** ** [resize] *)

Lemma resize_RGBA_size im sz out :
  resize_RGBA im sz = Ok out -> width out = fst sz /\ height out = snd sz.
Proof.
  unfold resize_RGBA.
  destruct ((width im =? fst sz) && (height im =? snd sz)) eqn:E.
  - intros H. injection H as <-. apply andb_true_iff in E.
    rewrite !Z.eqb_eq in E. exact E.
  - destruct ((fst sz <? 1) || (snd sz <? 1)) eqn:E1; [discriminate|].
    intros H. injection H as <-. apply orb_false_iff in E1.
    rewrite !Z.ltb_ge in E1. unfold width, height. simpl. lia.
Qed.

Lemma resize_L_size im sz out :
  resize_L im sz = Ok out -> width out = fst sz /\ height out = snd sz.
Proof.
  unfold resize_L.
  destruct ((width im =? fst sz) && (height im =? snd sz)) eqn:E.
  - intros H. injection H as <-. apply andb_true_iff in E.
    rewrite !Z.eqb_eq in E. exact E.
  - destruct ((fst sz <? 1) || (snd sz <? 1)) eqn:E1; [discriminate|].
    intros H. injection H as <-. apply orb_false_iff in E1.
    rewrite !Z.ltb_ge in E1. unfold width, height. simpl. lia.
Qed.

Lemma resize_RGBA_Ok im sz :
  0 < fst sz -> 0 < snd sz -> exists out, resize_RGBA im sz = Ok out.
Proof.
  intros H1 H2. unfold resize_RGBA.
  destruct (_ && _); [eauto|].
  destruct (fst sz <? 1) eqn:E1; [lia|].
  destruct (snd sz <? 1) eqn:E2; [lia|]. simpl. eauto.
Qed.

Lemma resize_L_Ok im sz :
  0 < fst sz -> 0 < snd sz -> exists out, resize_L im sz = Ok out.
Proof.
  intros H1 H2. unfold resize_L.
  destruct (_ && _); [eauto|].
  destruct (fst sz <? 1) eqn:E1; [lia|].
  destruct (snd sz <? 1) eqn:E2; [lia|]. simpl. eauto.
Qed.



(** ** [apply_texture] *)

Lemma texture_layers_run (base_image texture_image mask_image : AnyImage)
    alpha resized mask :
  let base := convert_RGBA base_image in
  resize_RGBA (convert_RGBA texture_image) (size base) = Ok resized ->
  resize_L (convert_L mask_image) (size base) = Ok mask ->
  texture_layers base_image texture_image mask_image alpha
  = rbind (lut_table (scale_alpha alpha)) (fun _ =>
    Ok (base,
        mkImage (xsize base) (ysize base)
          (fun x y => prepared_px alpha (getpixel resized x y)),
        mask)).
Proof.
  intros base Hr Hm. unfold texture_layers.
  cbn [Image_convert_RGBA Image_convert_L Image_load rbind]. fold base.
  rewrite Hr, Hm. cbn [rbind].
  destruct (resize_RGBA_size _ _ _ Hr) as [Hw Hh].
  destruct (sizes_of_size resized base Hw Hh) as [Hx Hy].
  unfold Brightness. rewrite Image_new_size. cbn [rbind].
  unfold putalpha at 1. rewrite size_eqb_same by reflexivity. cbn [rbind].
  unfold enhance, blend. cbn [fst snd].
  rewrite size_eqb_same by reflexivity. cbv zeta. fold darken.
  rewrite (proj1 darken_blends), (proj2 darken_blends). cbn [rbind].
  unfold point. destruct (lut_table (scale_alpha alpha)); cbn [rbind];
    try reflexivity.
  unfold putalpha. rewrite size_eqb_same by reflexivity. cbn [rbind].
  cbn [xsize ysize]. by rewrite Hx, Hy.
Qed.

(** With loaded inputs only [resize] and the table of [point] may fail. *)
Lemma texture_layers_inv (base_image texture_image mask_image : AnyImage)
    alpha b t m :
  let base := convert_RGBA base_image in
  texture_layers base_image texture_image mask_image alpha = Ok (b, t, m) ->
  exists resized,
    resize_RGBA (convert_RGBA texture_image) (size base) = Ok resized
    /\ resize_L (convert_L mask_image) (size base) = Ok m
    /\ b = base
    /\ t = mkImage (xsize base) (ysize base)
             (fun x y => prepared_px alpha (getpixel resized x y)).
Proof.
  intros base.
  destruct (resize_RGBA (convert_RGBA texture_image) (size base))
    as [resized| |] eqn:Hr;
    [| unfold texture_layers;
       cbn [Image_convert_RGBA Image_convert_L Image_load rbind];
       fold base; rewrite Hr; discriminate ..].
  destruct (resize_L (convert_L mask_image) (size base)) as [mask| |] eqn:Hm;
    [| unfold texture_layers;
       cbn [Image_convert_RGBA Image_convert_L Image_load rbind];
       fold base; rewrite Hr; cbn [rbind]; rewrite Hm; discriminate ..].
  rewrite (texture_layers_run _ _ _ alpha _ _ Hr Hm). fold base.
  destruct (lut_table _); cbn [rbind]; try discriminate.
  intros H. injection H as <- <- <-. exists resized. repeat split.
Qed.

(** [Image.composite] over a transparent canvas of the size of its
    arguments, pixel by pixel. *)
Lemma composite_over_blank_px (top : Image rgba) (mask : Image Z) xs ys :
  xsize top = xs -> ysize top = ys -> xsize mask = xs -> ysize mask = ys ->
  exists layer,
    composite top (mkImage xs ys (fun _ _ => transparent)) mask = Ok layer
    /\ xsize layer = xs /\ ysize layer = ys
    /\ forall x y,
         getpixel layer x y = transparent
         \/ getpixel layer x y
            = blend_L (getpixel mask x y) transparent (getpixel top x y).
Proof.
  intros Hx Hy Hmx Hmy. unfold composite, paste_mask_L.
  rewrite size_eqb_same by congruence.
  eexists. split; [reflexivity|]. simpl. repeat split.
  intros x y. rewrite !Z.sub_0_r.
  destruct (covered _ _ _ _ _ _ _); [by right | by left].
Qed.

(** Lines 30-38 and 90-94: the masked layer over the base, saved and
    announced. *)
Lemma composited (base top : Image rgba) (mask : Image Z) :
  xsize top = xsize base -> ysize top = ysize base ->
  width mask = width base -> height mask = height base ->
  exists out,
    over_base base top mask out
    /\ forall (w : world),
         bind (lift (Image_new (size base) transparent)) (fun blank =>
         bind (lift (composite top blank mask)) (fun layer =>
         lift (alpha_composite base layer))) w
         = Ok (out, w).
Proof.
  intros Hx Hy Hmw Hmh.
  destruct (sizes_of_size mask base Hmw Hmh) as [Hmx Hmy].
  destruct (composite_over_blank_px top mask (xsize base) (ysize base))
    as (layer & Hc & Hlx & Hly & Hpx); try assumption.
  eexists. split.
  2: { intros w.
       rewrite (bind_Ok _ _ _ _ _ (lift_Ok _ _ _ (Image_new_size _ _))).
       rewrite (bind_Ok _ _ _ _ _ (lift_Ok _ _ _ Hc)).
       unfold alpha_composite. rewrite size_eqb_same by congruence.
       reflexivity. }
  unfold over_base. simpl. repeat split.
  intros x y. exists (getpixel layer x y). split; [reflexivity|]. apply Hpx.
Qed.

Lemma over_base_gated base top mask out x y :
  over_base base top mask out ->
  getpixel mask x y = 0 -> getpixel out x y = getpixel base x y.
Proof.
  intros (_ & _ & Hpx) Hm. destruct (Hpx x y) as (lay & -> & Hlay).
  apply alpha_composite_px_transparent.
  destruct Hlay as [->| ->]; [reflexivity|].
  rewrite Hm. by rewrite blend_L_0_transparent.
Qed.

Lemma over_base_size base top mask out :
  over_base base top mask out ->
  width out = width base /\ height out = height base.
Proof. intros (Hx & Hy & _). unfold width, height. by rewrite Hx, Hy. Qed.

(** A run of [apply_texture] on loaded images, when the two [resize] and the
    table of [point] succeed. *)
Lemma apply_texture_run (base_image texture_image mask_image : AnyImage)
    output_path alpha w resized mask table :
  let base := convert_RGBA base_image in
  resize_RGBA (convert_RGBA texture_image) (size base) = Ok resized ->
  resize_L (convert_L mask_image) (size base) = Ok mask ->
  lut_table (scale_alpha alpha) = Ok table ->
  exists out,
    apply_texture base_image texture_image mask_image output_path alpha w
    = Ok (out,
          mkWorld (<[output_path := out]> (files w))
            (stdout w
             ++ ["Texture applied to the sock and saved to " +:+ output_path])
            (rng w))
    /\ over_base base
         (mkImage (xsize base) (ysize base)
            (fun x y => prepared_px alpha (getpixel resized x y)))
         mask out.
Proof.
  intros base Hr Hm Ht. unfold apply_texture.
  rewrite (texture_layers_run _ _ _ alpha _ _ Hr Hm), Ht. cbn [rbind].
  fold base. unfold bind at 1. unfold lift at 1.
  destruct (resize_L_size _ _ _ Hm) as [Hmw Hmh].
  destruct (composited base
              (mkImage (xsize base) (ysize base)
                 (fun x y => prepared_px alpha (getpixel resized x y)))
              mask) as (out & Hover & Hrun); try reflexivity; try assumption.
  exists out. split; [|exact Hover].
  specialize (Hrun w). unfold bind in Hrun |- *.
  destruct (lift (Image_new (size base) transparent) w) as [[blank w1]| |];
    try discriminate.
  destruct (lift (composite _ blank mask) w1) as [[layer w2]| |];
    try discriminate.
  rewrite Hrun. reflexivity.
Qed.

Lemma apply_texture_inv (base_image texture_image mask_image : AnyImage)
    output_path alpha w out w' :
  let base := convert_RGBA base_image in
  apply_texture base_image texture_image mask_image output_path alpha w
  = Ok (out, w') ->
  exists resized mask,
    resize_RGBA (convert_RGBA texture_image) (size base) = Ok resized
    /\ resize_L (convert_L mask_image) (size base) = Ok mask
    /\ w' = mkWorld (<[output_path := out]> (files w))
              (stdout w
               ++ ["Texture applied to the sock and saved to "
                   +:+ output_path])
              (rng w)
    /\ over_base base
         (mkImage (xsize base) (ysize base)
            (fun x y => prepared_px alpha (getpixel resized x y)))
         mask out.
Proof.
  intros base H.
  destruct (texture_layers base_image texture_image mask_image alpha)
    as [[[b t] m]| |] eqn:Hl;
    [| unfold apply_texture, bind at 1, lift at 1 in H; rewrite Hl in H;
       discriminate ..].
  destruct (texture_layers_inv _ _ _ _ _ _ _ Hl) as (resized & Hr & Hm & _).
  fold base in Hr, Hm.
  destruct (lut_table (scale_alpha alpha)) as [table| |] eqn:Ht;
    [| rewrite (texture_layers_run _ _ _ alpha _ _ Hr Hm), Ht in Hl;
       discriminate ..].
  destruct (apply_texture_run base_image texture_image mask_image output_path
              alpha w resized m table Hr Hm Ht) as (out2 & H2 & Hover).
  rewrite H in H2. injection H2 as -> ->.
  exists resized, m. split; [exact Hr|]. split; [exact Hm|].
  split; [reflexivity | exact Hover].
Qed.

Lemma apply_texture_Ok (base_image texture_image mask_image : AnyImage)
    output_path alpha w :
  let base := convert_RGBA base_image in
  0 < width base -> 0 < height base -> point_accepts alpha ->
  exists out w',
    apply_texture base_image texture_image mask_image output_path alpha w
    = Ok (out, w').
Proof.
  intros base Hw Hh Hu.
  destruct (resize_RGBA_Ok (convert_RGBA texture_image) (size base))
    as (resized & Hr); [exact Hw|exact Hh|].
  destruct (resize_L_Ok (convert_L mask_image) (size base))
    as (mask & Hm); [exact Hw|exact Hh|].
  destruct Hu as (table & Ht).
  destruct (apply_texture_run base_image texture_image mask_image output_path
              alpha w resized mask table Hr Hm Ht) as (out & H & _).
  eauto.
Qed.
(** ** [create_pattern]: the layers *)

Lemma pattern_layers_run (base_image pattern_image mask_image : AnyImage)
    ps pattern mask :
  let base := convert_RGBA base_image in
  resize_RGBA (convert_RGBA pattern_image) ps = Ok pattern ->
  resize_L (convert_L mask_image) (size base) = Ok mask ->
  pattern_layers base_image pattern_image mask_image ps
  = Ok (base, pattern, mask).
Proof.
  intros base Hp Hm. unfold pattern_layers.
  cbn [Image_convert_RGBA Image_convert_L Image_load rbind]. fold base.
  by rewrite Hp, Hm.
Qed.

Lemma pattern_layers_inv (base_image pattern_image mask_image : AnyImage)
    ps b p m :
  let base := convert_RGBA base_image in
  pattern_layers base_image pattern_image mask_image ps = Ok (b, p, m) ->
  b = base
  /\ resize_RGBA (convert_RGBA pattern_image) ps = Ok p
  /\ resize_L (convert_L mask_image) (size base) = Ok m.
Proof.
  intros base. unfold pattern_layers.
  cbn [Image_convert_RGBA Image_convert_L Image_load rbind]. fold base.
  destruct (resize_RGBA (convert_RGBA pattern_image) ps); try discriminate.
  cbn [rbind].
  destruct (resize_L (convert_L mask_image) (size base)); try discriminate.
  cbn [rbind]. intros H. injection H as <- <- <-. repeat split.
Qed.



Lemma pattern_layers_Ok (base_image pattern_image mask_image : AnyImage) ps :
  let base := convert_RGBA base_image in
  0 < width base -> 0 < height base -> 0 < fst ps -> 0 < snd ps ->
  exists pattern mask,
    pattern_layers base_image pattern_image mask_image ps
    = Ok (base, pattern, mask).
Proof.
  intros base Hw Hh Hpx Hpy.
  destruct (resize_RGBA_Ok (convert_RGBA pattern_image) ps Hpx Hpy)
    as (pattern & Hp).
  destruct (resize_L_Ok (convert_L mask_image) (size base) Hw Hh)
    as (mask & Hm).
  exists pattern, mask. by apply pattern_layers_run.
Qed.

(** ** [create_pattern]: one cell *)

Lemma when_pass c w : when c pass w = Ok (tt, w).
Proof. by destruct c. Qed.

Lemma each_halts {A B} (f : A -> result B) (l : list A) :
  (forall a, f a <> OutOfFuel) -> each f l <> OutOfFuel.
Proof.
  intros Hf. induction l as [|a l IH]; simpl; [discriminate|].
  specialize (Hf a). destruct (f a); cbn [rbind]; try congruence.
  destruct (each f l); cbn [rbind]; congruence.
Qed.

Lemma lut_table_halts f : lut_table f <> OutOfFuel.
Proof.
  unfold lut_table.
  pose proof (each_halts round_number (map f (map Z.of_nat (seq 0 256)))) as H1.
  destruct (each round_number _) as [rs| |]; cbn [rbind]; try discriminate.
  - pose proof (each_halts as_long rs) as H2.
    destruct (each as_long rs); cbn [rbind]; try discriminate.
    apply H2. intros a. unfold as_long. destruct (_ || _); discriminate.
  - apply H1. intros [n|[| | |]]; discriminate.
Qed.

(** A cell, according to the table of [point]: when the table is built the
    rotated tile is pasted centred on the cursor; otherwise the cell raises
    what the table raised. *)
Lemma stamp_cases pattern alpha base_size x y layer w :
  match lut_table (scale_alpha alpha) with
  | Ok _ =>
      exists tile layer',
        stamp pattern alpha base_size x y layer w
        = Ok (layer',
              mkWorld (files w) (stdout w)
                (mkRandom (tl_seq (floats (rng w))) (ints (rng w))))
        /\ paste_mask_RGBA layer tile
             (x - width tile / 2, y - height tile / 2) tile = Ok layer'
        /\ xsize layer' = xsize layer /\ ysize layer' = ysize layer
  | Raise e => stamp pattern alpha base_size x y layer w = Raise e
  | OutOfFuel => False
  end.
Proof.
  pose proof (lut_table_halts (scale_alpha alpha)) as Hh.
  unfold stamp, bind, uniform, lift, point.
  destruct (lut_table (scale_alpha alpha)); cbn [rbind];
    [|reflexivity|by apply Hh].
  cbv beta iota. unfold putalpha. rewrite size_eqb_same by reflexivity.
  cbv beta iota. unfold size. cbv beta iota.
  rewrite when_pass. unfold paste_mask_RGBA. rewrite size_eqb_refl.
  match goal with
  | |- context [rotate_expand ?a ?t] => exists (rotate_expand a t)
  end.
  eexists. split; [reflexivity|].
  split; [unfold paste_mask_RGBA; by rewrite size_eqb_refl|].
  split; reflexivity.
Qed.

(** For [alpha] between 0 and 1 a cell never fails; it keeps the size of
    the layer and the files and output of the process, and draws no
    integer. *)
Lemma stamp_Ok pattern alpha base_size x y layer w :
  point_accepts alpha ->
  exists layer' w',
    stamp pattern alpha base_size x y layer w = Ok (layer', w')
    /\ xsize layer' = xsize layer /\ ysize layer' = ysize layer
    /\ files w' = files w /\ stdout w' = stdout w
    /\ ints (rng w') = ints (rng w).
Proof.
  intros Hu. pose proof (stamp_cases pattern alpha base_size x y layer w) as H.
  destruct Hu as (t & Ht). rewrite Ht in H.
  destruct H as (tile & layer' & Hs & _ & Hx & Hy).
  do 2 eexists. split; [exact Hs|]. simpl. repeat split; assumption.
Qed.

Lemma stamp_inv pattern alpha base_size x y layer w layer' w' :
  stamp pattern alpha base_size x y layer w = Ok (layer', w') ->
  xsize layer' = xsize layer /\ ysize layer' = ysize layer
  /\ files w' = files w /\ stdout w' = stdout w
  /\ ints (rng w') = ints (rng w)
  /\ exists tile,
       paste_mask_RGBA layer tile (x - width tile / 2, y - height tile / 2)
         tile = Ok layer'.
Proof.
  intros Hs. pose proof (stamp_cases pattern alpha base_size x y layer w) as H.
  destruct (lut_table (scale_alpha alpha)); [|congruence|destruct H].
  destruct H as (tile & layer2 & Hs2 & Hp & Hx & Hy).
  rewrite Hs in Hs2. injection Hs2 as -> ->. simpl.
  repeat split; try assumption. by exists tile.
Qed.

Lemma stamp_halts pattern alpha base_size x y layer w :
  stamp pattern alpha base_size x y layer w <> OutOfFuel.
Proof.
  pose proof (stamp_cases pattern alpha base_size x y layer w) as H.
  destruct (lut_table (scale_alpha alpha)); [|congruence|destruct H].
  destruct H as (tile & layer2 & -> & _). discriminate.
Qed.

Lemma stamp_unchecked_eq pattern alpha base_size x y layer w :
  stamp pattern alpha base_size x y layer w
  = stamp_unchecked pattern alpha base_size x y layer w.
Proof.
  unfold stamp, stamp_unchecked, bind, uniform, lift. cbv beta iota.
  destruct (point _ _); try reflexivity.
  destruct (putalpha _ _); try reflexivity.
  unfold size. cbv beta iota. by rewrite when_pass.
Qed.

(** ** [random.randint] *)

Lemma randint_Ok a b w :
  a <= b ->
  exists d w',
    randint a b w = Ok (d, w') /\ a <= d <= b
    /\ files w' = files w /\ stdout w' = stdout w.
Proof.
  intros Hab. unfold randint.
  destruct (b <? a) eqn:E; [lia|].
  do 2 eexists. split; [reflexivity|]. simpl. split; [|split; reflexivity].
  pose proof (Z.mod_pos_bound (ints (rng w) 0%nat) (b - a + 1)). lia.
Qed.

Lemma randint_range a b w d w' :
  randint a b w = Ok (d, w') -> a <= d <= b.
Proof.
  unfold randint. destruct (b <? a) eqn:E; [discriminate|].
  intros H. injection H as <- _.
  pose proof (Z.mod_pos_bound (ints (rng w) 0%nat) (b - a + 1)). lia.
Qed.

Lemma randint_keeps a b w d w' :
  randint a b w = Ok (d, w') -> files w' = files w /\ stdout w' = stdout w.
Proof.
  unfold randint. destruct (b <? a); [discriminate|].
  intros H. injection H as _ <-. split; reflexivity.
Qed.

Lemma randint_empty a b w : b < a -> randint a b w = Raise ValueError.
Proof. intros H. unfold randint. destruct (b <? a) eqn:E; [reflexivity|lia]. Qed.

Lemma randint_point a w :
  randint a a w
  = Ok (a, mkWorld (files w) (stdout w)
             (mkRandom (floats (rng w)) (tl_seq (ints (rng w))))).
Proof.
  unfold randint. rewrite Z.ltb_irrefl.
  replace (a - a + 1) with 1 by lia. rewrite Z.mod_1_r.
  by rewrite Z.add_0_r.
Qed.

Lemma randint_halts a b w : randint a b w <> OutOfFuel.
Proof. unfold randint. destruct (b <? a); discriminate. Qed.

(** ** [create_pattern]: the grid walk *)

Lemma walk_rows_keeps fuel pattern alpha base_size ps bs var x :
  forall y st w,
    walk_keeps st w (walk_rows fuel pattern alpha base_size ps bs var x y st w).
Proof.
  induction fuel as [|fuel IH]; intros y st w; cbn [walk_rows];
    destruct (y <? snd base_size); try exact I; try (simpl; repeat split; reflexivity).
  unfold bind at 1.
  destruct (stamp pattern alpha base_size x y (fst st) w)
    as [[layer' w1]| |] eqn:Hs; try exact I.
  destruct (stamp_inv _ _ _ _ _ _ _ _ _ Hs) as (Hx & Hy & Hf & Ho & _).
  unfold bind at 1. destruct (randint (- var) var w1) as [[d w2]| |] eqn:Hr;
    try exact I.
  destruct (randint_keeps _ _ _ _ _ Hr) as [Hw1 Hw2].
  specialize (IH (y + (ps + (bs + d))) (layer', snd st ++ [(x, y)]) w2).
  unfold walk_keeps in *.
  destruct (walk_rows fuel _ _ _ _ _ _ _ _ _ _) as [[st' w']| |]; try exact I.
  simpl in IH. destruct IH as (I1 & I2 & I3 & I4).
  repeat split; congruence.
Qed.

Lemma walk_columns_keeps fuel fuel_rows pattern alpha base_size ps bs var :
  forall x st w,
    walk_keeps st w
      (walk_columns fuel fuel_rows pattern alpha base_size ps bs var x st w).
Proof.
  induction fuel as [|fuel IH]; intros x st w; cbn [walk_columns];
    destruct (x <? fst base_size); try exact I; try (simpl; repeat split; reflexivity).
  pose proof (walk_rows_keeps fuel_rows pattern alpha base_size
                (snd ps) (snd bs) (snd var) x 0 st w) as Hrows.
  unfold bind at 1.
  destruct (walk_rows fuel_rows _ _ _ _ _ _ _ _ _ _) as [[st1 w1]| |];
    try exact I.
  unfold bind at 1.
  destruct (randint (- fst var) (fst var) w1) as [[d w2]| |] eqn:Hr;
    try exact I.
  destruct (randint_keeps _ _ _ _ _ Hr) as [Hw1 Hw2].
  specialize (IH (x + (fst ps + (fst bs + d))) st1 w2).
  unfold walk_keeps in *.
  destruct (walk_columns fuel _ _ _ _ _ _ _ _ _ _) as [[st' w']| |];
    try exact I.
  destruct IH as (I1 & I2 & I3 & I4).
  destruct Hrows as (R1 & R2 & R3 & R4).
  repeat split; congruence.
Qed.

(** The walk halts once the fuel exceeds the distance to the edge, provided
    every stride is positive; it raises only what [point] or [randint]
    raise. *)
Lemma walk_rows_halts (P : Prop) fuel pattern alpha base_size ps bs var x :
  0 < ps + bs - var ->
  (forall e, lut_table (scale_alpha alpha) = Raise e -> P) ->
  (var < 0 -> P) ->
  forall y st w,
    snd base_size - y < Z.of_nat fuel ->
    walk_halts P (walk_rows fuel pattern alpha base_size ps bs var x y st w).
Proof.
  intros Hstride Hpoint Hrange.
  induction fuel as [|fuel IH]; intros y st w Hfuel; cbn [walk_rows];
    destruct (y <? snd base_size) eqn:Hy; try exact I; try lia.
  unfold bind at 1.
  pose proof (stamp_cases pattern alpha base_size x y (fst st) w) as Hc.
  destruct (lut_table (scale_alpha alpha)) as [t|e|] eqn:Ht; [| |destruct Hc].
  2: { rewrite Hc. simpl. by apply (Hpoint e). }
  destruct Hc as (tile & layer' & -> & _).
  destruct (Z_lt_le_dec var 0) as [Hneg|Hpos].
  - unfold bind. rewrite randint_empty by lia. simpl. by apply Hrange.
  - edestruct (randint_Ok (- var) var) as (d & w2 & Hr & Hd & _); [lia|].
    rewrite (bind_Ok _ _ _ _ _ Hr). apply IH. lia.
Qed.

Lemma walk_columns_halts (P : Prop) fuel fuel_rows pattern alpha base_size
    ps bs var :
  0 < fst ps + fst bs - fst var ->
  0 < snd ps + snd bs - snd var ->
  (forall e, lut_table (scale_alpha alpha) = Raise e -> P) ->
  (fst var < 0 \/ snd var < 0 -> P) ->
  snd base_size < Z.of_nat fuel_rows ->
  forall x st w,
    fst base_size - x < Z.of_nat fuel ->
    walk_halts P
      (walk_columns fuel fuel_rows pattern alpha base_size ps bs var x st w).
Proof.
  intros Hsx Hsy Hpoint Hrange Hrows.
  induction fuel as [|fuel IH]; intros x st w Hfuel; cbn [walk_columns];
    destruct (x <? fst base_size) eqn:Hx; try exact I; try lia.
  pose proof (walk_rows_halts P fuel_rows pattern alpha base_size
                (snd ps) (snd bs) (snd var) x Hsy Hpoint
                ltac:(intros; apply Hrange; by right) 0 st w) as Hr.
  unfold bind at 1.
  destruct (walk_rows fuel_rows _ _ _ _ _ _ _ _ _ _) as [[st1 w1]| |];
    simpl in Hr; [| apply Hr; lia | apply Hr; lia].
  destruct (Z_lt_le_dec (fst var) 0) as [Hneg|Hpos].
  - unfold bind. rewrite randint_empty by lia. simpl. apply Hrange. by left.
  - destruct (randint_Ok (- fst var) (fst var) w1) as (d & w2 & Hd & Hrange' & _);
      [lia|].
    rewrite (bind_Ok _ _ _ _ _ Hd). apply IH. lia.
Qed.

(** With an [alpha] that [point] accepts and non-empty jitter ranges the walk
    returns. *)
Lemma walk_columns_Ok fuel fuel_rows pattern alpha base_size ps bs var x st w :
  point_accepts alpha ->
  0 < fst ps + fst bs - fst var ->
  0 < snd ps + snd bs - snd var ->
  0 <= fst var -> 0 <= snd var ->
  snd base_size < Z.of_nat fuel_rows ->
  fst base_size - x < Z.of_nat fuel ->
  exists st' w',
    walk_columns fuel fuel_rows pattern alpha base_size ps bs var x st w
    = Ok (st', w').
Proof.
  intros Hu Hsx Hsy Hvx Hvy Hrows Hfuel.
  destruct Hu as (t & Ht).
  pose proof (walk_columns_halts False fuel fuel_rows pattern alpha base_size
                ps bs var Hsx Hsy
                ltac:(intros e He; congruence) ltac:(lia) Hrows x st w Hfuel)
    as H.
  destruct (walk_columns fuel _ _ _ _ _ _ _ _ _ _) as [[st' w']| |];
    simpl in H; [eauto | destruct H | destruct H].
Qed.

Lemma grid_walk_keeps fuel base pattern ps bs var alpha w st' w' :
  grid_walk fuel base pattern ps bs var alpha w = Ok (st', w') ->
  xsize (fst st') = xsize base /\ ysize (fst st') = ysize base
  /\ files w' = files w /\ stdout w' = stdout w.
Proof.
  unfold grid_walk.
  rewrite (bind_Ok _ _ _ _ _ (lift_Ok _ _ _ (Image_new_size _ _))).
  intros H.
  match type of H with
  | walk_columns ?f ?fr ?p ?a ?b ?ps ?bs ?v ?x ?st ?w = _ =>
      pose proof (walk_columns_keeps f fr p a b ps bs v x st w) as Hk
  end.
  rewrite H in Hk. exact Hk.
Qed.


Lemma grid_walk_Ok fuel base pattern ps bs var alpha w :
  point_accepts alpha ->
  stride_positive ps bs var -> jitter_nonempty var ->
  fuel_covers fuel (size base) ->
  exists st' w',
    grid_walk fuel base pattern ps bs var alpha w = Ok (st', w').
Proof.
  intros Hu [Hsx Hsy] [Hvx Hvy] [Hfx Hfy]. unfold grid_walk.
  rewrite (bind_Ok _ _ _ _ _ (lift_Ok _ _ _ (Image_new_size _ _))).
  apply walk_columns_Ok; try assumption. lia.
Qed.

(** ** [create_pattern] *)

(** After the layers and the walk, lines 90-94 always succeed. *)
Lemma create_pattern_run fuel (base_image pattern_image mask_image : picture)
    output_path ps bs var alpha w base pattern mask st1 w1 :
  pattern_layers base_image pattern_image mask_image ps
  = Ok (base, pattern, mask) ->
  width mask = width base -> height mask = height base ->
  grid_walk fuel base pattern ps bs var alpha w = Ok (st1, w1) ->
  exists out,
    create_pattern fuel base_image pattern_image mask_image output_path
      ps bs var alpha w
    = Ok (out,
          mkWorld (<[output_path := out]> (files w))
            (stdout w ++ ["Pattern applied to the sock and saved to " +:+ output_path])
            (rng w1))
    /\ over_base base (fst st1) mask out.
Proof.
  intros Hl Hmw Hmh Hwalk. unfold create_pattern.
  rewrite (bind_Ok _ _ _ _ _ (lift_Ok _ _ _ Hl)).
  rewrite (bind_Ok _ _ _ _ _ Hwalk).
  destruct (grid_walk_keeps _ _ _ _ _ _ _ _ _ _ Hwalk) as (Hx & Hy & Hf & Ho).
  destruct (composited base (fst st1) mask Hx Hy Hmw Hmh)
    as (out & Hover & Hrun).
  exists out. split; [|exact Hover].
  specialize (Hrun w1). unfold bind in Hrun |- *.
  destruct (lift (Image_new (size base) transparent) w1) as [[blank w2]| |];
    try discriminate.
  destruct (lift (composite _ blank mask) w2) as [[layer w3]| |];
    try discriminate.
  rewrite Hrun. unfold save, print, ret. simpl. by rewrite Hf, Ho.
Qed.

Lemma mask_layer_size (base_image pattern_image mask_image : picture) ps
    base pattern mask :
  pattern_layers base_image pattern_image mask_image ps
  = Ok (base, pattern, mask) ->
  width mask = width base /\ height mask = height base.
Proof.
  unfold pattern_layers.
  destruct (Image_convert_RGBA base_image) as [b| |]; try discriminate.
  cbn [rbind].
  destruct (Image_convert_RGBA pattern_image) as [p| |]; try discriminate.
  cbn [rbind].
  destruct (resize_RGBA p ps) as [p'| |]; try discriminate. cbn [rbind].
  destruct (Image_convert_L mask_image) as [m| |]; try discriminate.
  cbn [rbind].
  destruct (resize_L m (size b)) as [m'| |] eqn:Hm; try discriminate.
  cbn [rbind]. intros H. injection H as <- _ <-.
  exact (resize_L_size _ _ _ Hm).
Qed.

Lemma create_pattern_inv fuel (base_image pattern_image mask_image : picture)
    output_path ps bs var alpha w out w' :
  create_pattern fuel base_image pattern_image mask_image output_path
    ps bs var alpha w = Ok (out, w') ->
  exists base pattern mask st1 w1,
    pattern_layers base_image pattern_image mask_image ps
    = Ok (base, pattern, mask)
    /\ grid_walk fuel base pattern ps bs var alpha w = Ok (st1, w1)
    /\ w' = mkWorld (<[output_path := out]> (files w))
              (stdout w
               ++ ["Pattern applied to the sock and saved to " +:+ output_path])
              (rng w1)
    /\ over_base base (fst st1) mask out.
Proof.
  intros H.
  destruct (pattern_layers base_image pattern_image mask_image ps)
    as [[[base pattern] mask]| |] eqn:Hl;
    [| unfold create_pattern, bind at 1, lift at 1 in H; rewrite Hl in H;
       discriminate ..].
  destruct (grid_walk fuel base pattern ps bs var alpha w)
    as [[st1 w1]| |] eqn:Hwalk;
    [| unfold create_pattern in H;
       rewrite (bind_Ok _ _ _ _ _ (lift_Ok _ _ _ Hl)) in H;
       unfold bind at 1 in H; rewrite Hwalk in H; discriminate ..].
  destruct (mask_layer_size _ _ _ _ _ _ _ Hl) as [Hmw Hmh].
  destruct (create_pattern_run fuel base_image pattern_image mask_image
              output_path ps bs var alpha w base pattern mask st1 w1
              Hl Hmw Hmh Hwalk) as (out2 & H2 & Hover).
  rewrite H in H2. injection H2 as -> ->.
  exists base, pattern, mask, st1, w1.
  split; [reflexivity|]. split; [exact Hwalk|].
  split; [reflexivity | exact Hover].
Qed.

Lemma fuel_for_covers fuel base_size :
  (fuel_for base_size <= fuel)%nat -> fuel_covers fuel base_size.
Proof. unfold fuel_for, fuel_covers. lia. Qed.


Lemma create_pattern_Ok fuel (base_image pattern_image mask_image : AnyImage)
    output_path ps bs var alpha w :
  let base := convert_RGBA base_image in
  0 < width base -> 0 < height base -> 0 < fst ps -> 0 < snd ps ->
  point_accepts alpha ->
  stride_positive ps bs var -> jitter_nonempty var ->
  fuel_covers fuel (size base) ->
  exists out w',
    create_pattern fuel base_image pattern_image mask_image output_path
      ps bs var alpha w = Ok (out, w').
Proof.
  intros base Hw Hh Hpx Hpy Hu Hs Hv Hf.
  destruct (pattern_layers_Ok base_image pattern_image mask_image ps
              Hw Hh Hpx Hpy) as (pattern & mask & Hl).
  fold base in Hl.
  destruct (grid_walk_Ok fuel base pattern ps bs var alpha w Hu Hs Hv Hf)
    as (st1 & w1 & Hwalk).
  destruct (mask_layer_size _ _ _ _ _ _ _ Hl) as [Hmw Hmh].
  destruct (create_pattern_run fuel base_image pattern_image mask_image
              output_path ps bs var alpha w base pattern mask st1 w1
              Hl Hmw Hmh Hwalk) as (out & H & _).
  eauto.
Qed.

(** Every buffer [create_pattern] returns on loaded images: the base under
    the masked pattern layer. *)
Lemma create_pattern_sound fuel (base_image pattern_image mask_image : AnyImage)
    output_path ps bs var alpha w out w' :
  let base := convert_RGBA base_image in
  create_pattern fuel base_image pattern_image mask_image output_path
    ps bs var alpha w = Ok (out, w') ->
  exists pattern mask st1 w1,
    resize_RGBA (convert_RGBA pattern_image) ps = Ok pattern
    /\ resize_L (convert_L mask_image) (size base) = Ok mask
    /\ grid_walk fuel base pattern ps bs var alpha w = Ok (st1, w1)
    /\ w' = mkWorld (<[output_path := out]> (files w))
              (stdout w
               ++ ["Pattern applied to the sock and saved to " +:+ output_path])
              (rng w1)
    /\ over_base base (fst st1) mask out.
Proof.
  intros base H.
  destruct (create_pattern_inv _ _ _ _ _ _ _ _ _ _ _ _ H)
    as (b & pattern & mask & st1 & w1 & Hl & Hwalk & Hw' & Hover).
  destruct (pattern_layers_inv _ _ _ _ _ _ _ Hl) as (-> & Hp & Hm).
  exists pattern, mask, st1, w1.
  split; [exact Hp|]. split; [exact Hm|]. split; [exact Hwalk|].
  split; [exact Hw' | exact Hover].
Qed.
(** ** [border] *)

Lemma even_filter_size r : Z.even (2 * r + 1) = false.
Proof. rewrite Z.add_comm. rewrite Z.even_add_mul_2. reflexivity. Qed.

Lemma filter_size_margin r : 0 <= r -> ((2 * r + 1) / 2 <? 0) = false.
Proof. intros H. apply Z.ltb_ge. apply Z.div_pos; lia. Qed.

Lemma negative_filter_margin r : r < 0 -> ((2 * r + 1) / 2 <? 0) = true.
Proof.
  intros Hr. apply Z.ltb_lt. apply Z.div_lt_upper_bound; lia.
Qed.

(** The window of [MaxFilter(2r + 1)] fits a C [int] up to the radius
    11584. *)
Lemma filter_size_fits r :
  0 <= r ->
  (2 * r + 1 >? INT_MAX / (2 * r + 1))
  || (2 * r + 1 >? INT_MAX / ((2 * r + 1) * 4))
  = negb (r <=? MAX_RADIUS).
Proof.
  intros Hr. unfold INT_MAX, MAX_RADIUS. set (a := 2 * r + 1).
  destruct (r <=? 11584) eqn:E; cbn [negb].
  - apply Z.leb_le in E. apply orb_false_iff.
    split; rewrite Z.gtb_ltb; apply Z.ltb_ge.
    + apply Z.div_le_lower_bound; [lia|]. unfold a. nia.
    + apply Z.div_le_lower_bound; [lia|]. unfold a. nia.
  - apply Z.leb_gt in E. apply orb_true_iff. right.
    rewrite Z.gtb_ltb. apply Z.ltb_lt. apply Z.div_lt_upper_bound; [lia|].
    unfold a. nia.
Qed.

Lemma covered_offset {P} (dst : Image P) r sw sh i j :
  0 <= r -> width dst = sw + 2 * r -> height dst = sh + 2 * r ->
  0 <= i < sw -> 0 <= j < sh ->
  covered dst r r sw sh (r + i) (r + j) = true.
Proof.
  intros Hr Hw Hh Hi Hj. unfold covered, inside. rewrite Hw, Hh.
  repeat (apply andb_true_intro; split); lia.
Qed.

Lemma covered_centered {P} (dst : Image P) r sw sh x y :
  0 <= r -> 0 <= sw -> 0 <= sh ->
  width dst = sw + 2 * r -> height dst = sh + 2 * r ->
  covered dst r r sw sh x y
  = (r <=? x) && (x <? r + sw) && (r <=? y) && (y <? r + sh).
Proof.
  intros Hr Hsw Hsh Hw Hh. unfold covered, inside. rewrite Hw, Hh.
  apply Bool.eq_iff_eq_true.
  rewrite !andb_true_iff, !Z.leb_le, !Z.ltb_lt. lia.
Qed.

Lemma canvas_width {P} w r (f : Z -> Z -> P) h :
  0 <= w + 2 * r -> width (mkImage (Z.to_N (w + 2 * r)) h f) = w + 2 * r.
Proof. intros H. unfold width. simpl. lia. Qed.

Lemma canvas_height {P} w r (f : Z -> Z -> P) h :
  0 <= h + 2 * r -> height (mkImage w (Z.to_N (h + 2 * r)) f) = h + 2 * r.
Proof. intros H. unfold height. simpl. lia. Qed.

Lemma border_as_RGBA (img : AnyImage) r color w :
  border img r color w = border (ImRGBA (as_RGBA img)) r color w.
Proof. destruct img; reflexivity. Qed.

(** The run of [border] on a loaded "RGBA" image with [r >= 0]: the image
    stroked, and one line printed, unless the window of the filter is too
    large. *)
Lemma border_run (img : Image rgba) r color w :
  0 <= r ->
  border (ImRGBA img) r color w
  = if r <=? MAX_RADIUS
    then Ok (stroked img r color,
             mkWorld (files w) (stdout w ++ [border_message img r]) (rng w))
    else Raise ValueError.
Proof.
  intros Hr. unfold border. cbn [header is_RGBA any_size].
  pose proof (width_nonneg img) as Hw. pose proof (height_nonneg img) as Hh.
  unfold bind at 1. unfold lift at 1. cbn [header any_size].
  unfold bind at 1. unfold print at 1. cbn [size fst snd].
  assert (Hnew : forall P (c : P),
             Image_new (width img + 2 * r, height img + 2 * r) c
             = Ok (mkImage (Z.to_N (width img + 2 * r))
                     (Z.to_N (height img + 2 * r)) (fun _ _ => c)))
    by (intros; apply Image_new_ok; simpl; lia).
  rewrite (bind_Ok _ _ _ _ _ (lift_Ok _ _ _ (Hnew _ color))).
  unfold bind at 1. unfold lift at 1. cbn [Image_load_RGBA Image_load rbind].
  rewrite (bind_Ok _ _ _ _ _ (lift_Ok _ _ _ (point_binarize _))).
  rewrite (bind_Ok _ _ _ _ _ (lift_Ok _ _ _ (Hnew _ 0))).
  unfold filter_MaxFilter.
  rewrite even_filter_size, filter_size_margin, filter_size_fits by assumption.
  destruct (r <=? MAX_RADIUS); cbn [negb]; [|reflexivity].
  unfold bind at 1. unfold lift at 1.
  unfold putalpha. rewrite size_eqb_same by reflexivity.
  unfold bind at 1. unfold lift at 1.
  unfold paste_mask_RGBA. rewrite size_eqb_refl.
  unfold bind, lift, ret. reflexivity.
Qed.

Lemma stroked_size (img : Image rgba) r color :
  0 <= r ->
  width (stroked img r color) = width img + 2 * r
  /\ height (stroked img r color) = height img + 2 * r.
Proof.
  intros Hr.
  pose proof (width_nonneg img) as Hw. pose proof (height_nonneg img) as Hh.
  unfold stroked, width, height. simpl. unfold width, height in *. lia.
Qed.

(** The interior of the stroked image: the pixel of [img] blended, through
    its own alpha, over a pixel of the border colour. *)
Lemma stroked_interior (img : Image rgba) r color i j :
  0 <= r -> 0 <= i < width img -> 0 <= j < height img ->
  exists under,
    red under = red color /\ green under = green color
    /\ blue under = blue color
    /\ getpixel (stroked img r color) (r + i) (r + j)
       = blend_RGBA (getpixel img i j) under (getpixel img i j).
Proof.
  intros Hr Hi Hj.
  pose proof (width_nonneg img) as Hw. pose proof (height_nonneg img) as Hh.
  unfold stroked. cbn [getpixel].
  rewrite covered_offset; try assumption;
    [| apply canvas_width; lia | apply canvas_height; lia].
  replace (r + i - r) with i by lia. replace (r + j - r) with j by lia.
  eexists. split; [|split; [|split]]; [| | |reflexivity]; reflexivity.
Qed.


Lemma border_Ok (img : Image rgba) r color w :
  0 <= r -> r <= MAX_RADIUS ->
  border (ImRGBA img) r color w
  = Ok (stroked img r color,
        mkWorld (files w) (stdout w ++ [border_message img r]) (rng w)).
Proof.
  intros Hr Hmax. rewrite border_run by assumption.
  destruct (r <=? MAX_RADIUS) eqn:E; [reflexivity|lia].
Qed.

Lemma border_inv (img : Image rgba) r color w out w' :
  0 <= r ->
  border (ImRGBA img) r color w = Ok (out, w') ->
  r <= MAX_RADIUS
  /\ out = stroked img r color
  /\ w' = mkWorld (files w) (stdout w ++ [border_message img r]) (rng w).
Proof.
  intros Hr. rewrite border_run by assumption.
  destruct (r <=? MAX_RADIUS) eqn:E; [|discriminate].
  intros H. injection H as <- <-. repeat split. lia.
Qed.

(** With a negative radius [Image.new] or the filter raises. *)
Lemma border_negative (img : Image rgba) r color w :
  r < 0 -> border (ImRGBA img) r color w = Raise ValueError.
Proof.
  intros Hr. unfold border. cbn [header is_RGBA any_size].
  unfold bind at 1. unfold lift at 1. cbn [header any_size].
  unfold bind at 1. unfold print at 1. cbn [size fst snd].
  unfold bind at 1. unfold lift at 1.
  destruct (Image_new (width img + 2 * r, height img + 2 * r) color)
    as [canvas| |] eqn:Hnew.
  - unfold Image_new in Hnew.
    destruct ((_ <? 0) || (_ <? 0)) eqn:Hneg; [discriminate|].
    unfold bind at 1. unfold lift at 1. cbn [Image_load_RGBA Image_load rbind].
    rewrite (bind_Ok _ _ _ _ _ (lift_Ok _ _ _ (point_binarize _))).
    unfold bind at 1. unfold lift at 1. unfold Image_new at 1. rewrite Hneg.
    unfold bind at 1. unfold lift at 1. unfold filter_MaxFilter.
    rewrite negative_filter_margin by assumption. reflexivity.
  - unfold Image_new in Hnew.
    destruct ((_ <? 0) || (_ <? 0)); [|discriminate].
    injection Hnew as <-. reflexivity.
  - unfold Image_new in Hnew.
    destruct ((_ <? 0) || (_ <? 0)); discriminate.
Qed.

(** ** The grid without jitter *)

Lemma walk_rows_fixed fuel pattern alpha base_size ps bs x :
  point_accepts alpha ->
  0 < ps + bs ->
  forall y st w,
    snd base_size - y < Z.of_nat fuel ->
    exists layer' w',
      walk_rows fuel pattern alpha base_size ps bs 0 x y st w
      = Ok ((layer',
             snd st ++ map (pair x)
                         (cursor_positions fuel y (ps + bs) (snd base_size))),
            w').
Proof.
  intros Hu Hstride.
  induction fuel as [|fuel IH]; intros y st w Hfuel;
    cbn [walk_rows cursor_positions];
    destruct (y <? snd base_size) eqn:Hy; try lia;
    try (exists (fst st), w; simpl; rewrite app_nil_r; by destruct st).
  destruct (stamp_Ok pattern alpha base_size x y (fst st) w Hu)
    as (layer' & w1 & Hs & _).
  rewrite (bind_Ok _ _ _ _ _ Hs).
  change (- 0) with 0.
  rewrite (bind_Ok _ _ _ _ _ (randint_point 0 w1)).
  rewrite Z.add_0_r.
  edestruct (IH (y + (ps + bs)) (layer', snd st ++ [(x, y)])) as (l2 & w2 & H2);
    [lia|].
  rewrite H2. exists l2, w2. simpl. by rewrite <- app_assoc.
Qed.

Lemma walk_columns_fixed fuel fuel_rows pattern alpha base_size ps bs :
  point_accepts alpha ->
  0 < fst ps + fst bs -> 0 < snd ps + snd bs ->
  snd base_size < Z.of_nat fuel_rows ->
  forall x st w,
    fst base_size - x < Z.of_nat fuel ->
    exists layer' w',
      walk_columns fuel fuel_rows pattern alpha base_size ps bs (0, 0) x st w
      = Ok ((layer',
             snd st ++
               flat_map
                 (fun x => map (pair x)
                             (cursor_positions fuel_rows 0 (snd ps + snd bs)
                                (snd base_size)))
                 (cursor_positions fuel x (fst ps + fst bs) (fst base_size))),
            w').
Proof.
  intros Hu Hsx Hsy Hrows.
  induction fuel as [|fuel IH]; intros x st w Hfuel;
    cbn [walk_columns cursor_positions];
    destruct (x <? fst base_size) eqn:Hx; try lia;
    try (exists (fst st), w; simpl; rewrite app_nil_r; by destruct st).
  simpl fst. simpl snd.
  destruct (walk_rows_fixed fuel_rows pattern alpha base_size (snd ps) (snd bs)
              x Hu Hsy 0 st w) as (l1 & w1 & H1); [lia|].
  rewrite (bind_Ok _ _ _ _ _ H1).
  change (- 0) with 0.
  rewrite (bind_Ok _ _ _ _ _ (randint_point 0 w1)).
  rewrite Z.add_0_r.
  edestruct (IH (x + (fst ps + fst bs))
               (l1, snd st ++ map (pair x)
                                (cursor_positions fuel_rows 0 (snd ps + snd bs)
                                   (snd base_size))))
    as (l2 & w2 & H2); [lia|].
  rewrite H2. exists l2, w2. simpl. by rewrite <- app_assoc.
Qed.

Lemma grid_walk_fixed fuel base pattern ps bs alpha w :
  point_accepts alpha ->
  0 < fst ps + fst bs -> 0 < snd ps + snd bs ->
  fuel_covers fuel (size base) ->
  exists layer' w',
    grid_walk fuel base pattern ps bs (0, 0) alpha w
    = Ok ((layer',
           grid_points fuel (fst ps + fst bs, snd ps + snd bs) (size base)),
          w').
Proof.
  intros Hu Hsx Hsy [Hfx Hfy]. unfold grid_walk.
  rewrite (bind_Ok _ _ _ _ _ (lift_Ok _ _ _ (Image_new_size _ _))).
  edestruct walk_columns_fixed as (l & w' & H);
    [exact Hu|exact Hsx|exact Hsy|exact Hfy| |].
  2: { rewrite H. exists l, w'. reflexivity. }
  lia.
Qed.

(** ** The boundary test *)

Lemma walk_rows_unchecked_eq fuel pattern alpha base_size ps bs var x :
  forall y st w,
    walk_rows fuel pattern alpha base_size ps bs var x y st w
    = walk_rows_unchecked fuel pattern alpha base_size ps bs var x y st w.
Proof.
  induction fuel as [|fuel IH]; intros y st w;
    cbn [walk_rows walk_rows_unchecked];
    destruct (y <? snd base_size); try reflexivity.
  unfold bind at 1 3. rewrite stamp_unchecked_eq.
  destruct (stamp_unchecked _ _ _ _ _ _ _) as [[layer' w1]| |]; try reflexivity.
  apply bind_ext. intros d w2. apply IH.
Qed.

Lemma walk_columns_unchecked_eq fuel fuel_rows pattern alpha base_size ps bs var :
  forall x st w,
    walk_columns fuel fuel_rows pattern alpha base_size ps bs var x st w
    = walk_columns_unchecked fuel fuel_rows pattern alpha base_size ps bs var
        x st w.
Proof.
  induction fuel as [|fuel IH]; intros x st w;
    cbn [walk_columns walk_columns_unchecked];
    destruct (x <? fst base_size); try reflexivity.
  unfold bind at 1 3. rewrite walk_rows_unchecked_eq.
  destruct (walk_rows_unchecked _ _ _ _ _ _ _ _ _ _ _) as [[st1 w1]| |];
    try reflexivity.
  apply bind_ext. intros d w2. apply IH.
Qed.

Lemma grid_walk_unchecked_eq fuel base pattern ps bs var alpha w :
  grid_walk fuel base pattern ps bs var alpha w
  = grid_walk_unchecked fuel base pattern ps bs var alpha w.
Proof.
  unfold grid_walk, grid_walk_unchecked. apply bind_ext.
  intros layer w'. apply walk_columns_unchecked_eq.
Qed.
(** ** The masked layer over a base *)


Lemma BLEND_byte m a b : byte (BLEND m a b).
Proof.
  unfold BLEND, UINT8, byte.
  pose proof (Z.mod_pos_bound (DIV255 (a * (255 - m) + b * m)) 256). lia.
Qed.

Lemma alpha_over_opaque dst src :
  alpha_of dst = 255 -> byte (alpha_of src) ->
  alpha_of (alpha_composite_px dst src) = 255.
Proof.
  intros Hd Hs. unfold alpha_composite_px.
  destruct (alpha_of src =? 0); [exact Hd|]. cbn [alpha_of]. rewrite Hd.
  assert (H : all_below 256
                (fun a =>
                   UINT8 (SHIFTFORDIV255
                            (UINT32 (UINT32 (a * 255 + UINT32 (255 * (255 - a)))
                                     + 128))) =? 255) = true)
    by (vm_compute; reflexivity).
  apply Z.eqb_eq. apply (all_below_spec _ _ _ H). unfold byte in Hs. lia.
Qed.

Lemma over_base_opaque base top mask out x y :
  over_base base top mask out ->
  alpha_of (getpixel base x y) = 255 ->
  alpha_of (getpixel out x y) = 255.
Proof.
  intros (_ & _ & Hpx) Hb. destruct (Hpx x y) as (lay & -> & Hlay).
  apply alpha_over_opaque; [exact Hb|].
  destruct Hlay as [->| ->].
  - unfold byte. simpl. lia.
  - unfold blend_L. cbn [alpha_of]. apply BLEND_byte.
Qed.


(** ** Walks that raise or that make no progress *)









(** ** The cells of the grid *)

Lemma walk_rows_log fuel pattern alpha base_size ps bs var x :
  forall y st w st' w',
    walk_rows fuel pattern alpha base_size ps bs var x y st w = Ok (st', w') ->
    exists new,
      snd st' = snd st ++ new
      /\ (forall p, In p new ->
            fst p = x /\ snd p < snd base_size
            /\ (0 < ps + bs - var -> y <= snd p))
      /\ (y < snd base_size -> exists rest, new = (x, y) :: rest).
Proof.
  induction fuel as [|fuel IH]; intros y st w st' w'; cbn [walk_rows];
    destruct (y <? snd base_size) eqn:E; try discriminate;
    try (intros H; injection H as <- _; exists [];
         split; [by rewrite app_nil_r|];
         split; [intros p []|intros; lia]).
  unfold bind at 1.
  destruct (stamp pattern alpha base_size x y (fst st) w)
    as [[layer' w1]| |] eqn:Hs; try discriminate.
  unfold bind at 1.
  destruct (randint (- var) var w1) as [[d w2]| |] eqn:Hr; try discriminate.
  apply randint_range in Hr.
  intros H. apply IH in H. destruct H as (new & Hlog & Hall & _).
  exists ((x, y) :: new). cbn [snd] in Hlog.
  split; [by rewrite Hlog, <- app_assoc|].
  split; [|intros _; by exists new].
  intros p [<-|Hp]; [cbn [fst snd]; repeat split; lia|].
  destruct (Hall p Hp) as (Hp1 & Hp2 & Hp3).
  repeat split; try assumption. intros Hpos. specialize (Hp3 Hpos). lia.
Qed.

Lemma walk_columns_log fuel fuel_rows pattern alpha base_size ps bs var :
  forall x st w st' w',
    walk_columns fuel fuel_rows pattern alpha base_size ps bs var x st w
    = Ok (st', w') ->
    exists new,
      snd st' = snd st ++ new
      /\ (forall p, In p new ->
            fst p < fst base_size /\ snd p < snd base_size
            /\ (stride_positive ps bs var -> x <= fst p /\ 0 <= snd p))
      /\ (x < fst base_size -> 0 < snd base_size ->
          exists rest, new = (x, 0) :: rest).
Proof.
  induction fuel as [|fuel IH]; intros x st w st' w'; cbn [walk_columns];
    destruct (x <? fst base_size) eqn:E; try discriminate;
    try (intros H; injection H as <- _; exists [];
         split; [by rewrite app_nil_r|];
         split; [intros p []|intros; lia]).
  unfold bind at 1.
  destruct (walk_rows fuel_rows pattern alpha base_size (snd ps) (snd bs)
              (snd var) x 0 st w) as [[st1 w1]| |] eqn:Hrows;
    try discriminate.
  apply walk_rows_log in Hrows. destruct Hrows as (col & Hcol & Hcolall & Hhead).
  unfold bind at 1.
  destruct (randint (- fst var) (fst var) w1) as [[d w2]| |] eqn:Hr;
    try discriminate.
  apply randint_range in Hr.
  intros H. apply IH in H. destruct H as (new & Hlog & Hall & _).
  exists (col ++ new).
  split; [by rewrite Hlog, Hcol, <- app_assoc|].
  split.
  - intros p Hp. apply in_app_or in Hp. destruct Hp as [Hp|Hp].
    + destruct (Hcolall p Hp) as (Hp1 & Hp2 & Hp3).
      rewrite Hp1. repeat split; try lia.
      destruct H as [_ Hsy]. apply Hp3. exact Hsy.
    + destruct (Hall p Hp) as (Hp1 & Hp2 & Hp3).
      repeat split; try assumption;
        destruct (Hp3 H) as [Hq1 Hq2]; destruct H as [Hsx _]; lia.
  - intros _ HH. destruct (Hhead HH) as (rest & ->).
    exists (rest ++ new). reflexivity.
Qed.

(** ** Dilation of the silhouette *)

Lemma in_window m i : 0 <= m -> In i (window m) <-> - m <= i <= m.
Proof.
  intros Hm. unfold window. rewrite in_map_iff. split.
  - intros (k & <- & Hk). apply in_seq in Hk. lia.
  - intros Hi. exists (Z.to_nat (i + m)). split; [lia|]. apply in_seq. lia.
Qed.

Lemma fold_max_upper (l : list Z) b :
  0 <= b -> (forall v, In v l -> v <= b) -> fold_right Z.max 0 l <= b.
Proof.
  intros Hb. induction l as [|a l IH]; intros H; simpl; [lia|].
  assert (a <= b) by (apply H; by left).
  assert (fold_right Z.max 0 l <= b) by (apply IH; intros v Hv; apply H; by right).
  lia.
Qed.

Lemma fold_max_lower (l : list Z) v : In v l -> v <= fold_right Z.max 0 l.
Proof.
  induction l as [|a l IH]; intros H; simpl; [destruct H|].
  destruct H as [->|H]; [lia|]. specialize (IH H). lia.
Qed.

Lemma fold_max_zero (l : list Z) :
  (forall v, In v l -> v = 0) -> fold_right Z.max 0 l = 0.
Proof.
  induction l as [|a l IH]; intros H; simpl; [reflexivity|].
  rewrite IH by (intros v Hv; apply H; by right).
  rewrite (H a) by (by left). reflexivity.
Qed.

Lemma lut_binarize v : lut binarize v = if v >? 0 then 255 else 0.
Proof. unfold lut, binarize. destruct (v >? 0); reflexivity. Qed.

Lemma filter_margin r : 0 <= r -> (2 * r + 1) / 2 = r.
Proof.
  intros Hr. replace (2 * r + 1) with (1 + r * 2) by lia.
  rewrite Z.div_add by lia. reflexivity.
Qed.

(** A pixel of the silhouette is 255 on the footprint of a pixel of [img]
    that is not fully transparent, and 0 elsewhere. *)
Lemma silhouette_px (img : Image rgba) r x y :
  0 <= r ->
  getpixel (silhouette img r) x y
  = if (r <=? x) && (x <? r + width img) && (r <=? y) && (y <? r + height img)
       && (alpha_of (getpixel img (x - r) (y - r)) >? 0)
    then 255 else 0.
Proof.
  intros Hr.
  pose proof (width_nonneg img) as Hw. pose proof (height_nonneg img) as Hh.
  change (getpixel (silhouette img r) x y)
    with (if covered
               (mkImage (Z.to_N (width img + 2 * r))
                  (Z.to_N (height img + 2 * r)) (fun _ _ : Z => 0))
               r r (width img) (height img) x y
          then lut binarize (alpha_of (getpixel img (x - r) (y - r)))
          else 0).
  rewrite covered_centered;
    [| assumption | assumption | assumption
     | apply canvas_width; lia | apply canvas_height; lia].
  rewrite lut_binarize.
  destruct ((r <=? x) && (x <? r + width img) && (r <=? y)
            && (y <? r + height img)); cbn [andb]; [|reflexivity].
  reflexivity.
Qed.

Lemma dilated_inside (img : Image rgba) r x y :
  0 <= r ->
  inside (dilated img r) x y = true ->
  0 <= x < width img + 2 * r /\ 0 <= y < height img + 2 * r.
Proof.
  intros Hr. unfold inside.
  pose proof (width_nonneg img). pose proof (height_nonneg img).
  assert (HW : width (dilated img r) = width img + 2 * r)
    by (apply canvas_width; lia).
  assert (HH : height (dilated img r) = height img + 2 * r)
    by (apply canvas_height; lia).
  rewrite HW, HH.
  rewrite !andb_true_iff, !Z.leb_le, !Z.ltb_lt. lia.
Qed.
(** ** [main] *)

Lemma in_unit_texture : in_unit alpha_texture.
Proof. vm_compute. split; discriminate. Qed.

Lemma in_unit_pattern : in_unit alpha_pattern.
Proof. vm_compute. split; discriminate. Qed.

Lemma border_damaged h r color w :
  0 <= r -> border (Damaged h) r color w = Raise OSError.
Proof.
  intros Hr. unfold border. destruct h as [i|i|i]; try reflexivity.
  cbn [header is_RGBA any_size].
  pose proof (width_nonneg i) as Hw. pose proof (height_nonneg i) as Hh.
  unfold bind at 1. unfold lift at 1. cbn [header any_size].
  unfold bind at 1. unfold print at 1. cbn [size fst snd].
  assert (Hnew : Image_new (width i + 2 * r, height i + 2 * r) color
                 = Ok (mkImage (Z.to_N (width i + 2 * r))
                         (Z.to_N (height i + 2 * r)) (fun _ _ => color)))
    by (apply Image_new_ok; simpl; lia).
  rewrite (bind_Ok _ _ _ _ _ (lift_Ok _ _ _ Hnew)).
  reflexivity.
Qed.

Lemma isfile_true disk path : isfile disk path = true <-> is_Some (disk !! path).
Proof.
  unfold isfile. destruct (disk !! path); split; intros H;
    try reflexivity; try discriminate; [by eexists | by destruct H].
Qed.

Lemma first_missing_Some disk paths path :
  first_missing disk paths = Some path ->
  exists before after,
    paths = before ++ path :: after
    /\ (forall q, In q before -> is_Some (disk !! q))
    /\ disk !! path = None.
Proof.
  induction paths as [|p rest IH]; simpl; [discriminate|].
  destruct (isfile disk p) eqn:E.
  - intros H. destruct (IH H) as (before & after & -> & Hb & Hp).
    exists (p :: before), after. split; [reflexivity|]. split; [|exact Hp].
    intros q [<-|Hq]; [by apply isfile_true | by apply Hb].
  - intros H. injection H as <-. exists [], rest.
    split; [reflexivity|]. split; [intros q []|].
    unfold isfile in E. by destruct (disk !! p).
Qed.

Lemma first_missing_None disk paths :
  first_missing disk paths = None <->
  forall q, In q paths -> is_Some (disk !! q).
Proof.
  induction paths as [|p rest IH]; simpl.
  - split; [intros _ q []|reflexivity].
  - destruct (isfile disk p) eqn:E.
    + rewrite IH. split.
      * intros H q [<-|Hq]; [by apply isfile_true | by apply H].
      * intros H q Hq. apply H. by right.
    + split; [discriminate|]. intros H.
      assert (Hp : is_Some (disk !! p)) by (apply H; by left).
      apply isfile_true in Hp. congruence.
Qed.

(** What opens is a file. *)
Lemma Image_open_file disk path p :
  Image_open disk path = inr p -> is_Some (disk !! path).
Proof.
  unfold Image_open. destruct (disk !! path); [by eexists | discriminate].
Qed.

(** What opens is not empty. *)
Lemma Image_open_nonempty disk path p :
  Image_open disk path = inr p ->
  0 < width (convert_RGBA (header p)) /\ 0 < height (convert_RGBA (header p)).
Proof.
  unfold Image_open. destruct (disk !! path) as [[why|im|h]|]; try discriminate.
  - destruct (nonempty im) eqn:E; [|discriminate]. intros H. injection H as <-.
    unfold nonempty in E. rewrite any_size_convert in E. cbn [header].
    apply andb_true_iff in E. cbn [size fst snd] in E.
    rewrite !Z.ltb_lt in E. exact E.
  - destruct (nonempty h) eqn:E; [|discriminate]. intros H. injection H as <-.
    unfold nonempty in E. rewrite any_size_convert in E. cbn [header].
    apply andb_true_iff in E. cbn [size fst snd] in E.
    rewrite !Z.ltb_lt in E. exact E.
Qed.

Lemma all_open_files disk :
  all_open disk -> first_missing disk input_paths = None.
Proof.
  intros H. apply first_missing_None. intros q Hq.
  destruct (H q Hq) as (p & Hp). by apply Image_open_file in Hp.
Qed.

(** The pipeline of [main] on four decoded pictures, the sock not empty. *)
Lemma pipeline_Ok fuel (sock texture dog mask : AnyImage) w :
  let base := convert_RGBA sock in
  0 < width base -> 0 < height base ->
  (fuel_for (size base) <= fuel)%nat ->
  exists textured bordered patterned sock_mask g,
    resize_L (convert_L mask) (size base) = Ok sock_mask
    /\ pipeline fuel sock texture dog mask w
       = Ok (tt, mkWorld (main_files textured bordered patterned (files w))
                   (stdout w ++ main_output dog) g)
    /\ size textured = size base
    /\ size bordered = (width (as_RGBA dog) + 20, height (as_RGBA dog) + 20)
    /\ size patterned = size base
    /\ (forall x y, getpixel sock_mask x y = 0 ->
          getpixel textured x y = getpixel base x y
          /\ getpixel patterned x y = getpixel base x y).
Proof.
  intros base HW HH Hfuel. unfold pipeline.
  destruct (apply_texture_Ok sock texture mask textured_sock_path
              (Float (float_lit 6 10)) w HW HH
              (in_unit_accepted _ in_unit_texture))
    as (textured & w1 & H1).
  destruct (apply_texture_inv _ _ _ _ _ _ _ _ H1)
    as (resized & sock_mask & _ & Hmask & -> & Hover1).
  fold base in Hmask, Hover1.
  rewrite (bind_Ok _ _ _ _ _ H1).
  unfold bind at 1. rewrite border_as_RGBA.
  rewrite border_Ok by (unfold MAX_RADIUS; lia).
  destruct (stroked_size (as_RGBA dog) 10 (Rgba 255 255 255 255)) as [Hbw Hbh];
    [lia|].
  set (bordered := stroked (as_RGBA dog) 10 (Rgba 255 255 255 255)) in *.
  unfold bind at 1. unfold save at 1. cbn [files stdout rng].
  destruct (over_base_size _ _ _ _ Hover1) as [Htw Hth].
  assert (Hbase : size (convert_RGBA (ImRGBA textured)) = size base)
    by (unfold size;
        change (width (convert_RGBA (ImRGBA textured))) with (width textured);
        change (height (convert_RGBA (ImRGBA textured)))
          with (height textured);
        by rewrite Htw, Hth).
  unfold bind at 1.
  match goal with
  | |- context [create_pattern ?f ?b ?p ?m ?o ?ps ?bs ?v ?a ?w3] =>
      destruct (create_pattern_Ok f (ImRGBA textured) (ImRGBA bordered) mask
                  o ps bs v a w3)
        as (patterned & w4 & H3);
        [ change (0 < width textured); lia
        | change (0 < height textured); lia
        | simpl; lia | simpl; lia
        | exact (in_unit_accepted _ in_unit_pattern)
        | unfold stride_positive; simpl; lia
        | unfold jitter_nonempty; simpl; lia
        | apply fuel_for_covers; by rewrite Hbase
        | ]
  end.
  rewrite H3.
  destruct (create_pattern_sound _ _ _ _ _ _ _ _ _ _ _ _ H3)
    as (pattern & mask2 & st1 & w5 & _ & Hmask2 & _ & -> & Hover2).
  rewrite Hbase, Hmask in Hmask2. injection Hmask2 as <-.
  destruct (over_base_size _ _ _ _ Hover2) as [Hpw Hph].
  change (width patterned = width textured) in Hpw.
  change (height patterned = height textured) in Hph.
  unfold bind, save, print. cbn [files stdout rng].
  exists textured, bordered, patterned, sock_mask, (rng w5).
  split; [exact Hmask|].
  split.
  { unfold main_files, main_output, textured_sock_path, patterned_sock_path,
      final_sock_path. rewrite <- !app_assoc. reflexivity. }
  split; [unfold size; by rewrite Htw, Hth|].
  split; [unfold size; by rewrite Hbw, Hbh|].
  split; [unfold size; by rewrite Hpw, Hph, Htw, Hth|].
  intros x y Hm.
  assert (Ht : getpixel textured x y = getpixel base x y)
    by (by apply (over_base_gated _ _ _ _ _ _ Hover1)).
  split; [exact Ht|].
  rewrite (over_base_gated _ _ _ _ _ _ Hover2 Hm). exact Ht.
Qed.

(** A picture whose data is damaged stops the pipeline with [OSError]. *)
Lemma pipeline_damaged fuel (sock texture dog mask : picture) w :
  0 < width (convert_RGBA (header sock)) ->
  0 < height (convert_RGBA (header sock)) ->
  (exists h, sock = Damaged h \/ texture = Damaged h \/ dog = Damaged h
             \/ mask = Damaged h) ->
  pipeline fuel sock texture dog mask w = Raise OSError.
Proof.
  intros HW HH Hd.
  destruct sock as [sock|hs]; [|reflexivity].
  destruct texture as [texture|ht]; [|reflexivity].
  cbn [header] in HW, HH.
  destruct (resize_RGBA_Ok (convert_RGBA texture) (size (convert_RGBA sock)))
    as (resized & Hr); [exact HW|exact HH|].
  destruct mask as [mask|hm].
  2: { unfold pipeline, apply_texture, texture_layers.
       cbn [Image_convert_RGBA Image_convert_L Image_load rbind].
       rewrite Hr. reflexivity. }
  destruct dog as [dog|hd].
  { destruct Hd as (h & [H|[H|[H|H]]]); discriminate H. }
  unfold pipeline.
  destruct (apply_texture_Ok sock texture mask textured_sock_path
              (Float (float_lit 6 10)) w HW HH
              (in_unit_accepted _ in_unit_texture))
    as (textured & w1 & H1).
  rewrite (bind_Ok _ _ _ _ _ H1).
  unfold bind at 1. by rewrite border_damaged by lia.
Qed.

Lemma main_on_open fuel disk sock texture dog mask w :
  Image_open disk sock_path = inr sock ->
  Image_open disk texture_path = inr texture ->
  Image_open disk dog_path = inr dog ->
  Image_open disk mask_path = inr mask ->
  main fuel disk w = pipeline fuel sock texture dog mask w.
Proof.
  intros H1 H2 H3 H4. unfold main.
  assert (Hall : first_missing disk input_paths = None).
  { apply first_missing_None. simpl.
    intros q [<-|[<-|[<-|[<-|[]]]]]; eapply Image_open_file; eassumption. }
  by rewrite Hall, H1, H2, H3, H4.
Qed.
(** ** [apply_texture] on image objects *)











(** ** The properties of the specification *)

(** C1 (border growth): for every RGBA image [img], every radius [r >= 0]
    and every colour, the buffer returned by [border(img, r, color)] has
    width [img.width + 2*r] and height [img.height + 2*r]; and a buffer is
    returned for every radius up to 11584, the largest whose window
    [MaxFilter] accepts. *)
Theorem border_growth (img : Image rgba) (r : Z) (color : rgba) (w : world) :
  0 <= r ->
  (forall out w',
      border (ImRGBA img) r color w = Ok (out, w') ->
      width out = width img + 2 * r /\ height out = height img + 2 * r)
  /\ (r <= MAX_RADIUS ->
      exists out w',
        border (ImRGBA img) r color w = Ok (out, w')
        /\ width out = width img + 2 * r
        /\ height out = height img + 2 * r).
Proof.
  intros Hr. split.
  - intros out w' H.
    destruct (border_inv img r color w out w' Hr H) as (_ & -> & _).
    by apply stroked_size.
  - intros Hmax. exists (stroked img r color). eexists.
    split; [by apply border_Ok|]. by apply stroked_size.
Qed.



(** C4 (alpha of the texture layer): with [alpha] in [0, 1], the texture
    that lines 17-27 hand to compositing has, at every pixel, the colour
    bands of the resized texture darkened by the factor 0.7 (the byte
    [7 * v / 10] of a byte [v]) and, as alpha band, the original alpha of the
    resized texture multiplied by [alpha]: the binary64 product as [round]
    makes it an integer, a byte within [1/2 + 2^-42] of the exact product,
    and the product itself whenever that is an integer.  The brightness step
    leaves the alpha band as it was.  On a base that is not empty lines
    17-27 do hand over such a texture. *)
Theorem texture_alpha_scaled
    (base_image texture_image mask_image : AnyImage) (alpha : number) :
  in_unit alpha ->
  let base := convert_RGBA base_image in
  (0 < width base -> 0 < height base ->
   exists texture mask,
     texture_layers base_image texture_image mask_image alpha
     = Ok (base, texture, mask))
  /\ forall b texture mask,
       texture_layers base_image texture_image mask_image alpha
       = Ok (b, texture, mask) ->
       exists original,
         resize_RGBA (convert_RGBA texture_image) (size base) = Ok original
         /\ forall x y,
              byte_px (getpixel original x y) ->
              let a := alpha_of (getpixel original x y) in
              let a' := alpha_of (getpixel texture x y) in
              a' = rounded (scale_alpha alpha a)
              /\ byte a'
              /\ (inject_Z a' - inject_Z a * number_value alpha
                  <= (1 # 2) + 2 ^ (-42))%Q
              /\ (inject_Z a * number_value alpha - inject_Z a'
                  <= (1 # 2) + 2 ^ (-42))%Q
              /\ (forall n,
                     (inject_Z a * number_value alpha == inject_Z n)%Q ->
                     a' = n)
              /\ red (getpixel texture x y)
                 = 7 * red (getpixel original x y) / 10
              /\ green (getpixel texture x y)
                 = 7 * green (getpixel original x y) / 10
              /\ blue (getpixel texture x y)
                 = 7 * blue (getpixel original x y) / 10.
Proof.
  intros Hu base. split.
  - intros HW HH.
    destruct (resize_RGBA_Ok (convert_RGBA texture_image) (size base))
      as (resized & Hr); [exact HW|exact HH|].
    destruct (resize_L_Ok (convert_L mask_image) (size base))
      as (mask & Hm); [exact HW|exact HH|].
    destruct (lut_table_scale alpha Hu) as (table & Ht).
    rewrite (texture_layers_run base_image texture_image mask_image alpha
               resized mask Hr Hm).
    fold base. rewrite Ht. cbn [rbind]. eauto.
  - intros b texture mask H.
    destruct (texture_layers_inv _ _ _ _ _ _ _ H)
      as (original & Hr & _ & _ & ->).
    exists original. split; [exact Hr|].
    intros x y (Hred & Hgreen & Hblue & Ha) a a'. subst a a'.
    cbn [getpixel]. unfold prepared_px. cbn [alpha_of red green blue].
    rewrite blend_band_same by exact Ha.
    rewrite !blend_band_darkens by assumption.
    destruct (lut_scale_alpha alpha _ Hu Ha) as (H1 & H2 & H3 & H4 & H5).
    split; [exact H1|]. split; [exact H2|]. split; [exact H3|].
    split; [exact H4|]. split; [exact H5|].
    split; [reflexivity|]. split; reflexivity.
Qed.

(** C5, as amended (interior of the border): for every RGBA image [img],
    radius [r >= 0] and colour, in the buffer returned by
    [border(img, r, color)] every pixel of the sub-region at offset [(r, r)]
    whose [img] pixel is fully opaque (alpha = 255) is equal to that [img]
    pixel; a buffer is returned for every radius up to 11584. *)
Theorem border_interior_opaque (img : Image rgba) (r : Z) (color : rgba)
    (w : world) :
  0 <= r ->
  (forall out w',
      border (ImRGBA img) r color w = Ok (out, w') ->
      forall i j,
        0 <= i < width img -> 0 <= j < height img ->
        byte_px (getpixel img i j) ->
        alpha_of (getpixel img i j) = 255 ->
        getpixel out (r + i) (r + j) = getpixel img i j)
  /\ (r <= MAX_RADIUS ->
      exists out w', border (ImRGBA img) r color w = Ok (out, w')).
Proof.
  intros Hr. split.
  - intros out w' H i j Hi Hj Hb Ha.
    destruct (border_inv img r color w out w' Hr H) as (_ & -> & _).
    destruct (stroked_interior img r color i j Hr Hi Hj)
      as (under & _ & _ & _ & ->).
    by apply blend_RGBA_opaque.
  - intros Hmax. do 2 eexists. by apply border_Ok.
Qed.

(** C6 (grid coverage): on a 500 x 500 base with [pattern_size=(100,100)],
    [base_spacing=(50,50)] and [spacing_variation=(0,0)], the walk of
    [create_pattern] visits exactly the grid points [(x, y)] with [x] and
    [y] in [{0, 150, 300, 450}], whatever the random source draws and
    whatever the rotation, for every [alpha] that [point] accepts: lines
    50-52 prepare the layers, and the cursors start at 0 and advance by 150
    while below 500. *)
Theorem grid_coverage (base_image pattern_image mask_image : AnyImage)
    (alpha : number) (fuel : nat) (w : world) :
  width (convert_RGBA base_image) = 500 ->
  height (convert_RGBA base_image) = 500 ->
  point_accepts alpha ->
  (fuel_for (500%Z, 500%Z) <= fuel)%nat ->
  exists pattern mask pattern_layer visited w',
    pattern_layers base_image pattern_image mask_image (100, 100)
    = Ok (convert_RGBA base_image, pattern, mask)
    /\ grid_walk fuel (convert_RGBA base_image) pattern
         (100, 100) (50, 50) (0, 0) alpha w
       = Ok ((pattern_layer, visited), w')
    /\ visited
       = [(0, 0); (0, 150); (0, 300); (0, 450);
          (150, 0); (150, 150); (150, 300); (150, 450);
          (300, 0); (300, 150); (300, 300); (300, 450);
          (450, 0); (450, 150); (450, 300); (450, 450)]
    /\ forall x y,
         In (x, y) visited
         <-> In x [0; 150; 300; 450] /\ In y [0; 150; 300; 450].
Proof.
  intros Hw Hh Hu Hfuel.
  destruct (pattern_layers_Ok base_image pattern_image mask_image (100, 100))
    as (pattern & mask & Hl); [lia|lia|simpl; lia|simpl; lia|].
  destruct (grid_walk_fixed fuel (convert_RGBA base_image) pattern
              (100, 100) (50, 50) alpha w Hu)
    as (layer & w' & H); [simpl; lia | simpl; lia | |].
  { apply fuel_for_covers. unfold size. by rewrite Hw, Hh. }
  unfold size in H. rewrite Hw, Hh in H.
  assert (Hgrid : grid_points fuel (100 + 50, 100 + 50) (500, 500)
                  = [(0, 0); (0, 150); (0, 300); (0, 450);
                     (150, 0); (150, 150); (150, 300); (150, 450);
                     (300, 0); (300, 150); (300, 300); (300, 450);
                     (450, 0); (450, 150); (450, 300); (450, 450)]).
  { unfold fuel_for in Hfuel. simpl in Hfuel.
    destruct fuel as [|[|[|[|[|n]]]]]; try lia. reflexivity. }
  simpl fst in H. simpl snd in H. rewrite Hgrid in H.
  exists pattern, mask. do 3 eexists.
  split; [exact Hl|]. split; [exact H|]. split; [reflexivity|].
  intros x y. simpl. split.
  - intros Hin.
    repeat (destruct Hin as [Hin|Hin]; [injection Hin as <- <-; auto 10|]).
    destruct Hin.
  - intros [Hx Hy].
    repeat (destruct Hx as [<-|Hx]);
      repeat (destruct Hy as [<-|Hy]); auto 20; contradiction.
Qed.

(** C7 (the boundary test is dead code): for every input and every random
    draw, [create_pattern] gives the result of the same function with the
    boundary test removed; and a cell never skips: whenever the cell is
    stamped, the rotated tile is pasted at its computed origin, by a paste
    that keeps the size of the layer whatever part of the tile falls
    outside, and the cell is stamped for every [alpha] that [point]
    accepts. *)
Theorem boundary_check_dead (fuel : nat)
    (base_image pattern_image mask_image : picture) (output_path : string)
    (pattern_size base_spacing spacing_variation : Z * Z) (alpha : number)
    (w : world) :
  create_pattern fuel base_image pattern_image mask_image output_path
    pattern_size base_spacing spacing_variation alpha w
  = create_pattern_unchecked fuel base_image pattern_image mask_image
      output_path pattern_size base_spacing spacing_variation alpha w
  /\ forall pattern base_size x y pattern_layer w0,
       (forall pattern_layer' w1,
           stamp pattern alpha base_size x y pattern_layer w0
           = Ok (pattern_layer', w1) ->
           exists tile,
             paste_mask_RGBA pattern_layer tile
               (x - width tile / 2, y - height tile / 2) tile
             = Ok pattern_layer'
             /\ size pattern_layer' = size pattern_layer)
       /\ (point_accepts alpha ->
           exists tile pattern_layer' w1,
             stamp pattern alpha base_size x y pattern_layer w0
             = Ok (pattern_layer', w1)
             /\ paste_mask_RGBA pattern_layer tile
                  (x - width tile / 2, y - height tile / 2) tile
                = Ok pattern_layer'
             /\ size pattern_layer' = size pattern_layer).
Proof.
  split.
  - unfold create_pattern, create_pattern_unchecked. apply bind_ext.
    intros [[base pattern] mask] w1. unfold bind at 1 6.
    by rewrite grid_walk_unchecked_eq.
  - intros pattern base_size x y layer w0.
    assert (Hinv : forall layer' w1,
               stamp pattern alpha base_size x y layer w0 = Ok (layer', w1) ->
               exists tile,
                 paste_mask_RGBA layer tile
                   (x - width tile / 2, y - height tile / 2) tile = Ok layer'
                 /\ size layer' = size layer).
    { intros layer' w1 H.
      destruct (stamp_inv _ _ _ _ _ _ _ _ _ H)
        as (Hx & Hy & _ & _ & _ & tile & Hp).
      exists tile. split; [exact Hp|]. by apply size_of_sizes. }
    split; [exact Hinv|].
    intros Hu.
    destruct (stamp_Ok pattern alpha base_size x y layer w0 Hu)
      as (layer' & w1 & H & _).
    destruct (Hinv layer' w1 H) as (tile & Hp & Hs).
    exists tile, layer', w1. split; [exact H|]. split; [exact Hp|exact Hs].
Qed.



(** ** Further properties of the transformations *)

(** X1 ([border], negative radius): for an image of any mode and every
    radius [r < 0], [border] raises [ValueError] (from [Image.new] when the
    new size is negative, from [MaxFilter] otherwise) and returns no buffer. *)
Theorem border_negative_radius_raises (img : AnyImage) (r : Z) (color : rgba)
    (w : world) :
  r < 0 -> border img r color w = Raise ValueError.
Proof.
  intros Hr. rewrite border_as_RGBA. by apply border_negative.
Qed.

(** X2 ([border], effects and growth in every mode): for an image of any
    mode and [r >= 0], every buffer [border] returns is [2r] wider and higher
    than the image, and [border] has then printed exactly one line, the two
    sizes, and neither written a file nor drawn from the random generator;
    it returns a buffer for every radius up to 11584. *)
Theorem border_effects (img : AnyImage) (r : Z) (color : rgba) (w : world) :
  0 <= r ->
  (forall out w',
      border img r color w = Ok (out, w') ->
      size out = (width (convert_RGBA img) + 2 * r,
                  height (convert_RGBA img) + 2 * r)
      /\ files w' = files w
      /\ rng w' = rng w
      /\ stdout w'
         = stdout w
           ++ ["Original size: " +:+ show_size (size (convert_RGBA img))
               +:+ ", New size with border: "
               +:+ show_size (width (convert_RGBA img) + 2 * r,
                              height (convert_RGBA img) + 2 * r)])
  /\ (r <= MAX_RADIUS -> exists out w', border img r color w = Ok (out, w')).
Proof.
  intros Hr. rewrite border_as_RGBA.
  assert (Hsize : size (as_RGBA img) = size (convert_RGBA img))
    by (destruct img; reflexivity).
  unfold size in Hsize. injection Hsize as Hw' Hh'.
  split.
  - intros out w' H.
    destruct (border_inv (as_RGBA img) r color w out w' Hr H)
      as (_ & -> & ->).
    destruct (stroked_size (as_RGBA img) r color Hr) as [Hw Hh].
    unfold size. rewrite Hw, Hh, Hw', Hh'. cbn [files stdout rng].
    split; [reflexivity|]. split; [reflexivity|]. split; [reflexivity|].
    unfold border_message, size. by rewrite Hw', Hh'.
  - intros Hmax. do 2 eexists. by apply border_Ok.
Qed.


(** X4 ([border], transparent pixels): with [r >= 0] and a border colour
    made of bytes, in every buffer [border] returns, where a pixel of [img]
    is fully transparent (alpha = 0) the result shows the border colour in
    its three colour bands; a buffer is returned for every radius up to
    11584. *)
Theorem border_transparent_pixel_shows_color (img : Image rgba) (r : Z)
    (color : rgba) (w : world) :
  0 <= r ->
  byte (red color) -> byte (green color) -> byte (blue color) ->
  (forall out w',
      border (ImRGBA img) r color w = Ok (out, w') ->
      forall i j,
        0 <= i < width img -> 0 <= j < height img ->
        alpha_of (getpixel img i j) = 0 ->
        red (getpixel out (r + i) (r + j)) = red color
        /\ green (getpixel out (r + i) (r + j)) = green color
        /\ blue (getpixel out (r + i) (r + j)) = blue color)
  /\ (r <= MAX_RADIUS ->
      exists out w', border (ImRGBA img) r color w = Ok (out, w')).
Proof.
  intros Hr Hred Hgreen Hblue. split.
  - intros out w' H i j Hi Hj Ha.
    destruct (border_inv img r color w out w' Hr H) as (_ & -> & _).
    destruct (stroked_interior img r color i j Hr Hi Hj)
      as (under & Hur & Hug & Hub & ->).
    unfold blend_RGBA. rewrite Ha. cbn [red green blue].
    rewrite !BLEND_0 by congruence. repeat split; assumption.
  - intros Hmax. do 2 eexists. by apply border_Ok.
Qed.

(** X5 ([border], dilation): with [r >= 0], the mask that [border] hands to
    the smoothing filter is, at a position of the new canvas, 255 when some
    pixel of [img] that is not fully transparent lies within [r] columns
    and [r] rows of it, and 0 otherwise: [MaxFilter(2r + 1)] grows the
    silhouette by exactly [r] pixels. *)
Theorem dilation_by_radius (img : Image rgba) (r x y : Z) :
  0 <= r ->
  inside (dilated img r) x y = true ->
  (near_footprint img r x y -> getpixel (dilated img r) x y = 255)
  /\ (~ near_footprint img r x y -> getpixel (dilated img r) x y = 0).
Proof.
  intros Hr Hin.
  destruct (dilated_inside img r x y Hr Hin) as [Hx Hy].
  pose proof (width_nonneg img) as Hw. pose proof (height_nonneg img) as Hh.
  unfold dilated. cbn [getpixel]. rewrite filter_margin by assumption.
  unfold rank_max.
  assert (HW : width (silhouette img r) = width img + 2 * r)
    by (apply canvas_width; lia).
  assert (HH : height (silhouette img r) = height img + 2 * r)
    by (apply canvas_height; lia).
  rewrite HW, HH.
  split.
  - intros (i & j & Hi & Hj & Ha & Hnx & Hny).
    apply Z.le_antisymm.
    + apply fold_max_upper; [lia|]. intros v Hv.
      apply in_flat_map in Hv. destruct Hv as (dj & _ & Hv).
      apply in_map_iff in Hv. destruct Hv as (di & <- & _).
      rewrite silhouette_px by assumption.
      destruct (_ && _); lia.
    + apply fold_max_lower. apply in_flat_map.
      exists (r + j - y). split; [apply in_window; lia|].
      apply in_map_iff. exists (r + i - x). split; [|apply in_window; lia].
      rewrite silhouette_px by assumption.
      replace (clamp 0 (width img + 2 * r - 1) (x + (r + i - x))) with (r + i)
        by (unfold clamp; lia).
      replace (clamp 0 (height img + 2 * r - 1) (y + (r + j - y))) with (r + j)
        by (unfold clamp; lia).
      replace (r + i - r) with i by lia. replace (r + j - r) with j by lia.
      assert (E : (r <=? r + i) && (r + i <? r + width img) && (r <=? r + j)
                  && (r + j <? r + height img)
                  && (alpha_of (getpixel img i j) >? 0) = true).
      { rewrite !andb_true_iff, !Z.leb_le, !Z.ltb_lt, Z.gtb_gt. lia. }
      rewrite E. reflexivity.
  - intros Hfar. apply fold_max_zero. intros v Hv.
    apply in_flat_map in Hv. destruct Hv as (dj & Hdj & Hv).
    apply in_map_iff in Hv. destruct Hv as (di & <- & Hdi).
    apply in_window in Hdj, Hdi; try assumption.
    rewrite silhouette_px by assumption.
    set (cx := clamp 0 (width img + 2 * r - 1) (x + di)).
    set (cy := clamp 0 (height img + 2 * r - 1) (y + dj)).
    destruct ((r <=? cx) && (cx <? r + width img) && (r <=? cy)
              && (cy <? r + height img)
              && (alpha_of (getpixel img (cx - r) (cy - r)) >? 0)) eqn:E;
      [|reflexivity].
    exfalso. apply Hfar.
    rewrite !andb_true_iff, !Z.leb_le, !Z.ltb_lt, Z.gtb_gt in E.
    exists (cx - r), (cy - r).
    assert (Hcx : x - r <= cx <= x + r) by (unfold cx, clamp; lia).
    assert (Hcy : y - r <= cy <= y + r) by (unfold cy, clamp; lia).
    repeat split; try lia.
Qed.


(** X7 (an opaque base stays opaque): where the pixel of the base is fully
    opaque (alpha = 255), the pixel of every result of [apply_texture], and
    of every result of [create_pattern], is fully opaque too, whatever the
    texture, the tiles and the mask. *)
Theorem opaque_base_stays_opaque
    (base_image other_image mask_image : AnyImage) (output_path : string)
    (alpha : number) (w : world) :
  let base := convert_RGBA base_image in
  (forall out w',
      apply_texture base_image other_image mask_image output_path alpha w
      = Ok (out, w') ->
      forall x y,
        alpha_of (getpixel base x y) = 255 ->
        alpha_of (getpixel out x y) = 255)
  /\ (forall fuel pattern_size base_spacing spacing_variation out w',
        create_pattern fuel base_image other_image mask_image output_path
          pattern_size base_spacing spacing_variation alpha w = Ok (out, w') ->
        forall x y,
          alpha_of (getpixel base x y) = 255 ->
          alpha_of (getpixel out x y) = 255).
Proof.
  intros base. split.
  - intros out w' H x y Hb.
    destruct (apply_texture_inv _ _ _ _ _ _ _ _ H)
      as (resized & mask & _ & _ & _ & Hover).
    by apply (over_base_opaque _ _ _ _ _ _ Hover).
  - intros fuel ps bs var out w' H x y Hb.
    destruct (create_pattern_sound _ _ _ _ _ _ _ _ _ _ _ _ H)
      as (pattern & mask & st1 & w1 & _ & _ & _ & _ & Hover).
    by apply (over_base_opaque _ _ _ _ _ _ Hover).
Qed.

(** X8 ([create_pattern], effects): whenever [create_pattern] returns a
    buffer, it has saved exactly that buffer under [output_path], left every
    other file as it was, and printed exactly one line. *)
Theorem create_pattern_effects (fuel : nat)
    (base_image pattern_image mask_image : picture) (output_path : string)
    (pattern_size base_spacing spacing_variation : Z * Z) (alpha : number)
    (w : world) (out : Image rgba) (w' : world) :
  create_pattern fuel base_image pattern_image mask_image output_path
    pattern_size base_spacing spacing_variation alpha w = Ok (out, w') ->
  files w' !! output_path = Some out
  /\ (forall path, path <> output_path -> files w' !! path = files w !! path)
  /\ stdout w'
     = stdout w
       ++ ["Pattern applied to the sock and saved to " +:+ output_path].
Proof.
  intros H.
  destruct (create_pattern_inv _ _ _ _ _ _ _ _ _ _ _ _ H)
    as (base & pattern & mask & st1 & w1 & _ & _ & -> & _).
  simpl. split; [apply lookup_insert_eq|]. split; [|reflexivity].
  intros path Hne. by apply lookup_insert_ne.
Qed.



(** X11 (cells of the grid): in every walk of [create_pattern] that returns,
    the cells are stamped at positions whose coordinates are below the width
    and the height of the base; when both strides are positive all of them
    lie inside the base; and on a base of positive width and height the
    first cell is [(0, 0)], the top-left corner. *)
Theorem grid_cells_inside_base (fuel : nat) (base pattern : Image rgba)
    (pattern_size base_spacing spacing_variation : Z * Z) (alpha : number)
    (w : world) (pattern_layer : Image rgba) (visited : list (Z * Z))
    (w' : world) :
  grid_walk fuel base pattern pattern_size base_spacing
    spacing_variation alpha w = Ok ((pattern_layer, visited), w') ->
  (forall x y, In (x, y) visited -> x < width base /\ y < height base)
  /\ (stride_positive pattern_size base_spacing spacing_variation ->
      forall x y, In (x, y) visited -> inside base x y = true)
  /\ (0 < width base -> 0 < height base ->
      exists rest, visited = (0, 0) :: rest).
Proof.
  unfold grid_walk.
  rewrite (bind_Ok _ _ _ _ _ (lift_Ok _ _ _ (Image_new_size _ _))).
  intros H. apply walk_columns_log in H.
  destruct H as (new & Hlog & Hall & Hhead).
  cbn [snd app] in Hlog. subst new.
  split; [|split].
  - intros x y Hin. destruct (Hall (x, y) Hin) as (H1 & H2 & _).
    split; assumption.
  - intros Hs x y Hin. destruct (Hall (x, y) Hin) as (H1 & H2 & H3).
    destruct (H3 Hs) as [H4 H5]. cbn [fst snd size] in *.
    unfold inside. repeat (apply andb_true_intro; split); lia.
  - intros HW HH. apply Hhead; assumption.
Qed.

(** X12 ([main], a missing input): when one of the four input files does
    not exist, [main] prints the line "Error: <path> not found in the
    current directory." for the first of them, in the order sock, texture,
    dog, mask, and stops: it opens nothing and writes no file. *)
Theorem main_missing_file (fuel : nat) (disk : gmap string file) (w : world)
    (p : string) :
  In p input_paths -> disk !! p = None ->
  exists path before after,
    input_paths = before ++ path :: after
    /\ (forall q, In q before -> is_Some (disk !! q))
    /\ disk !! path = None
    /\ main fuel disk w
       = Ok (tt,
             mkWorld (files w)
               (stdout w
                ++ ["Error: " +:+ path
                    +:+ " not found in the current directory."])
               (rng w)).
Proof.
  intros Hin Hp. unfold main.
  destruct (first_missing disk input_paths) as [path|] eqn:E.
  - destruct (first_missing_Some _ _ _ E) as (before & after & Hsplit & Hb & Hm).
    exists path, before, after. repeat split; try assumption.
  - rewrite first_missing_None in E. specialize (E p Hin).
    rewrite Hp in E. by destruct E.
Qed.

(** X13 ([main], an input that does not open): when the four input files
    exist and [Image.open] rejects one of them, [main] prints the line
    "Error opening <path>: <exception>" for the first of them and stops; the
    files before it were opened, and no file is written. *)
Theorem main_unreadable_file (fuel : nat) (disk : gmap string file)
    (w : world) (p why0 : string) :
  (forall q, In q input_paths -> is_Some (disk !! q)) ->
  In p input_paths -> Image_open disk p = inl why0 ->
  exists path why before after,
    input_paths = before ++ path :: after
    /\ (forall q, In q before -> exists opened, Image_open disk q = inr opened)
    /\ Image_open disk path = inl why
    /\ main fuel disk w
       = Ok (tt,
             mkWorld (files w)
               (stdout w ++ ["Error opening " +:+ path +:+ ": " +:+ why])
               (rng w)).
Proof.
  intros Hall Hin Hp. unfold main.
  apply first_missing_None in Hall. rewrite Hall.
  destruct (Image_open disk sock_path) as [why|sock] eqn:E1.
  { exists sock_path, why, [], [texture_path; dog_path; mask_path].
    repeat split; try assumption. intros q []. }
  destruct (Image_open disk texture_path) as [why|texture] eqn:E2.
  { exists texture_path, why, [sock_path], [dog_path; mask_path].
    repeat split; try assumption.
    intros q [<-|[]]. by exists sock. }
  destruct (Image_open disk dog_path) as [why|dog] eqn:E3.
  { exists dog_path, why, [sock_path; texture_path], [mask_path].
    repeat split; try assumption.
    intros q [<-|[<-|[]]]; [by exists sock | by exists texture]. }
  destruct (Image_open disk mask_path) as [why|mask] eqn:E4.
  { exists mask_path, why, [sock_path; texture_path; dog_path], [].
    repeat split; try assumption.
    intros q [<-|[<-|[<-|[]]]];
      [by exists sock | by exists texture | by exists dog]. }
  exfalso. simpl in Hin.
  destruct Hin as [<-|[<-|[<-|[<-|[]]]]]; congruence.
Qed.

(** X14 ([main], a full run): when the four input files open as pictures
    that decode, [main] returns after writing exactly four files: the
    textured sock, the bordered dog (20 pixels wider and higher than the dog
    picture), and the patterned sock under two names; the textured and the
    patterned sock have the size of the sock picture; five lines are
    printed. *)
Theorem main_full_run (fuel : nat) (disk : gmap string file)
    (sock texture dog mask : AnyImage) (w : world) :
  Image_open disk sock_path = inr (Loaded sock) ->
  Image_open disk texture_path = inr (Loaded texture) ->
  Image_open disk dog_path = inr (Loaded dog) ->
  Image_open disk mask_path = inr (Loaded mask) ->
  (fuel_for (size (convert_RGBA sock)) <= fuel)%nat ->
  exists textured bordered patterned w',
    main fuel disk w = Ok (tt, w')
    /\ files w' = main_files textured bordered patterned (files w)
    /\ stdout w' = stdout w ++ main_output dog
    /\ size textured = size (convert_RGBA sock)
    /\ size bordered
       = (width (convert_RGBA dog) + 20, height (convert_RGBA dog) + 20)
    /\ size patterned = size (convert_RGBA sock).
Proof.
  intros H1 H2 H3 H4 Hfuel.
  rewrite (main_on_open fuel disk _ _ _ _ w H1 H2 H3 H4).
  destruct (Image_open_nonempty _ _ _ H1) as [HW HH]. cbn [header] in HW, HH.
  destruct (pipeline_Ok fuel sock texture dog mask w HW HH Hfuel)
    as (textured & bordered & patterned & sock_mask & g & _ & H & Hts & Hbs
        & Hps & _).
  exists textured, bordered, patterned. eexists.
  split; [exact H|]. cbn [files stdout].
  repeat split; try assumption.
  rewrite Hbs. by destruct dog.
Qed.

(** X15 ([main], outside the mask): on a full run, at every position where
    the mask, resized to the sock, is 0, the pixel of the final image saved
    as "sock_final.png" is the pixel of the sock picture: neither the
    texture nor the pattern shows outside the mask. *)
Theorem main_keeps_sock_outside_mask (fuel : nat) (disk : gmap string file)
    (sock texture dog mask : AnyImage) (w : world) :
  Image_open disk sock_path = inr (Loaded sock) ->
  Image_open disk texture_path = inr (Loaded texture) ->
  Image_open disk dog_path = inr (Loaded dog) ->
  Image_open disk mask_path = inr (Loaded mask) ->
  (fuel_for (size (convert_RGBA sock)) <= fuel)%nat ->
  exists final sock_mask w',
    main fuel disk w = Ok (tt, w')
    /\ files w' !! final_sock_path = Some final
    /\ resize_L (convert_L mask) (size (convert_RGBA sock)) = Ok sock_mask
    /\ forall x y,
         getpixel sock_mask x y = 0 ->
         getpixel final x y = getpixel (convert_RGBA sock) x y.
Proof.
  intros H1 H2 H3 H4 Hfuel.
  rewrite (main_on_open fuel disk _ _ _ _ w H1 H2 H3 H4).
  destruct (Image_open_nonempty _ _ _ H1) as [HW HH]. cbn [header] in HW, HH.
  destruct (pipeline_Ok fuel sock texture dog mask w HW HH Hfuel)
    as (textured & bordered & patterned & sock_mask & g & Hmask & H & _ & _
        & _ & Hpx).
  exists patterned, sock_mask. eexists. split; [exact H|]. cbn [files].
  split; [apply lookup_insert_eq|]. split; [exact Hmask|].
  intros x y Hm. by apply Hpx.
Qed.

(** X16 ([main], when it raises): [Image.open] reads the header only, and
    the [try] blocks of [main] guard nothing but the open.  With fuel to
    walk the sock picture, [main] raises [OSError] when its four inputs open
    and the data of one of them is damaged; in every other case (a file
    missing, a file rejected by [Image.open], four pictures that decode, of
    any mode and size) it returns normally, for every state of the random
    generator. *)
Theorem main_raises_only_on_damaged_file (disk : gmap string file)
    (fuel : nat) (w : world) :
  (main_fuel disk <= fuel)%nat ->
  (all_open disk -> some_damaged disk -> main fuel disk w = Raise OSError)
  /\ (~ (all_open disk /\ some_damaged disk) ->
      exists w', main fuel disk w = Ok (tt, w')).
Proof.
  intros Hfuel. split.
  - intros Hopen (path & h & Hin & Hd).
    destruct (Hopen sock_path) as (sock & E1); [simpl; auto|].
    destruct (Hopen texture_path) as (texture & E2); [simpl; auto|].
    destruct (Hopen dog_path) as (dog & E3); [simpl; auto 6|].
    destruct (Hopen mask_path) as (mask & E4); [simpl; auto 6|].
    rewrite (main_on_open fuel disk _ _ _ _ w E1 E2 E3 E4).
    destruct (Image_open_nonempty _ _ _ E1) as [HW HH].
    apply pipeline_damaged; [exact HW|exact HH|].
    exists h. simpl in Hin.
    destruct Hin as [<-|[<-|[<-|[<-|[]]]]]; rewrite Hd in *.
    + injection E1 as <-. auto.
    + injection E2 as <-. auto.
    + injection E3 as <-. auto.
    + injection E4 as <-. auto.
  - intros Hnot. unfold main.
    destruct (first_missing disk input_paths) as [path|] eqn:E;
      [eexists; reflexivity|].
    unfold main_fuel in Hfuel.
    destruct (Image_open disk sock_path) as [why|sock] eqn:E1;
      [eexists; reflexivity|].
    destruct (Image_open disk texture_path) as [why|texture] eqn:E2;
      [eexists; reflexivity|].
    destruct (Image_open disk dog_path) as [why|dog] eqn:E3;
      [eexists; reflexivity|].
    destruct (Image_open disk mask_path) as [why|mask] eqn:E4;
      [eexists; reflexivity|].
    assert (Hopen : all_open disk).
    { intros q Hq. simpl in Hq.
      destruct Hq as [<-|[<-|[<-|[<-|[]]]]]; by eexists. }
    destruct sock as [sock|h];
      [|exfalso; apply Hnot; split; [exact Hopen|];
        exists sock_path, h; split; [simpl; auto|exact E1]].
    destruct texture as [texture|h];
      [|exfalso; apply Hnot; split; [exact Hopen|];
        exists texture_path, h; split; [simpl; auto|exact E2]].
    destruct dog as [dog|h];
      [|exfalso; apply Hnot; split; [exact Hopen|];
        exists dog_path, h; split; [simpl; auto 6|exact E3]].
    destruct mask as [mask|h];
      [|exfalso; apply Hnot; split; [exact Hopen|];
        exists mask_path, h; split; [simpl; auto 6|exact E4]].
    destruct (Image_open_nonempty _ _ _ E1) as [HW HH].
    cbn [header] in HW, HH, Hfuel. rewrite any_size_convert in Hfuel.
    destruct (pipeline_Ok fuel sock texture dog mask w HW HH Hfuel)
      as (textured & bordered & patterned & sock_mask & g & _ & H & _).
    eexists. exact H.
Qed.
End Transformations.

(** ** The properties at concrete inputs *)

(** Names the value a closed computation returned. *)
Ltac returned H :=
  match type of H with
  | ?l = Ok _ => let l' := eval hnf in l in change l with l' in H;
                 injection H as <-
  end.

Ltac accepted := eexists; vm_compute; reflexivity.

Ltac unit_interval := vm_compute; split; discriminate.

(** Binary64 at work: 45 * 0.7 is 31.499999999999996 and rounds to 31, where
    the exact product 31.5 would round to 32; 5 * 0.1 is exactly 0.5 and
    rounds to 0, where the exact product of 5 and the double 0.1 lies above
    0.5. *)
Example scale_alpha_binary64 :
  lut (scale_alpha seven_tenths) 45 = 31
  /\ py_round (inject_Z 45 * (7 # 10)) = 32
  /\ lut (scale_alpha (Float (float_lit 1 10))) 5 = 0
  /\ py_round (inject_Z 5 * float_value (float_lit 1 10)) = 1.
Proof. repeat split; vm_compute; reflexivity. Qed.

(** C1 at the example of the specification: a 100 x 100 white square
    stroked with radius 5 in red gives a 110 x 110 buffer. *)
Lemma border_growth_witness :
  0 <= 5
  /\ 5 <= MAX_RADIUS
  /\ exists out w',
       border smooth_keep (ImRGBA (solid 100 100 white)) 5 (Rgba 255 0 0 255)
         empty_world = Ok (out, w')
       /\ width out = 110 /\ height out = 110.
Proof.
  assert (Hr : 0 <= 5) by lia.
  assert (Hm : 5 <= MAX_RADIUS) by (unfold MAX_RADIUS; lia).
  split; [exact Hr|]. split; [exact Hm|].
  exact (proj2 (border_growth smooth_keep (solid 100 100 white) 5
                  (Rgba 255 0 0 255) empty_world Hr) Hm).
Defined.

(** The filter refuses the window of radius 11585. *)
Example border_radius_beyond_filter :
  border smooth_keep (ImRGBA (solid 1 1 white)) 11585 white empty_world
  = Raise ValueError.
Proof. rewrite border_run by lia. reflexivity. Qed.



(** C4 on a texture of alpha 45 with [alpha = 0.7]: the alpha handed to
    compositing is the binary64 product 31.499999999999996 rounded, 31, and
    the colour (10, 20, 30) is darkened to (7, 14, 21). *)
Lemma texture_alpha_scaled_witness :
  let base := convert_RGBA (ImRGBA (solid 2 2 white)) in
  in_unit seven_tenths
  /\ 0 < width base /\ 0 < height base
  /\ exists texture mask original,
       texture_layers nearest nearest
         (ImRGBA (solid 2 2 white)) faint_texture (ImL (solid 2 2 0))
         seven_tenths
       = Ok (base, texture, mask)
       /\ resize_RGBA nearest (convert_RGBA faint_texture) (size base)
          = Ok original
       /\ byte_px (getpixel original 0 0)
       /\ alpha_of (getpixel original 0 0) = 45
       /\ alpha_of (getpixel texture 0 0) = 31
       /\ red (getpixel texture 0 0) = 7
       /\ green (getpixel texture 0 0) = 14
       /\ blue (getpixel texture 0 0) = 21.
Proof.
  intros base.
  assert (Hu : in_unit seven_tenths) by unit_interval.
  assert (HW : 0 < width base) by reflexivity.
  assert (HH : 0 < height base) by reflexivity.
  destruct (texture_alpha_scaled nearest nearest
              (ImRGBA (solid 2 2 white)) faint_texture (ImL (solid 2 2 0))
              seven_tenths Hu)
    as (Hreturns & Hscaled).
  destruct (Hreturns HW HH) as (texture & mask & H).
  destruct (Hscaled _ texture mask H) as (original & Ho & Hpx).
  repeat (split; [assumption|]).
  exists texture, mask, original. split; [exact H|]. split; [exact Ho|].
  returned Ho.
  assert (Hb : byte_px
                 (getpixel
                    (mkImage 2 2
                       (nearest (convert_RGBA faint_texture) (size base)))
                    0 0))
    by (unfold byte_px, byte; simpl; lia).
  destruct (Hpx 0 0 Hb) as (Ha & _ & _ & _ & _ & Hred & Hgreen & Hblue).
  split; [exact Hb|]. split; [reflexivity|].
  split; [rewrite Ha; vm_compute; reflexivity|].
  split; [rewrite Hred; reflexivity|].
  split; [rewrite Hgreen; reflexivity|rewrite Hblue; reflexivity].
Defined.

(** C5 as stated fails on a pixel that is neither transparent nor opaque: a
    1 x 1 image of colour (100, 0, 0, 128) stroked with radius 1 in white
    comes back blended with the border colour. *)
Lemma border_blends_translucent_pixel :
  exists out w',
    border smooth_keep (ImRGBA (solid 1 1 red_half)) 1 white empty_world
    = Ok (out, w')
    /\ inside (solid 1 1 red_half) 0 0 = true
    /\ alpha_of (getpixel (solid 1 1 red_half) 0 0) > 0
    /\ red (getpixel out (1 + 0) (1 + 0)) = 177
    /\ getpixel out (1 + 0) (1 + 0) <> getpixel (solid 1 1 red_half) 0 0.
Proof.
  do 2 eexists.
  split; [apply border_Ok; unfold MAX_RADIUS; lia|].
  split; [reflexivity|]. split; [reflexivity|].
  split; [vm_compute; reflexivity|].
  vm_compute. discriminate.
Qed.

(** C5, as amended, at the example of the specification: the interior of the
    stroked white square is white. *)
Lemma border_interior_opaque_witness :
  0 <= 5
  /\ 5 <= MAX_RADIUS
  /\ 0 <= 0 < width (solid 100 100 white)
  /\ 0 <= 0 < height (solid 100 100 white)
  /\ byte_px (getpixel (solid 100 100 white) 0 0)
  /\ alpha_of (getpixel (solid 100 100 white) 0 0) = 255
  /\ exists out w',
       border smooth_keep (ImRGBA (solid 100 100 white)) 5 (Rgba 255 0 0 255)
         empty_world = Ok (out, w')
       /\ getpixel out (5 + 0) (5 + 0) = white.
Proof.
  assert (Hr : 0 <= 5) by lia.
  assert (Hm : 5 <= MAX_RADIUS) by (unfold MAX_RADIUS; lia).
  assert (Hi : 0 <= 0 < width (solid 100 100 white))
    by (unfold width; simpl; lia).
  assert (Hj : 0 <= 0 < height (solid 100 100 white))
    by (unfold height; simpl; lia).
  assert (Hb : byte_px (getpixel (solid 100 100 white) 0 0))
    by (unfold byte_px, byte; simpl; lia).
  destruct (border_interior_opaque smooth_keep (solid 100 100 white) 5
              (Rgba 255 0 0 255) empty_world Hr) as (Hinterior & Hreturns).
  destruct (Hreturns Hm) as (out & w' & H).
  repeat (split; [assumption|]). split; [reflexivity|].
  exists out, w'. split; [exact H|].
  exact (Hinterior out w' H 0 0 Hi Hj Hb eq_refl).
Defined.

(** C6 on a white 500 x 500 base: sixteen cells, column after column. *)
Lemma grid_coverage_witness :
  width (convert_RGBA (ImRGBA (solid 500 500 white))) = 500
  /\ height (convert_RGBA (ImRGBA (solid 500 500 white))) = 500
  /\ point_accepts half
  /\ (fuel_for (500%Z, 500%Z) <= fuel_for (500%Z, 500%Z))%nat
  /\ exists pattern mask pattern_layer visited w',
       pattern_layers nearest nearest
         (ImRGBA (solid 500 500 white)) (ImRGB (solid 3 3 (10, 20, 30)))
         (ImL (solid 2 2 0)) (100, 100)
       = Ok (convert_RGBA (ImRGBA (solid 500 500 white)), pattern, mask)
       /\ grid_walk rotate_keep (fuel_for (500, 500))
            (convert_RGBA (ImRGBA (solid 500 500 white))) pattern
            (100, 100) (50, 50) (0, 0) half empty_world
          = Ok ((pattern_layer, visited), w')
       /\ visited
          = [(0, 0); (0, 150); (0, 300); (0, 450);
             (150, 0); (150, 150); (150, 300); (150, 450);
             (300, 0); (300, 150); (300, 300); (300, 450);
             (450, 0); (450, 150); (450, 300); (450, 450)].
Proof.
  assert (Hw : width (convert_RGBA (ImRGBA (solid 500 500 white))) = 500)
    by reflexivity.
  assert (Hh : height (convert_RGBA (ImRGBA (solid 500 500 white))) = 500)
    by reflexivity.
  assert (Hu : point_accepts half) by accepted.
  assert (Hf : (fuel_for (500%Z, 500%Z) <= fuel_for (500%Z, 500%Z))%nat)
    by apply le_n.
  destruct (grid_coverage nearest nearest rotate_keep
              (ImRGBA (solid 500 500 white)) (ImRGB (solid 3 3 (10, 20, 30)))
              (ImL (solid 2 2 0)) half (fuel_for (500, 500)) empty_world
              Hw Hh Hu Hf)
    as (pattern & mask & layer & visited & w' & Hl & H & Hvisited & _).
  repeat (split; [assumption|]).
  exists pattern, mask, layer, visited, w'.
  split; [exact Hl|]. split; assumption.
Defined.

(** C7 on the sample tile: the cell at (0, 0) of a 2 x 2 layer is stamped,
    although the tile centred there reaches outside the layer. *)
Lemma boundary_check_dead_witness :
  point_accepts half
  /\ create_pattern nearest nearest rotate_keep 3
       (ImRGBA (solid 2 2 white)) (ImRGB (solid 3 3 (10, 20, 30)))
       (ImL (solid 2 2 255)) "sock_with_pattern.png"
       (1, 1) (1, 1) (0, 0) half empty_world
     = create_pattern_unchecked nearest nearest rotate_keep 3
         (ImRGBA (solid 2 2 white)) (ImRGB (solid 3 3 (10, 20, 30)))
         (ImL (solid 2 2 255)) "sock_with_pattern.png"
         (1, 1) (1, 1) (0, 0) half empty_world
  /\ exists tile pattern_layer' w1,
       stamp rotate_keep (solid 3 3 white) half (2, 2) 0 0
         (solid 2 2 transparent) empty_world
       = Ok (pattern_layer', w1)
       /\ paste_mask_RGBA (solid 2 2 transparent) tile
            (0 - width tile / 2, 0 - height tile / 2) tile
          = Ok pattern_layer'
       /\ size pattern_layer' = (2, 2).
Proof.
  assert (Hu : point_accepts half) by accepted.
  destruct (boundary_check_dead nearest nearest rotate_keep 3
              (ImRGBA (solid 2 2 white)) (ImRGB (solid 3 3 (10, 20, 30)))
              (ImL (solid 2 2 255)) "sock_with_pattern.png"
              (1, 1) (1, 1) (0, 0) half empty_world)
    as (Hsame & Hcell).
  split; [exact Hu|]. split; [exact Hsame|].
  destruct (Hcell (solid 3 3 white) (2, 2) 0 0 (solid 2 2 transparent)
              empty_world) as (_ & Hstamped).
  exact (Hstamped Hu).
Defined.





(** Reads a pixel of the buffer a closed computation returned. *)
Ltac pixel_of H x y :=
  match type of H with
  | ?r = Ok (?out, ?w') =>
      let v := eval vm_compute in
                 (match r with
                  | Ok (o, _) => getpixel o x y
                  | _ => transparent
                  end) in
      let E := fresh "E" in
      assert (E : getpixel out x y = v)
        by (change (match Ok (out, w') with
                    | Ok (o, _) => getpixel o x y
                    | _ => transparent
                    end = v);
            rewrite <- H; vm_compute; reflexivity);
      rewrite E
  end.

(** The example of the specification, run: the stroked white square has a
    red margin and a white interior, and one line was printed. *)
Example border_example_scenario :
  exists out w',
    border smooth_keep (ImRGBA (solid 100 100 white)) 5 (Rgba 255 0 0 255)
      empty_world = Ok (out, w')
    /\ size out = (110, 110)
    /\ getpixel out 0 0 = Rgba 255 0 0 255
    /\ getpixel out 4 60 = Rgba 255 0 0 255
    /\ getpixel out 5 5 = white
    /\ getpixel out 104 104 = white
    /\ stdout w'
       = ["Original size: (100, 100), New size with border: (110, 110)"].
Proof.
  do 2 eexists.
  split; [apply border_Ok; unfold MAX_RADIUS; lia|].
  repeat split; vm_compute; reflexivity.
Qed.

(** A run of [create_pattern] on the sample images: with fuel 3 the 2 x 2
    base is walked and the result saved; without fuel the walk is cut. *)
Example create_pattern_example :
  (exists out w',
      create_pattern nearest nearest rotate_keep 3
        (ImRGBA (solid 2 2 white)) (ImRGB (solid 3 3 (10, 20, 30)))
        (ImL (solid 2 2 255)) "sock_with_pattern.png"
        (1, 1) (1, 1) (0, 0) half empty_world = Ok (out, w')
      /\ size out = (2, 2)
      /\ getpixel out 0 0 = Rgba 192 194 195 255
      /\ files w' !! "sock_with_pattern.png" = Some out)
  /\ create_pattern nearest nearest rotate_keep 0
       (ImRGBA (solid 2 2 white)) (ImRGB (solid 3 3 (10, 20, 30)))
       (ImL (solid 2 2 255)) "sock_with_pattern.png"
       (1, 1) (1, 1) (0, 0) half empty_world = OutOfFuel.
Proof.
  split.
  - destruct (create_pattern_Ok nearest nearest rotate_keep 3
                (ImRGBA (solid 2 2 white)) (ImRGB (solid 3 3 (10, 20, 30)))
                (ImL (solid 2 2 255)) "sock_with_pattern.png"
                (1, 1) (1, 1) (0, 0) half empty_world)
      as (out & w' & H);
      [ reflexivity | reflexivity | reflexivity | reflexivity | accepted
      | unfold stride_positive; simpl; lia
      | unfold jitter_nonempty; simpl; lia
      | apply fuel_for_covers; vm_compute; lia | ].
    exists out, w'. split; [exact H|].
    destruct (create_pattern_sound _ _ _ _ _ _ _ _ _ _ _ _ _ _ _ H)
      as (pattern & mask & st1 & w1 & _ & _ & _ & -> & Hover).
    destruct (over_base_size _ _ _ _ Hover) as [Hw Hh].
    split; [unfold size; rewrite Hw, Hh; reflexivity|].
    split; [|apply lookup_insert_eq].
    pixel_of H 0 0. reflexivity.
  - vm_compute. reflexivity.
Qed.

(** ** The further properties at concrete inputs *)

(** X1 at radius -1 on the white square. *)
Lemma border_negative_radius_raises_witness :
  -1 < 0
  /\ border smooth_keep (ImRGBA (solid 100 100 white)) (-1) white empty_world
     = Raise ValueError.
Proof.
  split; [lia|].
  apply (border_negative_radius_raises smooth_keep
           (ImRGBA (solid 100 100 white)) (-1) white empty_world).
  lia.
Defined.

(** X2 on a 3 x 3 "RGB" picture stroked with radius 2. *)
Lemma border_effects_witness :
  0 <= 2
  /\ 2 <= MAX_RADIUS
  /\ exists out w',
       border smooth_keep (ImRGB (solid 3 3 (10, 20, 30))) 2 white empty_world
       = Ok (out, w')
       /\ size out = (7, 7)
       /\ files w' = files empty_world
       /\ stdout w' = ["Original size: (3, 3), New size with border: (7, 7)"].
Proof.
  assert (Hr : 0 <= 2) by lia.
  assert (Hm : 2 <= MAX_RADIUS) by (unfold MAX_RADIUS; lia).
  destruct (border_effects smooth_keep (ImRGB (solid 3 3 (10, 20, 30))) 2
              white empty_world Hr) as (Heffects & Hreturns).
  destruct (Hreturns Hm) as (out & w' & H).
  destruct (Heffects out w' H) as (Hs & Hf & _ & Ho).
  split; [exact Hr|]. split; [exact Hm|]. exists out, w'.
  split; [exact H|]. split; [exact Hs|]. split; [exact Hf|]. exact Ho.
Defined.


(** X4 on a fully transparent 1 x 1 image stroked in white. *)
Lemma border_transparent_pixel_shows_color_witness :
  0 <= 1
  /\ 1 <= MAX_RADIUS
  /\ byte (red white) /\ byte (green white) /\ byte (blue white)
  /\ 0 <= 0 < width (solid 1 1 transparent)
  /\ 0 <= 0 < height (solid 1 1 transparent)
  /\ alpha_of (getpixel (solid 1 1 transparent) 0 0) = 0
  /\ exists out w',
       border smooth_keep (ImRGBA (solid 1 1 transparent)) 1 white empty_world
       = Ok (out, w')
       /\ red (getpixel out (1 + 0) (1 + 0)) = 255
       /\ green (getpixel out (1 + 0) (1 + 0)) = 255
       /\ blue (getpixel out (1 + 0) (1 + 0)) = 255.
Proof.
  assert (Hr : 0 <= 1) by lia.
  assert (Hm : 1 <= MAX_RADIUS) by (unfold MAX_RADIUS; lia).
  assert (Hb : byte 255) by (unfold byte; lia).
  assert (Hi : 0 <= 0 < width (solid 1 1 transparent))
    by (unfold width; simpl; lia).
  assert (Hj : 0 <= 0 < height (solid 1 1 transparent))
    by (unfold height; simpl; lia).
  destruct (border_transparent_pixel_shows_color smooth_keep
              (solid 1 1 transparent) 1 white empty_world Hr Hb Hb Hb)
    as (Hshows & Hreturns).
  destruct (Hreturns Hm) as (out & w' & H).
  split; [exact Hr|]. split; [exact Hm|].
  split; [exact Hb|]. split; [exact Hb|]. split; [exact Hb|].
  split; [exact Hi|]. split; [exact Hj|]. split; [reflexivity|].
  exists out, w'. split; [exact H|].
  exact (Hshows out w' H 0 0 Hi Hj eq_refl).
Defined.

(** X5 around a single opaque pixel, and around a transparent one. *)
Lemma dilation_by_radius_witness :
  0 <= 1
  /\ inside (dilated (solid 1 1 white) 1) 0 0 = true
  /\ near_footprint (solid 1 1 white) 1 0 0
  /\ getpixel (dilated (solid 1 1 white) 1) 0 0 = 255
  /\ ~ near_footprint (solid 1 1 transparent) 1 0 0
  /\ getpixel (dilated (solid 1 1 transparent) 1) 0 0 = 0.
Proof.
  assert (Hr : 0 <= 1) by lia.
  assert (Hin : inside (dilated (solid 1 1 white) 1) 0 0 = true)
    by reflexivity.
  assert (Hin' : inside (dilated (solid 1 1 transparent) 1) 0 0 = true)
    by reflexivity.
  assert (Hnear : near_footprint (solid 1 1 white) 1 0 0).
  { exists 0, 0. unfold width, height. simpl. lia. }
  assert (Hfar : ~ near_footprint (solid 1 1 transparent) 1 0 0).
  { intros (i & j & _ & _ & Ha & _). simpl in Ha. lia. }
  destruct (dilation_by_radius (solid 1 1 white) 1 0 0 Hr Hin) as [H1 _].
  destruct (dilation_by_radius (solid 1 1 transparent) 1 0 0 Hr Hin')
    as [_ H2].
  split; [exact Hr|]. split; [exact Hin|]. split; [exact Hnear|].
  split; [exact (H1 Hnear)|].
  split; [exact Hfar | exact (H2 Hfar)].
Defined.


(** X7 on the sample images: the white base is opaque, so is the result. *)
Lemma opaque_base_stays_opaque_witness :
  alpha_of (getpixel (convert_RGBA (ImRGBA (solid 2 2 white))) 0 0) = 255
  /\ (exists out w',
        apply_texture nearest nearest
          (ImRGBA (solid 2 2 white)) (ImRGB (solid 3 3 (10, 20, 30)))
          (ImL (solid 2 2 255)) "sock_with_texture.png" alpha_texture
          empty_world
        = Ok (out, w')
        /\ alpha_of (getpixel out 0 0) = 255)
  /\ (exists out w',
        create_pattern nearest nearest rotate_keep 3
          (ImRGBA (solid 2 2 white)) (ImRGB (solid 3 3 (10, 20, 30)))
          (ImL (solid 2 2 255)) "sock_with_texture.png"
          (1, 1) (1, 1) (0, 0) alpha_texture empty_world
        = Ok (out, w')
        /\ alpha_of (getpixel out 0 0) = 255).
Proof.
  destruct (opaque_base_stays_opaque nearest nearest rotate_keep
              (ImRGBA (solid 2 2 white)) (ImRGB (solid 3 3 (10, 20, 30)))
              (ImL (solid 2 2 255)) "sock_with_texture.png" alpha_texture
              empty_world) as (Htexture & Hpattern).
  split; [reflexivity|]. split.
  - destruct (apply_texture_Ok nearest nearest
                (ImRGBA (solid 2 2 white)) (ImRGB (solid 3 3 (10, 20, 30)))
                (ImL (solid 2 2 255)) "sock_with_texture.png" alpha_texture
                empty_world)
      as (out & w' & H); [reflexivity | reflexivity | accepted |].
    exists out, w'. split; [exact H|]. exact (Htexture out w' H 0 0 eq_refl).
  - destruct (create_pattern_Ok nearest nearest rotate_keep 3
                (ImRGBA (solid 2 2 white)) (ImRGB (solid 3 3 (10, 20, 30)))
                (ImL (solid 2 2 255)) "sock_with_texture.png"
                (1, 1) (1, 1) (0, 0) alpha_texture empty_world)
      as (out2 & w2 & H2);
      [ reflexivity | reflexivity | reflexivity | reflexivity | accepted
      | unfold stride_positive; simpl; lia
      | unfold jitter_nonempty; simpl; lia
      | apply fuel_for_covers; vm_compute; lia | ].
    exists out2, w2. split; [exact H2|].
    exact (Hpattern 3%nat (1, 1) (1, 1) (0, 0) out2 w2 H2 0 0 eq_refl).
Defined.

(** X8 on the sample images. *)
Lemma create_pattern_effects_witness :
  exists out w',
    create_pattern nearest nearest rotate_keep 3
      (ImRGBA (solid 2 2 white)) (ImRGB (solid 3 3 (10, 20, 30)))
      (ImL (solid 2 2 255)) "sock_with_pattern.png"
      (1, 1) (1, 1) (0, 0) alpha_texture empty_world
    = Ok (out, w')
    /\ files w' !! "sock_with_pattern.png" = Some out
    /\ stdout w'
       = ["Pattern applied to the sock and saved to sock_with_pattern.png"].
Proof.
  destruct (create_pattern_Ok nearest nearest rotate_keep 3
              (ImRGBA (solid 2 2 white)) (ImRGB (solid 3 3 (10, 20, 30)))
              (ImL (solid 2 2 255)) "sock_with_pattern.png"
              (1, 1) (1, 1) (0, 0) alpha_texture empty_world)
    as (out & w' & H);
    [ reflexivity | reflexivity | reflexivity | reflexivity | accepted
    | unfold stride_positive; simpl; lia
    | unfold jitter_nonempty; simpl; lia
    | apply fuel_for_covers; vm_compute; lia | ].
  destruct (create_pattern_effects nearest nearest rotate_keep 3
              (ImRGBA (solid 2 2 white)) (ImRGB (solid 3 3 (10, 20, 30)))
              (ImL (solid 2 2 255)) "sock_with_pattern.png"
              (1, 1) (1, 1) (0, 0) alpha_texture empty_world out w' H)
    as (Hfile & _ & Hout).
  exists out, w'. split; [exact H|]. split; [exact Hfile | exact Hout].
Defined.



(** X11 on the walk of [create_pattern] over the 2 x 2 base with tiles of
    1 x 1 and no spacing: lines 50-52 prepare the layers, and the walk
    returns. *)
Lemma grid_cells_inside_base_witness :
  let base := convert_RGBA (ImRGBA (solid 2 2 white)) in
  stride_positive (1, 1) (0, 0) (0, 0)
  /\ 0 < width base /\ 0 < height base
  /\ exists pattern mask pattern_layer visited w',
       pattern_layers nearest nearest
         (ImRGBA (solid 2 2 white)) (ImRGB (solid 3 3 (10, 20, 30)))
         (ImL (solid 2 2 255)) (1, 1)
       = Ok (base, pattern, mask)
       /\ grid_walk rotate_keep 3 base pattern (1, 1) (0, 0) (0, 0)
            alpha_pattern empty_world
          = Ok ((pattern_layer, visited), w')
       /\ (forall x y, In (x, y) visited -> inside base x y = true)
       /\ exists rest, visited = (0, 0) :: rest.
Proof.
  intros base.
  assert (Hs : stride_positive (1, 1) (0, 0) (0, 0))
    by (unfold stride_positive; simpl; lia).
  assert (Hw : 0 < width base) by reflexivity.
  assert (Hh : 0 < height base) by reflexivity.
  destruct (pattern_layers_Ok nearest nearest
              (ImRGBA (solid 2 2 white)) (ImRGB (solid 3 3 (10, 20, 30)))
              (ImL (solid 2 2 255)) (1, 1))
    as (pattern & mask & Hl);
    [reflexivity | reflexivity | reflexivity | reflexivity |].
  destruct (grid_walk_Ok rotate_keep 3 base pattern (1, 1) (0, 0) (0, 0)
              alpha_pattern empty_world)
    as ([pattern_layer visited] & w' & H);
    [ accepted | exact Hs
    | unfold jitter_nonempty; simpl; lia
    | apply fuel_for_covers; vm_compute; lia | ].
  destruct (grid_cells_inside_base rotate_keep 3 base pattern
              (1, 1) (0, 0) (0, 0) alpha_pattern empty_world
              pattern_layer visited w' H) as (_ & Hinside & Hfirst).
  split; [exact Hs|]. split; [exact Hw|]. split; [exact Hh|].
  exists pattern, mask, pattern_layer, visited, w'.
  split; [exact Hl|]. split; [exact H|].
  split; [exact (Hinside Hs) | exact (Hfirst Hw Hh)].
Defined.

(** X12 on a disk without the dog picture. *)
Lemma main_missing_file_witness :
  In dog_path input_paths
  /\ delete dog_path sample_disk !! dog_path = None
  /\ exists path,
       delete dog_path sample_disk !! path = None
       /\ main nearest nearest rotate_keep smooth_keep 3
            (delete dog_path sample_disk) empty_world
          = Ok (tt,
                mkWorld ∅
                  ["Error: " +:+ path
                   +:+ " not found in the current directory."]
                  zero_source).
Proof.
  assert (Hin : In dog_path input_paths) by (simpl; auto).
  assert (Hnone : delete dog_path sample_disk !! dog_path = None)
    by apply lookup_delete_eq.
  destruct (main_missing_file nearest nearest rotate_keep smooth_keep 3
              (delete dog_path sample_disk) empty_world dog_path Hin Hnone)
    as (path & before & after & Hsplit & Hbefore & Hmissing & H).
  split; [exact Hin|]. split; [exact Hnone|].
  exists path. split; [exact Hmissing | exact H].
Defined.

(** X13 on a disk whose texture is not a picture. *)
Lemma main_unreadable_file_witness :
  (forall q, In q input_paths ->
     is_Some (<[texture_path := Unreadable "cannot identify image file"]>
                sample_disk !! q))
  /\ In texture_path input_paths
  /\ Image_open
       (<[texture_path := Unreadable "cannot identify image file"]>
          sample_disk) texture_path
     = inl "cannot identify image file"
  /\ exists path why,
       Image_open
         (<[texture_path := Unreadable "cannot identify image file"]>
            sample_disk) path = inl why
       /\ main nearest nearest rotate_keep smooth_keep 3
            (<[texture_path := Unreadable "cannot identify image file"]>
               sample_disk) empty_world
          = Ok (tt,
                mkWorld ∅ ["Error opening " +:+ path +:+ ": " +:+ why]
                  zero_source).
Proof.
  assert (Hall : forall q, In q input_paths ->
            is_Some (<[texture_path := Unreadable "cannot identify image file"]>
                       sample_disk !! q)).
  { intros q Hq. simpl in Hq.
    destruct Hq as [<-|[<-|[<-|[<-|[]]]]]; vm_compute; by eexists. }
  assert (Hin : In texture_path input_paths) by (simpl; auto).
  assert (Hbad : Image_open
                   (<[texture_path := Unreadable "cannot identify image file"]>
                      sample_disk) texture_path
                 = inl "cannot identify image file")
    by (unfold Image_open; by rewrite lookup_insert_eq).
  destruct (main_unreadable_file nearest nearest rotate_keep smooth_keep 3
              (<[texture_path := Unreadable "cannot identify image file"]>
                 sample_disk) empty_world texture_path
              "cannot identify image file" Hall Hin Hbad)
    as (path & why & before & after & _ & _ & Hpath & H).
  split; [exact Hall|]. split; [exact Hin|]. split; [exact Hbad|].
  exists path, why. split; [exact Hpath | exact H].
Defined.

(** X14 on the sample disk. *)
Lemma main_full_run_witness :
  Image_open sample_disk sock_path = inr (Loaded (ImRGBA (solid 2 2 white)))
  /\ Image_open sample_disk texture_path
     = inr (Loaded (ImRGB (solid 3 3 (10, 20, 30))))
  /\ Image_open sample_disk dog_path
     = inr (Loaded (ImRGBA (solid 1 1 red_half)))
  /\ Image_open sample_disk mask_path = inr (Loaded (ImL (solid 2 2 0)))
  /\ (fuel_for (size (convert_RGBA (ImRGBA (solid 2 2 white)))) <= 3)%nat
  /\ exists textured bordered patterned w',
       main nearest nearest rotate_keep smooth_keep 3 sample_disk empty_world
       = Ok (tt, w')
       /\ files w' = main_files textured bordered patterned ∅
       /\ size textured = (2, 2) /\ size bordered = (21, 21)
       /\ size patterned = (2, 2).
Proof.
  assert (H1 : Image_open sample_disk sock_path
               = inr (Loaded (ImRGBA (solid 2 2 white)))) by reflexivity.
  assert (H2 : Image_open sample_disk texture_path
               = inr (Loaded (ImRGB (solid 3 3 (10, 20, 30)))))
    by reflexivity.
  assert (H3 : Image_open sample_disk dog_path
               = inr (Loaded (ImRGBA (solid 1 1 red_half)))) by reflexivity.
  assert (H4 : Image_open sample_disk mask_path
               = inr (Loaded (ImL (solid 2 2 0)))) by reflexivity.
  assert (Hf : (fuel_for (size (convert_RGBA (ImRGBA (solid 2 2 white))))
                <= 3)%nat) by (vm_compute; lia).
  destruct (main_full_run nearest nearest rotate_keep smooth_keep 3
              sample_disk _ _ _ _ empty_world H1 H2 H3 H4 Hf)
    as (textured & bordered & patterned & w' & H & Hfiles & _ & Hts & Hbs
        & Hps).
  split; [exact H1|]. split; [exact H2|]. split; [exact H3|].
  split; [exact H4|]. split; [exact Hf|].
  exists textured, bordered, patterned, w'.
  split; [exact H|]. split; [exact Hfiles|].
  split; [exact Hts|]. split; [exact Hbs | exact Hps].
Defined.

(** X15 on the sample disk, whose mask is 0 everywhere. *)
Lemma main_keeps_sock_outside_mask_witness :
  Image_open sample_disk sock_path = inr (Loaded (ImRGBA (solid 2 2 white)))
  /\ Image_open sample_disk texture_path
     = inr (Loaded (ImRGB (solid 3 3 (10, 20, 30))))
  /\ Image_open sample_disk dog_path
     = inr (Loaded (ImRGBA (solid 1 1 red_half)))
  /\ Image_open sample_disk mask_path = inr (Loaded (ImL (solid 2 2 0)))
  /\ (fuel_for (size (convert_RGBA (ImRGBA (solid 2 2 white)))) <= 3)%nat
  /\ exists final sock_mask w',
       main nearest nearest rotate_keep smooth_keep 3 sample_disk empty_world
       = Ok (tt, w')
       /\ files w' !! final_sock_path = Some final
       /\ resize_L nearest (convert_L (ImL (solid 2 2 0)))
            (size (convert_RGBA (ImRGBA (solid 2 2 white)))) = Ok sock_mask
       /\ getpixel sock_mask 1 1 = 0
       /\ getpixel final 1 1 = white.
Proof.
  assert (H1 : Image_open sample_disk sock_path
               = inr (Loaded (ImRGBA (solid 2 2 white)))) by reflexivity.
  assert (H2 : Image_open sample_disk texture_path
               = inr (Loaded (ImRGB (solid 3 3 (10, 20, 30)))))
    by reflexivity.
  assert (H3 : Image_open sample_disk dog_path
               = inr (Loaded (ImRGBA (solid 1 1 red_half)))) by reflexivity.
  assert (H4 : Image_open sample_disk mask_path
               = inr (Loaded (ImL (solid 2 2 0)))) by reflexivity.
  assert (Hf : (fuel_for (size (convert_RGBA (ImRGBA (solid 2 2 white))))
                <= 3)%nat) by (vm_compute; lia).
  destruct (main_keeps_sock_outside_mask nearest nearest rotate_keep
              smooth_keep 3 sample_disk _ _ _ _ empty_world H1 H2 H3 H4 Hf)
    as (final & sock_mask & w' & H & Hfile & Hmask & Hpx).
  split; [exact H1|]. split; [exact H2|]. split; [exact H3|].
  split; [exact H4|]. split; [exact Hf|].
  exists final, sock_mask, w'. split; [exact H|]. split; [exact Hfile|].
  split; [exact Hmask|].
  returned Hmask.
  split; [reflexivity|]. exact (Hpx 1 1 eq_refl).
Defined.

(** X16 on the sample disk, which [main] processes to the end, and on the
    disk whose texture file is cut short, on which it raises. *)
Lemma main_raises_only_on_damaged_file_witness :
  (main_fuel sample_disk <= 3)%nat
  /\ (main_fuel damaged_disk <= 3)%nat
  /\ ~ (all_open sample_disk /\ some_damaged sample_disk)
  /\ all_open damaged_disk
  /\ some_damaged damaged_disk
  /\ (exists w',
        main nearest nearest rotate_keep smooth_keep 3 sample_disk empty_world
        = Ok (tt, w'))
  /\ main nearest nearest rotate_keep smooth_keep 3 damaged_disk empty_world
     = Raise OSError.
Proof.
  assert (H3 : (main_fuel sample_disk <= 3)%nat) by (vm_compute; lia).
  assert (H3' : (main_fuel damaged_disk <= 3)%nat) by (vm_compute; lia).
  assert (Hsound : ~ (all_open sample_disk /\ some_damaged sample_disk)).
  { intros (_ & path & h & Hin & Hd). simpl in Hin.
    destruct Hin as [<-|[<-|[<-|[<-|[]]]]]; vm_compute in Hd; discriminate. }
  assert (Hopen : all_open damaged_disk).
  { intros path Hin. simpl in Hin.
    destruct Hin as [<-|[<-|[<-|[<-|[]]]]]; eexists; reflexivity. }
  assert (Hdamaged : some_damaged damaged_disk).
  { exists texture_path, (ImRGB (solid 3 3 (10, 20, 30))).
    split; [simpl; auto|reflexivity]. }
  split; [exact H3|]. split; [exact H3'|]. split; [exact Hsound|].
  split; [exact Hopen|]. split; [exact Hdamaged|].
  split.
  - exact (proj2 (main_raises_only_on_damaged_file nearest nearest
                    rotate_keep smooth_keep sample_disk 3%nat empty_world H3)
             Hsound).
  - exact (proj1 (main_raises_only_on_damaged_file nearest nearest
                    rotate_keep smooth_keep damaged_disk 3%nat empty_world
                    H3')
             Hopen Hdamaged).
Defined.
